(** * chibi: context manager, tool registry, investigator loop and orchestrator

    A shallow embedding of the TypeScript sources
      - src/context/manager.ts, src/context/types.ts, src/context/storage.ts
      - src/tools/registry.ts
      - src/agent/investigator.ts, src/agent/orchestrator.ts
      - src/utils/tokens.ts, src/agent/prompt-builder.ts (buildToolResultPrompt)
      - src/agent/synthesizer.ts, src/events/emitter.ts
    followed by the properties proved about them.

    Conventions.
    - A JavaScript string is the list of its UTF-16 code units.
    - A JavaScript number that holds a count is a [Z].  The three places
      where the source multiplies or divides by a decimal constant
      (0.8, 0.6, 0.05 / 0.2) are written with exact integer arithmetic;
      below 2^50 the IEEE-754 results coincide with the exact ones.
    - [nanoid] and [Date.now] are inputs of the operations that call them.
    - A thrown exception is the [Throw] result; the state that the
      operation had reached when it threw is still returned. *)

From Stdlib Require Import ZArith List Bool Lia Sorted Permutation.
From Stdlib Require Import Strings.String Strings.Ascii Strings.Byte.
From Stdlib Require Import Numbers.DecimalString.
From stdpp Require Import base list gmap.

Open Scope Z_scope.

(* ===================================================================== *)
(** * JavaScript strings and arrays                                        *)
(* ===================================================================== *)

Module JS.

Definition jschar := N.
Definition jsstring := list N.

(** UTF-8 bytes of a source literal to UTF-16 code units. *)
Fixpoint utf16_of_utf8 (bs : list N) : jsstring :=
  match bs with
  | [] => []
  | b0 :: r0 =>
    if (b0 <? 128)%N then b0 :: utf16_of_utf8 r0
    else match r0 with
    | [] => [b0]
    | b1 :: r1 =>
      if (b0 <? 224)%N then
        ((b0 mod 32) * 64 + b1 mod 64)%N :: utf16_of_utf8 r1
      else match r1 with
      | [] => [b0; b1]
      | b2 :: r2 =>
        if (b0 <? 240)%N then
          ((b0 mod 16) * 4096 + (b1 mod 64) * 64 + b2 mod 64)%N
            :: utf16_of_utf8 r2
        else match r2 with
        | [] => [b0; b1; b2]
        | b3 :: r3 =>
          let cp := ((b0 mod 8) * 262144 + (b1 mod 64) * 4096
                     + (b2 mod 64) * 64 + b3 mod 64)%N in
          let v := (cp - 65536)%N in
          (55296 + v / 1024)%N :: (56320 + v mod 1024)%N :: utf16_of_utf8 r3
        end
      end
    end
  end.

(** A string literal of the source. *)
Definition lit (s : string) : jsstring :=
  utf16_of_utf8 (List.map Byte.to_N (list_byte_of_string s)).

Definition chr (s : string) : jschar :=
  match lit s with c :: _ => c | [] => 0%N end.

Definition LF : jschar := 10%N.
Definition quote : jschar := 34%N.          (* the double quote *)

(** [String(n)] for an integral number. *)
Definition String_of_number (z : Z) : jsstring :=
  lit (NilEmpty.string_of_int (Z.to_int z)).

Definition eqb (a b : jsstring) : bool := bool_decide (a = b).
Arguments eqb : simpl never.

(** Truthiness of a string: the empty string is falsy. *)
Definition truthy (s : jsstring) : bool :=
  match s with [] => false | _ => true end.

Definition truthy_opt (o : option jsstring) : bool :=
  match o with Some s => truthy s | None => false end.

Fixpoint startsWith (s p : jsstring) : bool :=
  match p, s with
  | [], _ => true
  | c :: p', d :: s' => (c =? d)%N && startsWith s' p'
  | _ :: _, [] => false
  end.

(** [s.includes(sub)] *)
Fixpoint includes (s sub : jsstring) : bool :=
  startsWith s sub ||
  match s with
  | [] => false
  | _ :: s' => includes s' sub
  end.

(** [s.indexOf(sub)], [None] for -1. *)
Fixpoint indexOf (s sub : jsstring) : option nat :=
  if startsWith s sub then Some 0%nat
  else match s with
       | [] => None
       | _ :: s' => S <$> indexOf s' sub
       end.

(** WhiteSpace and LineTerminator code units: what [trim] strips and what
    the class \s of a regular expression accepts. *)
Definition isWhiteSpace (c : jschar) : bool :=
  ((9 <=? c) && (c <=? 13) || (c =? 32) || (c =? 160) || (c =? 5760)
   || (8192 <=? c) && (c <=? 8202) || (c =? 8232) || (c =? 8233)
   || (c =? 8239) || (c =? 8287) || (c =? 12288) || (c =? 65279))%N.

Definition isLineTerminator (c : jschar) : bool :=
  ((c =? 10) || (c =? 13) || (c =? 8232) || (c =? 8233))%N.

Fixpoint trimStart (s : jsstring) : jsstring :=
  match s with
  | c :: s' => if isWhiteSpace c then trimStart s' else s
  | [] => []
  end.

Definition trimEnd (s : jsstring) : jsstring := rev (trimStart (rev s)).

Definition trim (s : jsstring) : jsstring := trimEnd (trimStart s).

(** Relative index of [Array.prototype.slice] and [String.prototype.slice]. *)
Definition rel_index (len i : Z) : Z :=
  if i <? 0 then Z.max (len + i) 0 else Z.min i len.

(** [l.slice(start, stop)] *)
Definition slice {A} (l : list A) (start stop : Z) : list A :=
  let len := Z.of_nat (length l) in
  let k := rel_index len start in
  let e := rel_index len stop in
  take (Z.to_nat (e - k)) (drop (Z.to_nat k) l).

(** [l.slice(start)] *)
Definition slice_from {A} (l : list A) (start : Z) : list A :=
  slice l start (Z.of_nat (length l)).

(** [parts.join(sep)] *)
Fixpoint join (sep : jsstring) (parts : list jsstring) : jsstring :=
  match parts with
  | [] => []
  | [p] => p
  | p :: ps => p ++ sep ++ join sep ps
  end.

(** [s.split('\n')] *)
Fixpoint split_lines_aux (cur : jsstring) (s : jsstring) : list jsstring :=
  match s with
  | [] => [rev cur]
  | c :: s' =>
    if (c =? LF)%N then rev cur :: split_lines_aux [] s'
    else split_lines_aux (c :: cur) s'
  end.

Definition split_lines (s : jsstring) : list jsstring := split_lines_aux [] s.

(** [arr.find(p)] *)
Definition find {A} (p : A -> bool) (l : list A) : option A := List.find p l.

End JS.

Export JS.

(* ===================================================================== *)
(** * Regular expressions                                                  *)
(* ===================================================================== *)

(** The backtracking matcher of ECMAScript, for the fragment the sources
    use.  [run r st] lists every way [r] can match at [st], in the order
    in which the backtracking search tries them; the head of the list is
    the match JavaScript reports. *)

Module Regex.

Inductive regex : Type :=
| Eps
| Chr (cls : jschar -> bool)          (* one code unit of a class *)
| Seq (r1 r2 : regex)
| Alt (r1 r2 : regex)                 (* r1|r2 *)
| Opt (r : regex)                     (* r?  *)
| Star (cls : jschar -> bool)         (* cls*  greedy *)
| StarLazy (cls : jschar -> bool)     (* cls*? *)
| Group (r : regex)                   (* capturing group *)
| Bol                                 (* ^ under the m flag *)
| Eoi.                                (* $ without the m flag *)

Record mstate := MState {
  prev : option jschar;               (* code unit before the position *)
  rest : jsstring;                    (* input from the position on *)
  caps : list jsstring                (* closed groups, in order *)
}.

Definition advance (c : jschar) (s : jsstring) (st : mstate) : mstate :=
  MState (Some c) s (caps st).

Fixpoint star_greedy (cls : jschar -> bool) (pv : option jschar)
    (s : jsstring) (cs : list jsstring) : list mstate :=
  match s with
  | c :: s' =>
    if cls c then star_greedy cls (Some c) s' cs ++ [MState pv s cs]
    else [MState pv s cs]
  | [] => [MState pv s cs]
  end.

Fixpoint star_lazy (cls : jschar -> bool) (pv : option jschar)
    (s : jsstring) (cs : list jsstring) : list mstate :=
  match s with
  | c :: s' =>
    if cls c then MState pv s cs :: star_lazy cls (Some c) s' cs
    else [MState pv s cs]
  | [] => [MState pv s cs]
  end.

Definition at_line_start (pv : option jschar) : bool :=
  match pv with
  | None => true
  | Some c => isLineTerminator c
  end.

Fixpoint run (r : regex) (st : mstate) : list mstate :=
  match r with
  | Eps => [st]
  | Chr cls =>
    match rest st with
    | c :: s' => if cls c then [advance c s' st] else []
    | [] => []
    end
  | Seq r1 r2 => flat_map (run r2) (run r1 st)
  | Alt r1 r2 => run r1 st ++ run r2 st
  | Opt r1 => run r1 st ++ [st]
  | Star cls => star_greedy cls (prev st) (rest st) (caps st)
  | StarLazy cls => star_lazy cls (prev st) (rest st) (caps st)
  | Group r1 =>
    List.map
      (fun st' =>
         let n := (length (rest st) - length (rest st'))%nat in
         MState (prev st') (rest st') (caps st' ++ [take n (rest st)]))
      (run r1 st)
  | Bol => if at_line_start (prev st) then [st] else []
  | Eoi => match rest st with [] => [st] | _ :: _ => [] end
  end.

(** A match: where it starts, what it spans, and its groups. *)
Record rmatch := RMatch {
  index : nat;
  matched : jsstring;
  groups : list jsstring;
  after : jsstring
}.

(** Leftmost match: the first position, from the left, at which [run]
    succeeds.  This is [RegExp.prototype.exec] for a regular expression
    without the g flag, and [s.match(r)] for such an expression. *)
Fixpoint exec_from (r : regex) (pv : option jschar) (s : jsstring)
    (idx : nat) : option rmatch :=
  match run r (MState pv s []) with
  | st :: _ =>
    Some (RMatch idx (take (length s - length (rest st))%nat s)
                 (caps st) (rest st))
  | [] =>
    match s with
    | [] => None
    | c :: s' => exec_from r (Some c) s' (S idx)
    end
  end.

Definition exec (r : regex) (s : jsstring) : option rmatch :=
  exec_from r None s 0%nat.

(** [r.test(s)] *)
Definition test (r : regex) (s : jsstring) : bool :=
  match exec r s with Some _ => true | None => false end.

(** [s.match(r)] for an expression with the g flag: the successive
    non-overlapping leftmost matches. *)
Fixpoint match_all_from (fuel : nat) (r : regex) (pv : option jschar)
    (s : jsstring) : list jsstring :=
  match fuel with
  | O => []
  | S fuel' =>
    match exec_from r pv s 0%nat with
    | None => []
    | Some m =>
      match matched m, drop (index m) s with
      | [], c :: s' =>          (* empty match: step over one code unit *)
        [] :: match_all_from fuel' r (Some c) s'
      | [], [] => [[]]
      | w, _ => w :: match_all_from fuel' r (last w) (after m)
      end
    end
  end.

Definition match_all (r : regex) (s : jsstring) : list jsstring :=
  match_all_from (S (length s)) r None s.

(** [s.replace(r, f)] where [f] builds the replacement from the match:
    every match when [global], the first one otherwise. *)
Fixpoint replace_from (fuel : nat) (global : bool) (r : regex)
    (f : rmatch -> jsstring) (pv : option jschar) (s : jsstring) : jsstring :=
  match fuel with
  | O => s
  | S fuel' =>
    match exec_from r pv s 0%nat with
    | None => s
    | Some m =>
      let head := take (index m) s ++ f m in
      if negb global then head ++ after m
      else match matched m, after m with
           | [], c :: s' =>
             head ++ c :: replace_from fuel' global r f (Some c) s'
           | [], [] => head
           | w, s' => head ++ replace_from fuel' global r f (last w) s'
           end
    end
  end.

Definition replace (global : bool) (r : regex) (f : rmatch -> jsstring)
    (s : jsstring) : jsstring :=
  replace_from (S (length s)) global r f None s.

(** ** Classes and abbreviations *)

Definition one (c : jschar) : jschar -> bool := fun x => (x =? c)%N.
Definition except (c : jschar) : jschar -> bool := fun x => negb (x =? c)%N.
Definition any : jschar -> bool := fun _ => true.          (* [\s\S] *)
Definition dot : jschar -> bool := fun x => negb (isLineTerminator x).
Definition space : jschar -> bool := isWhiteSpace.         (* \s *)
Definition digit : jschar -> bool :=                       (* \d *)
  fun x => ((48 <=? x) && (x <=? 57))%N.
Definition word : jschar -> bool :=                        (* \w *)
  fun x => ((48 <=? x) && (x <=? 57) || (65 <=? x) && (x <=? 90)
            || (97 <=? x) && (x <=? 122) || (x =? 95))%N.

(** A code unit under the i flag: an ASCII letter matches both of its
    cases; no code unit above 127 is canonicalised to an ASCII one. *)
Definition is_ci (c : jschar) : jschar -> bool :=
  fun x =>
    if ((65 <=? c) && (c <=? 90))%N then ((x =? c) || (x =? c + 32))%N
    else if ((97 <=? c) && (c <=? 122))%N then ((x =? c) || (x =? c - 32))%N
    else (x =? c)%N.

Fixpoint seq (rs : list regex) : regex :=
  match rs with
  | [] => Eps
  | [r] => r
  | r :: rs' => Seq r (seq rs')
  end.

Definition str (s : string) : regex := seq (List.map (fun c => Chr (one c)) (lit s)).
Definition str_ci (s : string) : regex :=
  seq (List.map (fun c => Chr (is_ci c)) (lit s)).
Definition Plus (cls : jschar -> bool) : regex := Seq (Chr cls) (Star cls).

Fixpoint alt (rs : list regex) : regex :=
  match rs with
  | [] => Eps
  | [r] => r
  | r :: rs' => Alt r (alt rs')
  end.

End Regex.

(* ===================================================================== *)
(** * Exceptions and state                                                 *)
(* ===================================================================== *)

Module Eff.

Inductive ErrorClass := HostError | PlainError | AgentError | ContextError.

Record Error := MkError { err_class : ErrorClass; message : jsstring }.

Inductive Result (A : Type) : Type :=
| Ok (a : A)
| Throw (e : Error).
Arguments Ok {A} a.
Arguments Throw {A} e.

(** A computation over a mutable state [S] that returns or throws. *)
Definition M (S A : Type) : Type := S -> Result A * S.

Definition ret {S A} (a : A) : M S A := fun s => (Ok a, s).
Definition throw {S A} (e : Error) : M S A := fun s => (Throw e, s).
Definition bind {S A B} (m : M S A) (k : A -> M S B) : M S B :=
  fun s => match m s with
           | (Ok a, s') => k a s'
           | (Throw e, s') => (Throw e, s')
           end.
Definition get {S} : M S S := fun s => (Ok s, s).
Definition put {S} (s : S) : M S unit := fun _ => (Ok tt, s).
Definition modify {S} (f : S -> S) : M S unit := fun s => (Ok tt, f s).

(** [try { m } catch (e) { h e }] *)
Definition try_catch {S A} (m : M S A) (h : Error -> M S A) : M S A :=
  fun s => match m s with
           | (Ok a, s') => (Ok a, s')
           | (Throw e, s') => h e s'
           end.

(** Run a computation of a component on the part of the state it owns. *)
Definition lift {S T A} (proj : S -> T) (upd : T -> S -> S) (m : M T A) : M S A :=
  fun s => let '(r, t') := m (proj s) in (r, upd t' s).

Definition state_after {S A} (m : M S A) (s : S) : S := snd (m s).
Definition result_of {S A} (m : M S A) (s : S) : Result A := fst (m s).

Declare Scope eff_scope.
Delimit Scope eff_scope with eff.
Notation "'let*' x := m 'in' k" := (bind m (fun x => k))
  (at level 10, x name, m at level 100, k at level 200) : eff_scope.
Notation "'run*' m 'in' k" := (bind m (fun _ => k))
  (at level 10, m at level 100, k at level 200) : eff_scope.

End Eff.

Export Eff.

(* ===================================================================== *)
(** * A JavaScript [Map] with string keys                                  *)
(* ===================================================================== *)

Module JsMap.

(** Entries in insertion order; [set] on a present key keeps its place. *)
Definition t (V : Type) := list (jsstring * V).

Definition empty {V} : t V := [].

Fixpoint get {V} (m : t V) (k : jsstring) : option V :=
  match m with
  | [] => None
  | (k', v) :: m' => if JS.eqb k' k then Some v else get m' k
  end.

Definition has {V} (m : t V) (k : jsstring) : bool :=
  match get m k with Some _ => true | None => false end.

Fixpoint set {V} (m : t V) (k : jsstring) (v : V) : t V :=
  match m with
  | [] => [(k, v)]
  | (k', v') :: m' =>
    if JS.eqb k' k then (k', v) :: m' else (k', v') :: set m' k v
  end.

Definition keys {V} (m : t V) : list jsstring := List.map fst m.
Definition values {V} (m : t V) : list V := List.map snd m.

End JsMap.

(* ===================================================================== *)
(** * src/context/types.ts                                                 *)
(* ===================================================================== *)

Module ContextTypes.

Local Open Scope eff_scope.

Inductive Role := user | assistant.

#[global] Instance Role_eq_dec : EqDecision Role.
Proof. solve_decision. Defined.

Record Metadata := mkMetadata {
  toolName : option jsstring;
  source : option jsstring;
  compressible : option bool
}.

Record ChatMessage := mkChatMessage {
  key : jsstring;
  role : Role;
  content : jsstring;
  tokens : Z;
  compressed : bool;
  originalTokens : option Z;
  timestamp : Z;
  metadata : option Metadata
}.

(** [message.metadata?.toolName] and its siblings. *)
Definition meta_toolName (m : ChatMessage) : option jsstring :=
  match metadata m with Some md => toolName md | None => None end.
Definition meta_source (m : ChatMessage) : option jsstring :=
  match metadata m with Some md => source md | None => None end.
Definition meta_compressible (m : ChatMessage) : option bool :=
  match metadata m with Some md => compressible md | None => None end.

Inductive Priority := high | medium | low.

Record CompressionROI := mkROI {
  messageKey : jsstring;
  currentTokens : Z;
  estimatedCompressedTokens : Z;
  savings : Z;
  priority : Priority
}.

Record BudgetConfig := mkBudgetConfig {
  contextWindow : Z;
  reservedForSynthesis : Z;
  reservedForRecalls : Z;
  reservedForNextSteps : Z
}.

Record BudgetState := mkBudgetState {
  total : Z;
  used : Z;
  available : Z;
  breakdown_systemPrompt : Z;
  breakdown_messages : Z;
  breakdown_reserved : Z
}.

Record Session := mkSession {
  id : jsstring;
  query : jsstring;
  startedAt : Z;
  workingDir : jsstring;
  storage_sessionDir : jsstring;
  storage_messages : JsMap.t jsstring;      (* message key -> file path *)
  messages : list ChatMessage;
  totalTokens : Z;
  budget : BudgetState
}.

Record SynthesisMessage := mkSynthesisMessage {
  syn_key : jsstring;
  syn_role : Role;
  syn_content : jsstring;
  syn_toolName : option jsstring;
  syn_source : option jsstring;
  syn_compressed : bool
}.

Record RecallResult := mkRecallResult {
  success : bool;
  recalled : jsstring;                       (* the field [content] *)
  recalled_tokens : Z;                       (* the field [tokens] *)
  recalled_source : option jsstring          (* the field [source] *)
}.

(** COMPRESSION_THRESHOLDS; the two ratios as fractions. *)
Definition minTokensToCompress : Z := 200.
Definition triggerRatio : Z * Z := (4, 5).          (* 0.8 *)
Definition targetRatio : Z * Z := (3, 5).           (* 0.6 *)
Definition protectedRecentMessages : Z := 4.

Inductive Agent := investigator | synthesizer | main.

(** The debug record of one model turn, as far as the storage layer looks
    at it: the file name comes from [agent] and [turn].  Of the other
    fields, which are written as they are and never read back, the
    record keeps the prompt and the output. *)
Record LLMTurn := mkLLMTurn {
  agent : option Agent;
  turn : Z;
  input_systemPrompt : jsstring;
  output_content : jsstring;
  output_thinking : option jsstring
}.

(** DOUBAO_SEED_CODE_LIMITS.contextWindow and DEFAULT_BUDGET_CONFIG *)
Definition DOUBAO_contextWindow : Z := 256 * 1024.
Definition DEFAULT_BUDGET_CONFIG : BudgetConfig :=
  mkBudgetConfig DOUBAO_contextWindow 30000 20000 15000.

(* ===================================================================== *)
(** * src/context/storage.ts                                               *)
(* ===================================================================== *)

(** What [saveMessageContent] writes to messages/<key>.json. *)
Record StoredMessage := mkStored {
  st_key : jsstring;
  st_role : Role;
  st_content : jsstring;
  st_tokens : Z;
  st_timestamp : Z;
  st_metadata : option Metadata
}.

(** The storage object with the part of the file system it writes.
    [fs_faults] lists the outcome of the coming file-system calls:
    [Some msg] makes the call fail with that message, [None] (and an
    exhausted list) lets it succeed. *)
Record ContextStorage := mkStorage {
  paths_base : jsstring;
  paths_sessions : jsstring;
  initialized : bool;
  session_files : gmap jsstring Session;
  message_files : gmap jsstring StoredMessage;
  turn_files : gmap jsstring LLMTurn;
  fs_faults : list (option jsstring)
}.

Definition with_faults (f : list (option jsstring)) (st : ContextStorage) :=
  mkStorage (paths_base st) (paths_sessions st) (initialized st)
            (session_files st) (message_files st) (turn_files st) f.

(** One file-system call: consumes an outcome. *)
Definition fs_call : M ContextStorage unit :=
  fun st =>
    match fs_faults st with
    | Some msg :: f => (Throw (MkError HostError msg), with_faults f st)
    | None :: f => (Ok tt, with_faults f st)
    | [] => (Ok tt, st)
    end.

(** [path.join] on segments that need no normalisation. *)
Definition path_join (parts : list jsstring) : jsstring := join (lit "/") parts.

(** [`${error}`] for an error that a file-system call threw: its name is
    "Error", and [Error.prototype.toString] leaves an empty message out. *)
Definition fs_error_text (e : Error) : jsstring :=
  if truthy (message e) then lit "Error: " ++ message e else lit "Error".

Definition storage_init : M ContextStorage unit :=
  let* st := get in
  if initialized st then ret tt
  else
    try_catch
      (run* fs_call in                                  (* ensureDir(paths.base) *)
       run* fs_call in                                  (* ensureDir(paths.sessions) *)
       modify (fun st => mkStorage (paths_base st) (paths_sessions st) true
                 (session_files st) (message_files st) (turn_files st)
                 (fs_faults st)))
      (fun e => throw (MkError ContextError
                  (lit "Failed to initialize storage: " ++ fs_error_text e))).

Definition saveSession (session : Session) : M ContextStorage unit :=
  let* st := get in
  let sessionFile := path_join [paths_sessions st; id session; lit "session.json"] in
  run* fs_call in                                       (* writeJson *)
  modify (fun st => mkStorage (paths_base st) (paths_sessions st) (initialized st)
            (<[sessionFile := session]> (session_files st))
            (message_files st) (turn_files st) (fs_faults st)).

(** [nano] is the result of [nanoid(10)], [now] that of [Date.now()]. *)
Definition createSession (query workingDir nano : jsstring) (now : Z)
  : M ContextStorage Session :=
  run* storage_init in
  let* st := get in
  let sessionId := nano in
  let sessionDir := path_join [paths_sessions st; sessionId] in
  run* fs_call in                                       (* ensureDir(sessionDir) *)
  run* fs_call in                                       (* ensureDir(.../messages) *)
  run* fs_call in                                       (* ensureDir(.../turns) *)
  let session :=
    mkSession sessionId query now workingDir sessionDir JsMap.empty [] 0
              (mkBudgetState 0 0 0 0 0 0) in
  run* saveSession session in
  ret session.

Definition message_path (st : ContextStorage) (sessionId messageKey : jsstring) :=
  path_join [paths_sessions st; sessionId; lit "messages"; messageKey ++ lit ".json"].

Definition saveMessageContent (sessionId : jsstring) (message : ChatMessage)
  : M ContextStorage jsstring :=
  let* st := get in
  let filePath := message_path st sessionId (key message) in
  let stored :=
    mkStored (key message) (role message) (content message) (tokens message)
             (timestamp message) (metadata message) in
  run* fs_call in                                       (* writeJson *)
  run* modify (fun st => mkStorage (paths_base st) (paths_sessions st)
            (initialized st) (session_files st)
            (<[filePath := stored]> (message_files st))
            (turn_files st) (fs_faults st)) in
  ret filePath.

(** The restored message, [compressed: false]; [None] is [null]. *)
Definition loadMessageContent (sessionId messageKey : jsstring)
  : M ContextStorage (option ChatMessage) :=
  let* st := get in
  let filePath := message_path st sessionId messageKey in
  match message_files st !! filePath with
  | None => ret None                                    (* pathExists *)
  | Some data =>
    try_catch
      (run* fs_call in                                  (* readJson *)
       ret (Some (mkChatMessage (st_key data) (st_role data) (st_content data)
                    (st_tokens data) false None (st_timestamp data)
                    (st_metadata data))))
      (fun _ => ret None)
  end.

Definition agent_name (a : Agent) : jsstring :=
  match a with
  | investigator => lit "investigator"
  | synthesizer => lit "synthesizer"
  | main => lit "main"
  end.

(** [s.padStart(n, '0')] *)
Definition padStart0 (n : nat) (s : jsstring) : jsstring :=
  repeat (chr "0") (n - length s) ++ s.

Definition storage_saveLLMTurn (sessionId : jsstring) (t : LLMTurn)
  : M ContextStorage jsstring :=
  let* st := get in
  let turnsDir := path_join [paths_sessions st; sessionId; lit "turns"] in
  run* fs_call in                                       (* ensureDir *)
  let turnNumber := padStart0 3 (String_of_number (turn t)) in
  let agentName := agent_name (default main (agent t)) in
  let fileName := agentName ++ lit "-" ++ turnNumber ++ lit ".json" in
  let filePath := path_join [turnsDir; fileName] in
  run* fs_call in                                       (* writeJson *)
  run* modify (fun st => mkStorage (paths_base st) (paths_sessions st)
            (initialized st) (session_files st) (message_files st)
            (<[filePath := t]> (turn_files st)) (fs_faults st)) in
  ret filePath.

End ContextTypes.

Export ContextTypes.

(* ===================================================================== *)
(** * src/utils/tokens.ts                                                  *)
(* ===================================================================== *)

Module Tokens.

(** [tiktoken] is a dependency: [encode text] is the length of
    [getEncoder().encode(text)], or [None] when that call throws. *)
Definition estimateTokens (encode : jsstring -> option Z) (text : jsstring) : Z :=
  if negb (truthy text) then 0
  else match encode text with
       | Some n => n
       | None => (Z.of_nat (length text) + 3) / 4       (* Math.ceil(len / 4) *)
       end.

End Tokens.

Export Tokens.

(* ===================================================================== *)
(** * src/context/manager.ts                                               *)
(* ===================================================================== *)

Module Manager.

Local Open Scope eff_scope.

Record ContextManager := mkManager {
  storage : ContextStorage;
  session : option Session;
  budgetConfig : BudgetConfig;
  systemPromptTokens : Z
}.

Definition with_storage (st : ContextStorage) (cm : ContextManager) :=
  mkManager st (session cm) (budgetConfig cm) (systemPromptTokens cm).
Definition with_session (s : option Session) (cm : ContextManager) :=
  mkManager (storage cm) s (budgetConfig cm) (systemPromptTokens cm).
Definition with_systemPromptTokens (n : Z) (cm : ContextManager) :=
  mkManager (storage cm) (session cm) (budgetConfig cm) n.

(** Field updates of the session object. *)
Definition set_budget (b : BudgetState) (s : Session) : Session :=
  mkSession (id s) (query s) (startedAt s) (workingDir s) (storage_sessionDir s)
            (storage_messages s) (messages s) (totalTokens s) b.
Definition set_messages (ms : list ChatMessage) (s : Session) : Session :=
  mkSession (id s) (query s) (startedAt s) (workingDir s) (storage_sessionDir s)
            (storage_messages s) ms (totalTokens s) (budget s).
Definition set_totalTokens (n : Z) (s : Session) : Session :=
  mkSession (id s) (query s) (startedAt s) (workingDir s) (storage_sessionDir s)
            (storage_messages s) (messages s) n (budget s).
Definition set_storage_messages (m : JsMap.t jsstring) (s : Session) : Session :=
  mkSession (id s) (query s) (startedAt s) (workingDir s) (storage_sessionDir s)
            m (messages s) (totalTokens s) (budget s).

(** A call of a storage method from the manager. *)
Definition in_storage {A} (m : M ContextStorage A) : M ContextManager A :=
  lift storage with_storage m.

Definition no_active_session : Error := MkError PlainError (lit "No active session").

Section WithEncoder.

Variable encode : jsstring -> option Z.

Abbreviation estimateTokens := (Tokens.estimateTokens encode).

(** [new ContextManager(options)] on a given storage object. *)
Definition new_manager (st : ContextStorage) (cfg : option BudgetConfig)
    (systemPrompt : option jsstring) : ContextManager :=
  mkManager st None (default DEFAULT_BUDGET_CONFIG cfg)
            (match systemPrompt with
             | Some p => if truthy p then estimateTokens p else 0
             | None => 0
             end).

Definition calculateBudget (cm : ContextManager) : BudgetState :=
  let cfg := budgetConfig cm in
  let reserved :=
    reservedForSynthesis cfg + reservedForRecalls cfg + reservedForNextSteps cfg in
  let messagesTokens :=
    match session cm with Some s => totalTokens s | None => 0 end in
  let used := systemPromptTokens cm + messagesTokens in
  let available := contextWindow cfg - used - reserved in
  mkBudgetState (contextWindow cfg) used (Z.max 0 available)
                (systemPromptTokens cm) messagesTokens reserved.

(** [this.session.budget = this.calculateBudget()] *)
Definition refresh_budget (cm : ContextManager) : ContextManager :=
  match session cm with
  | Some s => with_session (Some (set_budget (calculateBudget cm) s)) cm
  | None => cm
  end.

Definition initSession (query workingDir nano : jsstring) (now : Z)
  : M ContextManager Session :=
  let* s := in_storage (createSession query workingDir nano now) in
  run* modify (with_session (Some s)) in
  run* modify refresh_budget in
  let* cm := get in
  match session cm with
  | Some s' => ret s'
  | None => ret s
  end.

Definition getSession (cm : ContextManager) : option Session := session cm.

(** [usage = used / total; usage >= 0.8], division by zero included:
    x/0 is Infinity for x > 0 and NaN or -Infinity otherwise. *)
Definition ratio_ge (num den : Z) (r : Z * Z) : bool :=
  if den =? 0 then 0 <? num
  else if 0 <? den then fst r * den <=? snd r * num
  else snd r * num <=? fst r * den.

Definition needsCompression (cm : ContextManager) : bool :=
  match session cm with
  | None => false
  | Some s => ratio_ge (used (budget s)) (total (budget s)) triggerRatio
  end.

(** [Math.ceil(n / d)] for [d > 0]. *)
Definition ceil_div (n d : Z) : Z := - ((- n) / d).

Definition calculateTokensToFree (cm : ContextManager) : Z :=
  match session cm with
  | None => 0
  | Some s =>
    (* used - total * 0.6, rounded up *)
    let toFree5 := snd targetRatio * used (budget s)
                   - fst targetRatio * total (budget s) in
    Z.max 0 (ceil_div toFree5 (snd targetRatio))
  end.

Definition isCompressible (message : ChatMessage) : bool :=
  (* Already compressed *)
  if compressed message then false
  (* Too short to compress *)
  else if tokens message <? minTokensToCompress then false
  (* Explicitly marked as not compressible *)
  else if bool_decide (meta_compressible message = Some false) then false
  (* Tool results are highly compressible *)
  else if truthy_opt (meta_toolName message) then true
  (* Long messages are compressible *)
  else minTokensToCompress <=? tokens message.

Definition is_tool (message : ChatMessage) (name : string) : bool :=
  bool_decide (meta_toolName message = Some (lit name)).

Definition candidate_of (message : ChatMessage) : CompressionROI :=
  (* ratio 0.05 for tool results, 0.2 otherwise *)
  let estimated :=
    Z.max 50 (if truthy_opt (meta_toolName message)
              then ceil_div (tokens message) 20
              else ceil_div (tokens message) 5) in
  let savings := tokens message - estimated in
  let priority :=
    if is_tool message "read_file" then high
    else if is_tool message "ripgrep" then high
    else if bool_decide (role message = assistant) then low
    else medium in
  mkROI (key message) (tokens message) estimated savings priority.

Definition getCompressionCandidates (cm : ContextManager) : list CompressionROI :=
  match session cm with
  | None => []
  | Some s =>
    let compressibleMessages := slice (messages s) 0 (- protectedRecentMessages) in
    List.map candidate_of (List.filter isCompressible compressibleMessages)
  end.

(** [m.split(/\s+/)] *)
Fixpoint split_ws_aux (cur : jsstring) (inws : bool) (s : jsstring)
  : list jsstring :=
  match s with
  | [] => [rev cur]
  | c :: s' =>
    if isWhiteSpace c then
      if inws then split_ws_aux cur true s'
      else rev cur :: split_ws_aux [] true s'
    else split_ws_aux (c :: cur) false s'
  end.

Definition split_ws (s : jsstring) : list jsstring := split_ws_aux [] false s.

(** /(?:func|function|def|class|interface|type)\s+(\w+)/g *)
Definition symbol_pattern : Regex.regex :=
  Regex.seq
    [Regex.alt [Regex.str "func"; Regex.str "function"; Regex.str "def";
                Regex.str "class"; Regex.str "interface"; Regex.str "type"];
     Regex.Plus Regex.space;
     Regex.Group (Regex.Plus Regex.word)].

Definition summarizeFileContent (content _source : jsstring) : jsstring :=
  let lines := split_lines content in
  let lineCount := Z.of_nat (length lines) in
  let functionMatches := Regex.match_all symbol_pattern content in
  let symbols :=
    List.map (fun m => nth 1 (split_ws m) []) (take 5 functionMatches) in
  let summary := lit "(" ++ String_of_number lineCount ++ lit "行)" in
  if (0 <? length symbols)%nat then
    let summary := summary ++ lit " 包含: " ++ join (lit ", ") symbols in
    if (5 <? length functionMatches)%nat then
      summary ++ lit " 等"
        ++ String_of_number (Z.of_nat (length functionMatches)) ++ lit "个符号"
    else summary
  else summary.

Definition count_newlines (s : jsstring) : Z :=
  Z.of_nat (length (List.filter (fun c => (c =? LF)%N) s)).

Definition createCompressedContent (message : ChatMessage) : jsstring :=
  let source := meta_source message in
  let head := lit "[COMPRESSED:" ++ key message ++ lit "]" in
  let hint_tail :=
    lit "recall_detail(key=" ++ [quote] ++ key message ++ [quote] ++ lit ")" in
  if is_tool message "read_file" && truthy_opt source then
    let src := default [] source in
    let summary := summarizeFileContent (content message) src in
    head ++ lit " 文件 " ++ src ++ [LF] ++ summary ++ [LF]
      ++ lit "如需完整内容，使用 " ++ hint_tail
  else if is_tool message "ripgrep" then
    let matchCount := count_newlines (content message) in
    head ++ lit " 搜索结果 (" ++ String_of_number matchCount ++ lit "个匹配)"
      ++ [LF] ++ lit "如需完整结果，使用 " ++ hint_tail
  else
    let preview :=
      List.map (fun c => if (c =? LF)%N then chr " " else c)
               (slice (content message) 0 200) in
    head ++ lit " " ++ preview ++ lit "..." ++ [LF]
      ++ lit "如需完整内容，使用 " ++ hint_tail.

(** The session of a manager that has one. *)
Definition the_session (cm : ContextManager) (dflt : Session) : Session :=
  default dflt (session cm).

(** The loop of [discardOldestMessages]: keys to discard and tokens freed. *)
Fixpoint discard_scan (discardable : list ChatMessage) (tokensToFree : Z)
    (freedTokens : Z) (toDiscard : list jsstring) : Z * list jsstring :=
  match discardable with
  | [] => (freedTokens, toDiscard)
  | message :: more =>
    if tokensToFree <=? freedTokens then (freedTokens, toDiscard)   (* break *)
    else discard_scan more tokensToFree (freedTokens + tokens message)
                      (toDiscard ++ [key message])
  end.

Definition key_in (ks : list jsstring) (m : ChatMessage) : bool :=
  existsb (JS.eqb (key m)) ks.

Definition discardOldestMessages (tokensToFree : Z) (s : Session) : Session :=
  let discardableMessages := slice (messages s) 0 (- protectedRecentMessages) in
  let '(freedTokens, toDiscard) :=
    discard_scan discardableMessages tokensToFree 0 [] in
  let s := set_messages
             (List.filter (fun m => negb (key_in toDiscard m)) (messages s)) s in
  set_totalTokens (totalTokens s - freedTokens) s.

Definition priorityOrder (p : Priority) : Z :=
  match p with high => 0 | medium => 1 | low => 2 end.

(** The comparator given to [candidates.sort]. *)
Definition compareCandidates (a b : CompressionROI) : Z :=
  if negb (priorityOrder (priority a) =? priorityOrder (priority b)) then
    priorityOrder (priority a) - priorityOrder (priority b)
  else savings b - savings a.

(** [Array.prototype.sort] is stable. *)
Fixpoint sort_insert (x : CompressionROI) (l : list CompressionROI) :=
  match l with
  | [] => [x]
  | y :: l' =>
    if compareCandidates y x <? 0 then y :: sort_insert x l' else x :: l
  end.

Fixpoint sort_candidates (l : list CompressionROI) : list CompressionROI :=
  match l with
  | [] => []
  | x :: l' => sort_insert x (sort_candidates l')
  end.

(** Assignment to the fields of the first message that has the key: the
    object that [messages.find] returned is the one in the array. *)
Fixpoint update_found (k : jsstring) (f : ChatMessage -> ChatMessage)
    (ms : list ChatMessage) : list ChatMessage :=
  match ms with
  | [] => []
  | m :: ms' =>
    if JS.eqb (key m) k then f m :: ms' else m :: update_found k f ms'
  end.

Definition compress_message (message : ChatMessage) : ChatMessage :=
  let compressedContent := createCompressedContent message in
  let compressedTokens := estimateTokens compressedContent in
  mkChatMessage (key message) (role message) compressedContent compressedTokens
                true (Some (tokens message)) (timestamp message)
                (metadata message).

(** The loop over the sorted candidates. *)
Fixpoint compress_loop (candidates : list CompressionROI) (tokensToFree : Z)
    (freedTokens : Z) (s : Session) : Z * Session :=
  match candidates with
  | [] => (freedTokens, s)
  | candidate :: more =>
    if tokensToFree <=? freedTokens then (freedTokens, s)          (* break *)
    else
      match find (fun m => JS.eqb (key m) (messageKey candidate)) (messages s) with
      | None => compress_loop more tokensToFree freedTokens s
      | Some message =>
        if compressed message then compress_loop more tokensToFree freedTokens s
        else
          let message' := compress_message message in
          let savings := tokens message - tokens message' in
          let s := set_messages
                     (update_found (key message) (fun _ => message') (messages s)) s in
          let s := set_totalTokens (totalTokens s - savings) s in
          compress_loop more tokensToFree (freedTokens + savings) s
      end
  end.

Definition compress : M ContextManager unit :=
  let* cm := get in
  match session cm with
  | None => ret tt
  | Some s =>
    let tokensToFree := calculateTokensToFree cm in
    if tokensToFree <=? 0 then ret tt
    else
      let candidates := getCompressionCandidates cm in
      if (length candidates =? 0)%nat then
        (* No compressible messages, try discarding oldest *)
        modify (with_session (Some (discardOldestMessages tokensToFree s)))
      else
        let candidates := sort_candidates candidates in
        let '(freedTokens, s) := compress_loop candidates tokensToFree 0 s in
        let s :=
          if freedTokens <? tokensToFree
          then discardOldestMessages (tokensToFree - freedTokens) s
          else s in
        run* modify (with_session (Some s)) in
        run* modify refresh_budget in
        let* cm := get in
        in_storage (saveSession (the_session cm s))
  end.

(** [nano] is the result of [nanoid(8)], [now] that of [Date.now()]. *)
Definition addMessage (r : Role) (text : jsstring) (md : option Metadata)
    (nano : jsstring) (now : Z) : M ContextManager ChatMessage :=
  let* cm := get in
  match session cm with
  | None => throw no_active_session
  | Some s =>
    let tokens := estimateTokens text in
    let message :=
      mkChatMessage (lit "msg_" ++ nano) r text tokens false None now md in
    (* Save original content to L0 (disk) for potential recall *)
    let* s :=
      (if isCompressible message then
         let* filePath := in_storage (saveMessageContent (id s) message) in
         ret (set_storage_messages
                (JsMap.set (storage_messages s) (key message) filePath) s)
       else ret s) in
    (* Add to messages *)
    let s := set_messages (messages s ++ [message]) s in
    let s := set_totalTokens (totalTokens s + tokens) s in
    run* modify (with_session (Some s)) in
    (* Update budget *)
    run* modify refresh_budget in
    (* Check if compression needed *)
    let* cm := get in
    run* (if needsCompression cm then compress else ret tt) in
    (* Persist session state *)
    let* cm := get in
    run* in_storage (saveSession (the_session cm s)) in
    ret message
  end.

Definition getMessagesForLLM (cm : ContextManager) : list (Role * jsstring) :=
  match session cm with
  | None => []
  | Some s => List.map (fun m => (role m, content m)) (messages s)
  end.

Definition getMessages (cm : ContextManager) : list ChatMessage :=
  match session cm with
  | None => []
  | Some s => messages s
  end.

(** What one message contributes to the synthesis input. *)
Definition synthesis_entry (msg : ChatMessage) : option SynthesisMessage :=
  (* Always include assistant messages *)
  if bool_decide (role msg = assistant) then
    Some (mkSynthesisMessage (key msg) (role msg) (content msg) None None
                             (compressed msg))
  else
    let toolName := meta_toolName msg in
    (* no tool name: the original query is always included *)
    if negb (truthy_opt toolName) then
      Some (mkSynthesisMessage (key msg) (role msg) (content msg) None None
                               (compressed msg))
    (* Skip failed tool calls *)
    else if includes (content msg) (lit "执行失败")
            || includes (content msg) (lit "错误:") then None
    (* Skip list_dir results *)
    else if is_tool msg "list_dir" then None
    (* Skip ripgrep results *)
    else if is_tool msg "ripgrep" then None
    (* Include read_file results *)
    else if is_tool msg "read_file" then
      Some (mkSynthesisMessage (key msg) (role msg) (content msg)
                               (meta_toolName msg) (meta_source msg)
                               (compressed msg))
    (* Include other tool results *)
    else
      Some (mkSynthesisMessage (key msg) (role msg) (content msg)
                               (meta_toolName msg) (meta_source msg)
                               (compressed msg)).

Definition getMessagesForSynthesis (cm : ContextManager) : list SynthesisMessage :=
  match session cm with
  | None => []
  | Some s => omap synthesis_entry (messages s)
  end.

(** [request.key]: a string, a value that is no string (with its
    truthiness and its text in a template), or undefined. *)
Inductive RequestKey :=
| key_string (s : jsstring)
| key_other (truthy_value : bool) (text : jsstring)
| key_missing.

Definition key_truthy (k : RequestKey) : bool :=
  match k with
  | key_string s => truthy s
  | key_other t _ => t
  | key_missing => false
  end.

(** [`${request.key}`] *)
Definition key_text (k : RequestKey) : jsstring :=
  match k with
  | key_string s => s
  | key_other _ text => text
  | key_missing => lit "undefined"
  end.

(** [m.key === request.key] *)
Definition key_is (k : RequestKey) (m : ChatMessage) : bool :=
  match k with
  | key_string s => JS.eqb (key m) s
  | _ => false
  end.

Definition recall (request_key : RequestKey) : M ContextManager RecallResult :=
  let* cm := get in
  match session cm with
  | None => ret (mkRecallResult false (lit "错误: 没有活跃的会话") 0 None)
  | Some s =>
    if negb (key_truthy request_key) then
      ret (mkRecallResult false
             (lit "错误: 缺少 key 参数。请提供要召回的消息 key，格式如 msg_xxxxxxxx")
             0 None)
    else
      match find (key_is request_key) (messages s) with
      | None =>
        let compressedMessages :=
          slice (List.map key (List.filter compressed (messages s))) 0 5 in
        let hint :=
          if (0 <? length compressedMessages)%nat then
            [LF] ++ lit "可用的压缩消息 key: " ++ join (lit ", ") compressedMessages
          else [LF] ++ lit "当前没有被压缩的消息。" in
        ret (mkRecallResult false
               (lit "错误: 未找到 key 为 " ++ [quote] ++ key_text request_key
                  ++ [quote] ++ lit " 的消息。" ++ hint)
               0 None)
      | Some message =>
        if negb (compressed message) then
          ret (mkRecallResult true
                 (lit "注意: 该消息未被压缩，以下是当前内容:" ++ [LF; LF]
                    ++ content message)
                 (tokens message) (meta_source message))
        else
          try_catch
            (let* original := in_storage (loadMessageContent (id s) (key message)) in
             match original with
             | None =>
               ret (mkRecallResult false
                      (lit "错误: 无法从存储中加载 key " ++ [quote]
                         ++ key_text request_key ++ [quote]
                         ++ lit " 的原始内容。存储文件可能已丢失。")
                      0 None)
             | Some original =>
               ret (mkRecallResult true (content original) (tokens original)
                                   (meta_source original))
             end)
            (fun error =>
               ret (mkRecallResult false
                      (lit "错误: 召回失败 - " ++ Eff.message error) 0 None))
      end
  end.

Definition getBudget (cm : ContextManager) : BudgetState :=
  match session cm with
  | Some s => budget s
  | None => mkBudgetState 0 0 0 0 0 0
  end.

Definition setSystemPromptTokens (n : Z) : M ContextManager unit :=
  run* modify (with_systemPromptTokens n) in
  modify refresh_budget.

Definition save : M ContextManager unit :=
  let* cm := get in
  match session cm with
  | Some s => in_storage (saveSession s)
  | None => ret tt
  end.

Definition saveLLMTurn (t : LLMTurn) : M ContextManager unit :=
  let* cm := get in
  match session cm with
  | None => throw no_active_session
  | Some s =>
    run* in_storage (storage_saveLLMTurn (id s) t) in
    ret tt
  end.

End WithEncoder.

End Manager.

Export Manager.

(* ===================================================================== *)
(** * src/tools/types.ts and src/tools/registry.ts                         *)
(* ===================================================================== *)

Module Registry.

Inductive ParamType := p_string | p_number | p_boolean | p_array | p_object.

(** A parameter; the nested [items] and [properties] descriptions are
    carried by the tool and read by nothing in these modules. *)
Record ToolParameter := mkParam {
  p_type : ParamType;
  p_description : jsstring;
  p_required : option bool;
  p_enum : option (list jsstring)
}.

(** A tool without its [execute] closure; what executing it returns is
    an input of the investigator loop. *)
Record Tool := mkTool {
  name : jsstring;
  description : jsstring;
  parameters : list (jsstring * ToolParameter)
}.

Record ToolResult := mkToolResult {
  tr_success : bool;
  output : jsstring;
  error : option jsstring;
  tr_source : option jsstring;              (* metadata.source *)
  tr_tokens : option Z                      (* metadata.tokens *)
}.

Record ToolRegistryConfig := mkRegistryConfig {
  enabledTools : option (list jsstring);
  disabledTools : option (list jsstring)
}.

Record ToolRegistry := mkRegistry {
  tools : JsMap.t Tool;
  config : ToolRegistryConfig
}.

Definition new_registry (cfg : ToolRegistryConfig) : ToolRegistry :=
  mkRegistry JsMap.empty cfg.

(** [arr.includes(s)] *)
Definition arr_includes (arr : list jsstring) (s : jsstring) : bool :=
  existsb (JS.eqb s) arr.

Definition register (tool : Tool) (reg : ToolRegistry) : ToolRegistry :=
  (* Check if tool is disabled *)
  if match disabledTools (config reg) with
     | Some dis => arr_includes dis (name tool)
     | None => false
     end
  then reg
  (* Check if only specific tools are enabled *)
  else if match enabledTools (config reg) with
          | Some en => (0 <? length en)%nat && negb (arr_includes en (name tool))
          | None => false
          end
  then reg
  else mkRegistry (JsMap.set (tools reg) (name tool) tool) (config reg).

Definition registerAll (ts : list Tool) (reg : ToolRegistry) : ToolRegistry :=
  fold_left (fun r t => register t r) ts reg.

(** [get] *)
Definition get_tool (reg : ToolRegistry) (n : jsstring) : option Tool :=
  JsMap.get (tools reg) n.
Definition has (reg : ToolRegistry) (n : jsstring) : bool := JsMap.has (tools reg) n.
Definition getAll (reg : ToolRegistry) : list Tool := JsMap.values (tools reg).
Definition getNames (reg : ToolRegistry) : list jsstring := JsMap.keys (tools reg).

End Registry.

Export Registry.

(* ===================================================================== *)
(** * Values of the host: tool arguments                                   *)
(* ===================================================================== *)

(** Tool arguments are [Record<string, unknown>]: values of the host,
    reached through the host's own functions. *)
Class JsonHost := {
  Value : Type;
  JSON_stringify : Value -> jsstring;
  JSON_parse : jsstring -> option Value;       (* [None]: SyntaxError *)
  to_boolean : Value -> bool;                   (* truthiness *)
  get_property : Value -> jsstring -> option Value;   (* [None]: undefined *)
  as_string : Value -> option jsstring;         (* the value, if a string *)
  to_String : Value -> jsstring;                (* String(v) *)
  nullish : Value -> option jsstring
    (* "null" or "undefined", of which no property can be read *)
}.

(* ===================================================================== *)
(** * src/agent/types.ts and src/agent/investigator.ts: decisions          *)
(* ===================================================================== *)

Module Investigator.

Local Open Scope eff_scope.

Section WithHost.

Context {host : JsonHost}.

Inductive AgentDecision :=
| tool_call (name : jsstring) (arguments : Value)
| delegate (agent task : jsstring)
| done (result : jsstring)
| thinking (content : jsstring)
| invalid_tool_call (content : jsstring) (detectedToolName : option jsstring)
| requires_self_check (content : jsstring)
| hallucination_detected (content cleanedContent : jsstring).

Record ToolCall := mkToolCall {
  tc_name : jsstring;
  tc_arguments : Value
}.

Definition is_tool_call (d : AgentDecision) : bool :=
  match d with tool_call _ _ => true | _ => false end.

(** HALLUCINATION_PATTERNS *)
Definition HALLUCINATION_PATTERNS : list Regex.regex :=
  [ (* /<\/user>/ *)
    Regex.str "</user>";
    (* /工具\s*\x22[^\x22]+\x22\s*执行(成功|失败)/ *)
    Regex.seq [Regex.str "工具"; Regex.Star Regex.space;
               Regex.Chr (Regex.one quote); Regex.Plus (Regex.except quote);
               Regex.Chr (Regex.one quote); Regex.Star Regex.space;
               Regex.str "执行";
               Regex.Group (Regex.Alt (Regex.str "成功") (Regex.str "失败"))];
    (* /Tool\s*\x22[^\x22]+\x22\s*(executed|completed|failed)/i *)
    Regex.seq [Regex.str_ci "Tool"; Regex.Star Regex.space;
               Regex.Chr (Regex.one quote); Regex.Plus (Regex.except quote);
               Regex.Chr (Regex.one quote); Regex.Star Regex.space;
               Regex.Group (Regex.alt [Regex.str_ci "executed";
                                       Regex.str_ci "completed";
                                       Regex.str_ci "failed"])];
    (* /^File:\s+[^\n]+\nLines:\s+\d+-\d+/m *)
    Regex.seq [Regex.Bol; Regex.str "File:"; Regex.Plus Regex.space;
               Regex.Plus (Regex.except LF); Regex.Chr (Regex.one LF);
               Regex.str "Lines:"; Regex.Plus Regex.space;
               Regex.Plus Regex.digit; Regex.str "-"; Regex.Plus Regex.digit] ].

(** The pair [{ cleaned, hasHallucination }]. *)
Definition cleanHallucinatedContent (content : jsstring) : jsstring * bool :=
  let patterns := HALLUCINATION_PATTERNS in
  let hasHallucination := existsb (fun p => Regex.test p content) patterns in
  if negb hasHallucination then (content, false)
  else
    (* Find the position of first hallucination marker *)
    let cleanEndIndex :=
      fold_left
        (fun cleanEndIndex pattern =>
           match Regex.exec pattern content with
           | Some m =>
             if (Regex.index m <? cleanEndIndex)%nat then Regex.index m
             else cleanEndIndex
           | None => cleanEndIndex
           end)
        patterns (length content) in
    let cleaned := trim (slice content 0 (Z.of_nat cleanEndIndex)) in
    (cleaned, true).

Definition curly : jschar := chr "{".
Definition uncurly : jschar := chr "}".

(** [$n] of a replacement string. *)
Definition grp (n : nat) (m : Regex.rmatch) : jsstring := nth n (Regex.groups m) [].

Definition tryFixJson (malformed : jsstring) : option Value :=
  let fixed := malformed in
  (* .replace(/'/g, '\x22') *)
  let fixed := Regex.replace true (Regex.str "'") (fun _ => [quote]) fixed in
  (* .replace(/,\s*([}\]])/g, '$1') *)
  let fixed :=
    Regex.replace true
      (Regex.seq [Regex.str ","; Regex.Star Regex.space;
                  Regex.Group (Regex.Chr (fun c => Regex.one uncurly c
                                                   || Regex.one (chr "]") c))])
      (grp 0) fixed in
  (* .replace(/(\{|,)\s*(\w+)\s*:/g, '$1\x22$2\x22:') *)
  let fixed :=
    Regex.replace true
      (Regex.seq [Regex.Group (Regex.Alt (Regex.Chr (Regex.one curly))
                                         (Regex.str ","));
                  Regex.Star Regex.space; Regex.Group (Regex.Plus Regex.word);
                  Regex.Star Regex.space; Regex.str ":"])
      (fun m => grp 0 m ++ [quote] ++ grp 1 m ++ [quote] ++ lit ":") fixed in
  (* .replace(/：/g, ':') *)
  let fixed := Regex.replace true (Regex.str "：") (fun _ => lit ":") fixed in
  (* .replace(/\}[\s\S]*$/, '}') *)
  let fixed :=
    Regex.replace false
      (Regex.seq [Regex.Chr (Regex.one uncurly); Regex.Star Regex.any; Regex.Eoi])
      (fun _ => [uncurly]) fixed in
  match JSON_parse fixed with
  | Some v => Some v
  | None =>
    (* fixed.match(/\{[\s\S]*\}/) *)
    match Regex.exec (Regex.seq [Regex.Chr (Regex.one curly); Regex.Star Regex.any;
                                 Regex.Chr (Regex.one uncurly)]) fixed with
    | Some jsonMatch => JSON_parse (Regex.matched jsonMatch)
    | None => None
    end
  end.

Definition json_object_greedy : Regex.regex :=
  Regex.Group (Regex.seq [Regex.Chr (Regex.one curly); Regex.Star Regex.any;
                          Regex.Chr (Regex.one uncurly)]).

Definition colon_class : jschar -> bool :=
  fun c => Regex.one (chr "：") c || Regex.one (chr ":") c.

Definition rescue_patterns : list Regex.regex :=
  [ (* /我将使用\s*(\w+)\s*工具[：:]\s*(\{[\s\S]*\})/ *)
    Regex.seq [Regex.str "我将使用"; Regex.Star Regex.space;
               Regex.Group (Regex.Plus Regex.word); Regex.Star Regex.space;
               Regex.str "工具"; Regex.Chr colon_class; Regex.Star Regex.space;
               json_object_greedy];
    (* /I(?:'ll| will) use (?:the )?(\w+) tool[：:]?\s*(\{[\s\S]*\})/i *)
    Regex.seq [Regex.str_ci "I";
               Regex.Alt (Regex.str_ci "'ll") (Regex.str_ci " will");
               Regex.str_ci " use "; Regex.Opt (Regex.str_ci "the ");
               Regex.Group (Regex.Plus Regex.word); Regex.str_ci " tool";
               Regex.Opt (Regex.Chr colon_class); Regex.Star Regex.space;
               json_object_greedy];
    (* /(\w+).*```(?:json)?\s*(\{[\s\S]*?\})\s*```/ *)
    Regex.seq [Regex.Group (Regex.Plus Regex.word); Regex.Star Regex.dot;
               Regex.str "```"; Regex.Opt (Regex.str "json");
               Regex.Star Regex.space;
               Regex.Group (Regex.seq [Regex.Chr (Regex.one curly);
                                       Regex.StarLazy Regex.any;
                                       Regex.Chr (Regex.one uncurly)]);
               Regex.Star Regex.space; Regex.str "```"] ].

Fixpoint rescue_loop (patterns : list Regex.regex) (content : jsstring)
  : option ToolCall :=
  match patterns with
  | [] => None
  | pattern :: more =>
    match Regex.exec pattern content with
    | Some m =>
      let toolName := grp 0 m in
      let argsStr := grp 1 m in
      match tryFixJson argsStr with
      | Some fixedJson =>
        if to_boolean fixedJson then Some (mkToolCall toolName fixedJson)
        else rescue_loop more content
      | None => rescue_loop more content
      end
    | None => rescue_loop more content
    end
  end.

Definition rescueToolCallFromContent (content : jsstring) : option ToolCall :=
  rescue_loop rescue_patterns content.

Definition textToolCallPatterns : list Regex.regex :=
  [ (* /我将使用\s*(\w+)\s*工具/ *)
    Regex.seq [Regex.str "我将使用"; Regex.Star Regex.space;
               Regex.Group (Regex.Plus Regex.word); Regex.Star Regex.space;
               Regex.str "工具"];
    (* /I(?:'ll| will) use (?:the )?(\w+) tool/i *)
    Regex.seq [Regex.str_ci "I";
               Regex.Alt (Regex.str_ci "'ll") (Regex.str_ci " will");
               Regex.str_ci " use "; Regex.Opt (Regex.str_ci "the ");
               Regex.Group (Regex.Plus Regex.word); Regex.str_ci " tool"];
    (* /使用\s*(\w+)\s*工具/ *)
    Regex.seq [Regex.str "使用"; Regex.Star Regex.space;
               Regex.Group (Regex.Plus Regex.word); Regex.Star Regex.space;
               Regex.str "工具"] ].

Definition zh_verbs : Regex.regex :=
  Regex.Group (Regex.alt [Regex.str "查看"; Regex.str "检查"; Regex.str "搜索";
                          Regex.str "查找"; Regex.str "读取"; Regex.str "分析"]).

Definition thinkingPatterns : list Regex.regex :=
  [ (* /let me (check|look|search|find|read|examine|analyze)/i *)
    Regex.seq [Regex.str_ci "let me ";
               Regex.Group (Regex.alt (List.map Regex.str_ci
                 ["check"; "look"; "search"; "find"; "read"; "examine";
                  "analyze"]%string))];
    (* /I('ll| will| should| need to) (use|check|look|search|find|read|analyze)/i *)
    Regex.seq [Regex.str_ci "I";
               Regex.Group (Regex.alt (List.map Regex.str_ci
                 ["'ll"; " will"; " should"; " need to"]%string));
               Regex.str_ci " ";
               Regex.Group (Regex.alt (List.map Regex.str_ci
                 ["use"; "check"; "look"; "search"; "find"; "read";
                  "analyze"]%string))];
    (* /需要(查看|检查|搜索|查找|读取|分析)/ *)
    Regex.seq [Regex.str "需要"; zh_verbs];
    (* /让我(查看|检查|搜索|查找|读取|分析)/ *)
    Regex.seq [Regex.str "让我"; zh_verbs];
    (* /我(来|需要|应该)(查看|检查|搜索|查找|读取|分析)/ *)
    Regex.seq [Regex.str "我";
               Regex.Group (Regex.alt [Regex.str "来"; Regex.str "需要";
                                       Regex.str "应该"]);
               zh_verbs] ].

(** The first pattern that matches, with its match. *)
Fixpoint first_match (patterns : list Regex.regex) (content : jsstring)
  : option Regex.rmatch :=
  match patterns with
  | [] => None
  | pattern :: more =>
    match Regex.exec pattern content with
    | Some m => Some m
    | None => first_match more content
    end
  end.

Definition INVESTIGATION_COMPLETE : jsstring := lit "[INVESTIGATION_COMPLETE]".

(** [decisions] is [this.state.decisions]. *)
Definition parseDecision (decisions : list AgentDecision) (content : jsstring)
    (toolCalls : option (list ToolCall)) : AgentDecision :=
  (* Layer 1: Proper tool calls from API *)
  match toolCalls with
  | Some (tc :: _) => tool_call (tc_name tc) (tc_arguments tc)
  | _ =>
    (* Layer 2: Try to rescue tool calls from content text *)
    match rescueToolCallFromContent content with
    | Some rescued => tool_call (tc_name rescued) (tc_arguments rescued)
    | None =>
      (* Layer 3: Detect hallucinated tool results in content *)
      let '(cleanedContent, hasHallucination) := cleanHallucinatedContent content in
      if hasHallucination then hallucination_detected content cleanedContent
      (* Check for investigation complete marker *)
      else if includes content INVESTIGATION_COMPLETE then
        (* decisions.filter(d => d.type === 'tool_call').pop() *)
        let lastToolCall := last (List.filter is_tool_call decisions) in
        match lastToolCall with
        | Some (tool_call n _) =>
          if negb (JS.eqb n (lit "think")) then requires_self_check content
          else done content
        | _ => requires_self_check content
        end
      else
        (* Check for text-based tool call patterns *)
        match first_match textToolCallPatterns content with
        | Some m => invalid_tool_call content (Regex.groups m !! 0%nat)
        | None =>
          (* Check for thinking patterns *)
          let isThinking :=
            existsb (fun p => Regex.test p content) thinkingPatterns in
          if isThinking then thinking content
          (* Default: treat as done *)
          else done content
        end
    end
  end.

(** The agent's configuration (AgentLoopConfig). *)
Record AgentLoopConfig := mkLoopConfig {
  maxIterations : Z;
  stuckThreshold : Z;
  enableThinking : bool;
  thinkingBudget : Z
}.

Definition type_error : Error :=
  MkError HostError (lit "Cannot read properties of undefined (reading 'type')").

(** [isStuck]; reading [first.type] of a missing element throws. *)
Definition isStuck (stuckThreshold : Z) (decisions : list AgentDecision)
  : Result bool :=
  let recentDecisions := slice_from decisions (- stuckThreshold) in
  if Z.of_nat (length recentDecisions) <? stuckThreshold then Ok false
  else
    match recentDecisions with
    | [] => Throw type_error
    | first :: _ =>
      match first with
      | tool_call first_name firstArgs =>
        Ok (forallb
              (fun d =>
                 match d with
                 | tool_call n a =>
                   JS.eqb n first_name
                   && JS.eqb (JSON_stringify a) (JSON_stringify firstArgs)
                 | _ => false
                 end)
              recentDecisions)
      | _ => Ok false
      end
    end.

End WithHost.

End Investigator.

Export Investigator.

(* ===================================================================== *)
(** * Histories of the context manager                                     *)
(* ===================================================================== *)

(** A history is the sequence of calls of public methods made on one
    manager, each with what the environment supplied to it. *)

Module History.

Inductive Op :=
| OpInitSession (query workingDir nano : jsstring) (now : Z)
| OpAddMessage (r : Role) (text : jsstring) (md : option Metadata)
               (nano : jsstring) (now : Z)
| OpCompress
| OpRecall (request_key : RequestKey)
| OpSetSystemPromptTokens (n : Z)
| OpSave
| OpSaveLLMTurn (t : LLMTurn).

Section WithEncoder.

Variable encode : jsstring -> option Z.

(** The manager after the call, whether it returned or threw. *)
Definition step (cm : ContextManager) (op : Op) : ContextManager :=
  match op with
  | OpInitSession q w nano now => state_after (initSession q w nano now) cm
  | OpAddMessage r text md nano now =>
    state_after (addMessage encode r text md nano now) cm
  | OpCompress => state_after (compress encode) cm
  | OpRecall k => state_after (recall k) cm
  | OpSetSystemPromptTokens n => state_after (setSystemPromptTokens n) cm
  | OpSave => state_after save cm
  | OpSaveLLMTurn t => state_after (saveLLMTurn t) cm
  end.

Definition run (ops : list Op) (cm : ContextManager) : ContextManager :=
  fold_left step ops cm.

End WithEncoder.

(** The identifiers that [nanoid(8)] returned to [addMessage]. *)
Definition nanoids (ops : list Op) : list jsstring :=
  omap (fun op => match op with
                  | OpAddMessage _ _ _ nano _ => Some nano
                  | _ => None
                  end) ops.

Definition sum_tokens (ms : list ChatMessage) : Z :=
  fold_right (fun m acc => tokens m + acc) 0 ms.

(** The [protectedRecentMessages] most recent messages. *)
Definition protected_tail (ms : list ChatMessage) : list ChatMessage :=
  drop (length ms - Z.to_nat protectedRecentMessages) ms.

End History.

Export History.

(* ===================================================================== *)
(** * src/agent/investigator.ts: the loop                                  *)
(* ===================================================================== *)

Module Loop.

Local Open Scope eff_scope.

Section WithHost.

Context {host : JsonHost}.

(** [tiktoken], and the system prompt that prompt-builder.ts builds from
    the tools: only its token estimate reaches the state. *)
Variable encode : jsstring -> option Z.
Variable buildInvestigatorPrompt : list Tool -> jsstring.

Record LLMResponse := mkResponse {
  resp_content : jsstring;
  resp_toolCalls : option (list ToolCall);
  resp_usage : option (Z * Z);               (* inputTokens, outputTokens *)
  resp_thinking : option jsstring
}.

Inductive Status := running | completed | failed | stuck.

Record AgentState := mkAgentState {
  iteration : Z;
  decisions : list AgentDecision;
  thinking_log : list jsstring;              (* the field [thinking] *)
  status : Status;
  stuckCount : Z;
  lastToolResults : JsMap.t jsstring
}.

(** What the environment does while one iteration runs. *)
Record Turn := mkTurn {
  llm_complete : Result LLMResponse;         (* [llmClient.complete] *)
  tool_execute : Result ToolResult;          (* [tool.execute], if reached *)
  abort_called : bool                        (* [abort()] is called meanwhile *)
}.

(** The investigator with the objects it holds; [supply] is what
    [nanoid(8)] and [Date.now()] return to the coming [addMessage]s. *)
Record Agent := mkAgent {
  state : AgentState;
  config : AgentLoopConfig;
  aborted : bool;                            (* abortController.signal.aborted *)
  keyFiles : list jsstring;
  contextManager : ContextManager;
  toolRegistry : ToolRegistry;
  supply : list (jsstring * Z);
  totalTokensUsed_var : Z          (* the local [totalTokensUsed] of [investigate] *)
}.

Record IterationResult := mkIterationResult {
  ir_decision : AgentDecision;
  ir_thinking : option jsstring;
  ir_toolResult : option (jsstring * jsstring * bool);   (* name, output, success *)
  tokensUsed : Z
}.

Record InvestigationResult := mkInvestigationResult {
  inv_success : bool;
  findings : jsstring;
  inv_keyFiles : list jsstring;
  inv_messages : list SynthesisMessage;
  iterations : Z;
  totalTokensUsed : Z;
  inv_decisions : list AgentDecision;
  inv_error : option jsstring
}.

Definition new_agent (cm : ContextManager) (reg : ToolRegistry)
    (cfg : AgentLoopConfig) (sup : list (jsstring * Z)) : Agent :=
  mkAgent (mkAgentState 0 [] [] running 0 JsMap.empty) cfg false [] cm reg sup 0.

Definition with_state (f : AgentState -> AgentState) (ag : Agent) : Agent :=
  mkAgent (f (state ag)) (config ag) (aborted ag) (keyFiles ag)
          (contextManager ag) (toolRegistry ag) (supply ag)
          (totalTokensUsed_var ag).
Definition with_manager (cm : ContextManager) (ag : Agent) : Agent :=
  mkAgent (state ag) (config ag) (aborted ag) (keyFiles ag) cm
          (toolRegistry ag) (supply ag) (totalTokensUsed_var ag).
Definition with_keyFiles (ks : list jsstring) (ag : Agent) : Agent :=
  mkAgent (state ag) (config ag) (aborted ag) ks (contextManager ag)
          (toolRegistry ag) (supply ag) (totalTokensUsed_var ag).
Definition with_supply (sup : list (jsstring * Z)) (ag : Agent) : Agent :=
  mkAgent (state ag) (config ag) (aborted ag) (keyFiles ag)
          (contextManager ag) (toolRegistry ag) sup (totalTokensUsed_var ag).
Definition with_total (n : Z) (ag : Agent) : Agent :=
  mkAgent (state ag) (config ag) (aborted ag) (keyFiles ag)
          (contextManager ag) (toolRegistry ag) (supply ag) n.
Definition with_aborted (b : bool) (ag : Agent) : Agent :=
  mkAgent (state ag) (config ag) b (keyFiles ag) (contextManager ag)
          (toolRegistry ag) (supply ag) (totalTokensUsed_var ag).

Definition set_iteration (n : Z) (st : AgentState) : AgentState :=
  mkAgentState n (decisions st) (thinking_log st) (status st) (stuckCount st)
               (lastToolResults st).
Definition set_decisions (ds : list AgentDecision) (st : AgentState) : AgentState :=
  mkAgentState (iteration st) ds (thinking_log st) (status st) (stuckCount st)
               (lastToolResults st).
Definition set_thinking (ts : list jsstring) (st : AgentState) : AgentState :=
  mkAgentState (iteration st) (decisions st) ts (status st) (stuckCount st)
               (lastToolResults st).
Definition set_status (s : Status) (st : AgentState) : AgentState :=
  mkAgentState (iteration st) (decisions st) (thinking_log st) s (stuckCount st)
               (lastToolResults st).
Definition set_lastToolResults (m : JsMap.t jsstring) (st : AgentState) :=
  mkAgentState (iteration st) (decisions st) (thinking_log st) (status st)
               (stuckCount st) m.

(** [abort()] *)
Definition abort (ag : Agent) : Agent := with_aborted true ag.

(** A call of a method of the context manager. *)
Definition in_manager {A} (m : M ContextManager A) : M Agent A :=
  lift contextManager with_manager m.

(** [this.contextManager.addMessage(...)] *)
Definition add_message (r : Role) (text : jsstring) (md : option Metadata)
  : M Agent ChatMessage :=
  let* ag := get in
  let '(nano, now) := hd ([], 0) (supply ag) in
  run* modify (with_supply (tl (supply ag))) in
  in_manager (addMessage encode r text md nano now).

(** prompt-builder.ts *)
Definition buildToolResultPrompt (toolName result : jsstring) (ok : bool) : jsstring :=
  if ok then
    lit "工具 " ++ [quote] ++ toolName ++ [quote] ++ lit " 执行成功:" ++ [LF; LF] ++ result
  else
    lit "工具 " ++ [quote] ++ toolName ++ [quote] ++ lit " 执行失败:" ++ [LF; LF] ++ result.

(** A value computed without the state, or the exception it throws. *)
Definition of_result {S A} (r : Result A) : M S A := fun s => (r, s).

(** The TypeError of reading a property of [null] or [undefined]. *)
Definition cannot_read (what prop : jsstring) : Error :=
  MkError HostError
    (lit "Cannot read properties of " ++ what ++ lit " (reading '" ++ prop
       ++ lit "')").

(** [args.<name>] *)
Definition read_property (args : Value) (name : string) : Result (option Value) :=
  match nullish args with
  | Some what => Throw (cannot_read what (lit name))
  | None => Ok (get_property args (lit name))
  end.

(** [args.<name>], when truthy. *)
Definition truthy_property (args : Value) (name : string) : Result (option Value) :=
  match read_property args name with
  | Ok (Some v) => Ok (if to_boolean v then Some v else None)
  | Ok None => Ok None
  | Throw e => Throw e
  end.

Definition getToolSource (toolName : jsstring) (args : Value)
  : Result (option jsstring) :=
  let search :=
    if JS.eqb toolName (lit "ripgrep") then
      match truthy_property args "pattern" with
      | Ok (Some pat) => Ok (Some (lit "search: " ++ to_String pat))
      | Ok None => Ok None
      | Throw e => Throw e
      end
    else Ok None in
  if JS.eqb toolName (lit "read_file") then
    match truthy_property args "path" with
    | Ok (Some p) => Ok (Some (to_String p))
    | Ok None => search
    | Throw e => Throw e
    end
  else search.

(** /[\w\-./]+\.(ts|js|go|py|java|rs|rb|cpp|c|h|tsx|jsx|vue|svelte)/g *)
Definition file_pattern : Regex.regex :=
  Regex.seq
    [Regex.Plus (fun c => Regex.word c || Regex.one (chr "-") c
                          || Regex.one (chr ".") c || Regex.one (chr "/") c);
     Regex.str ".";
     Regex.Group (Regex.alt (List.map Regex.str
       ["ts"; "js"; "go"; "py"; "java"; "rs"; "rb"; "cpp"; "c"; "h"; "tsx";
        "jsx"; "vue"; "svelte"]%string))].

(** [if (!keyFiles.includes(f)) keyFiles.push(f)] *)
Definition push_new (ks : list jsstring) (f : jsstring) : list jsstring :=
  if arr_includes ks f then ks else ks ++ [f].

(** The key files after [trackKeyFiles], or the TypeError of [args.path],
    which is thrown before anything is pushed. *)
Definition trackKeyFiles (toolName : jsstring) (args : Value) (out : jsstring)
    (ks : list jsstring) : Result (list jsstring) :=
  match (if JS.eqb toolName (lit "read_file") then truthy_property args "path"
         else Ok None) with
  | Throw e => Throw e
  | Ok path =>
    let ks :=
      match path with
      | Some p => push_new ks (to_String p)
      | None => ks
      end in
    let fileMatches := Regex.match_all file_pattern out in
    Ok (fold_left push_new (slice fileMatches 0 10) ks)
  end.

Definition extractFindings (content : jsstring) : jsstring :=
  let marker := INVESTIGATION_COMPLETE in
  match indexOf content marker with
  | Some markerIndex =>
    trim (slice_from content (Z.of_nat (markerIndex + length marker)))
  | None => content
  end.

(** [line.startsWith('-') || line.startsWith('*') || line.match(/^\d+\./)] *)
Definition is_finding_line (line : jsstring) : bool :=
  startsWith line (lit "-") || startsWith line (lit "*")
  || match Regex.run (Regex.seq [Regex.Plus Regex.digit; Regex.str "."])
                     (Regex.MState None line []) with
     | _ :: _ => true
     | [] => false
     end.

Definition gatherPartialFindings (cm : ContextManager) : jsstring :=
  let messages := getMessages cm in
  let findings :=
    flat_map
      (fun message =>
         if bool_decide (role message = assistant) && truthy (content message)
         then List.filter is_finding_line (split_lines (content message))
         else [])
      messages in
  if (0 <? length findings)%nat then join [LF] findings
  else
    (* the last assistant message *)
    match List.find (fun m => bool_decide (role m = assistant)) (rev messages) with
    | Some m => content m
    | None => []
    end.

Definition tool_banner (name : jsstring) : jsstring :=
  lit "调用 " ++ name ++ lit " 工具".

(** [{ key: args.key }] *)
Definition to_request_key (args : Value) : Result RequestKey :=
  match read_property args "key" with
  | Throw e => Throw e
  | Ok None => Ok key_missing
  | Ok (Some v) =>
    match as_string v with
    | Some s => Ok (key_string s)
    | None => Ok (key_other (to_boolean v) (to_String v))
    end
  end.

Definition executeTool (t : Turn) (name : jsstring) (args : Value)
  : M Agent ToolResult :=
  let* ag := get in
  (* Handle special recall_detail tool *)
  if JS.eqb name (lit "recall_detail") then
    let* key := of_result (to_request_key args) in
    let* recallResult := in_manager (recall key) in
    ret (mkToolResult (success recallResult) (recalled recallResult) None
                      (recalled_source recallResult)
                      (Some (recalled_tokens recallResult)))
  else
    match get_tool (toolRegistry ag) name with
    | None =>
      let availableTools := getNames (toolRegistry ag) in
      let errorMessage :=
        lit "未知工具: " ++ [quote] ++ name ++ [quote] ++ lit "。可用工具: "
          ++ join (lit ", ") availableTools ++ lit "。请使用正确的工具名称重试。" in
      ret (mkToolResult false [] (Some errorMessage) None None)
    | Some _ =>
      match session (contextManager ag) with
      | None =>                            (* session.workingDir of null *)
        throw (cannot_read (lit "null") (lit "workingDir"))
      | Some _ =>
        match tool_execute t with
        | Ok result =>
          run* modify (with_state (fun st =>
                 set_lastToolResults
                   (JsMap.set (lastToolResults st) name (output result)) st)) in
          ret result
        | Throw e => ret (mkToolResult false [] (Some (message e)) None None)
        end
      end
    end.

Definition MSG_invalid_tool_call : jsstring :=
  lit "请使用 function calling API 调用工具。如果信息已收集完成，请输出 " ++ [quote]
    ++ lit "[INVESTIGATION_COMPLETE]" ++ [quote] ++ lit " 并列出发现。".

Definition MSG_thinking : jsstring :=
  lit "请通过 function call 调用工具继续调查。如果信息已收集完成，请输出 " ++ [quote]
    ++ lit "[INVESTIGATION_COMPLETE]" ++ [quote] ++ lit " 并列出发现。".

Definition MSG_self_check : jsstring :=
  lit "⚠️ **必须先完成自检才能结束调查**"
  ++ [LF] ++ []
  ++ [LF] ++ lit "你输出了 [INVESTIGATION_COMPLETE]，但在此之前没有使用 think 工具进行自检。"
  ++ [LF] ++ []
  ++ [LF] ++ lit "请立即使用 think 工具完成自检清单："
  ++ [LF] ++ lit "1. 用户问题回答情况"
  ++ [LF] ++ lit "2. 文件读取记录（区分 read_file vs ripgrep）"
  ++ [LF] ++ lit "3. 调用链验证（每个环节的证据来源）"
  ++ [LF] ++ lit "4. 缺失的环节"
  ++ [LF] ++ lit "5. 结论"
  ++ [LF] ++ []
  ++ [LF] ++ lit "只有自检通过后，才能再次输出 [INVESTIGATION_COMPLETE]。".

Definition MSG_hallucination : jsstring :=
  lit "⚠️ **检测到幻觉内容**"
  ++ [LF] ++ []
  ++ [LF] ++ lit "你的回复中包含了虚假的工具执行结果。你不能在文本中" ++ [quote]
  ++ lit "想象" ++ [quote] ++ lit "工具的执行结果！"
  ++ [LF] ++ []
  ++ [LF] ++ lit "**重要规则**："
  ++ [LF] ++ lit "1. 必须通过 function calling API 调用工具"
  ++ [LF] ++ lit "2. 只有工具真正执行后返回的结果才是有效的"
  ++ [LF] ++ lit "3. 不要在回复中编造 " ++ [quote] ++ lit "工具执行成功" ++ [quote]
  ++ lit " 或文件内容"
  ++ [LF] ++ []
  ++ [LF] ++ lit "请使用正确的 function call 格式调用工具继续调查。".

Definition MSG_stuck (stuckThreshold : Z) (stuckInfo : jsstring) : jsstring :=
  lit "⚠️ **检测到循环**: 你已经连续 " ++ String_of_number stuckThreshold
  ++ lit " 次执行相同的操作（" ++ stuckInfo ++ lit "）。"
  ++ [LF] ++ []
  ++ [LF] ++ lit "这通常意味着："
  ++ [LF] ++ lit "1. 该文件可能不存在或路径错误"
  ++ [LF] ++ lit "2. 你可能需要尝试不同的搜索策略"
  ++ [LF] ++ lit "3. 你可能需要换一个方向继续调查"
  ++ [LF] ++ []
  ++ [LF] ++ lit "请调整你的策略，尝试不同的方法。".

Definition not_compressible : option Metadata :=
  Some (mkMetadata None None (Some false)).

(** The debug record of the turn. *)
Definition turn_record (ag : Agent) (systemPrompt : jsstring)
    (response : LLMResponse) : LLMTurn :=
  mkLLMTurn (Some investigator) (iteration (state ag)) systemPrompt
            (resp_content response) (resp_thinking response).

Definition runIteration (t : Turn) : M Agent IterationResult :=
  let* ag := get in
  let tools := getAll (toolRegistry ag) in
  let systemPrompt := buildInvestigatorPrompt tools in
  run* in_manager (setSystemPromptTokens
                     (Tokens.estimateTokens encode systemPrompt)) in
  let* ag := get in
  (* Get LLM response *)
  match llm_complete t with
  | Throw e => throw e
  | Ok response =>
    let tokensUsed :=
      match resp_usage response with
      | Some (i, o) => i + o
      | None => 0
      end in
    (* Parse decision from response *)
    let decision :=
      parseDecision (decisions (state ag)) (resp_content response)
                    (resp_toolCalls response) in
    run* modify (with_state (fun st => set_decisions (decisions st ++ [decision]) st)) in
    (* Handle thinking *)
    run* (match resp_thinking response with
          | Some th =>
            if truthy th
            then modify (with_state (fun st => set_thinking (thinking_log st ++ [th]) st))
            else ret tt
          | None => ret tt
          end) in
    (* Execute decision *)
    let* toolResult :=
      match decision with
      | tool_call name args =>
        let* result := executeTool t name args in
        (* Track key files from tool results *)
        let* ag := get in
        let* tracked :=
          of_result (trackKeyFiles name args (output result) (keyFiles ag)) in
        run* modify (with_keyFiles tracked) in
        (* Clean any hallucinated content before saving *)
        let rawContent :=
          if truthy (resp_content response) then resp_content response
          else tool_banner name in
        let toolCallDescription := fst (cleanHallucinatedContent rawContent) in
        run* add_message assistant
               (if truthy toolCallDescription then toolCallDescription
                else tool_banner name) None in
        (* Add tool result as user message *)
        let* source := of_result (getToolSource name args) in
        run* add_message user
               (buildToolResultPrompt name (output result) (tr_success result))
               (Some (mkMetadata (Some name) source (Some true))) in
        let resultHash :=
          name ++ lit ":" ++ JSON_stringify args ++ lit ":"
            ++ slice (output result) 0 100 in
        run* modify (with_state (fun st =>
               set_lastToolResults (JsMap.set (lastToolResults st) name resultHash) st)) in
        ret (Some (name, output result, tr_success result))
      | invalid_tool_call content _ =>
        run* add_message assistant content None in
        run* add_message user MSG_invalid_tool_call None in
        ret None
      | thinking content =>
        run* add_message assistant content None in
        run* add_message user MSG_thinking None in
        ret None
      | requires_self_check content =>
        run* add_message assistant content None in
        run* add_message user MSG_self_check not_compressible in
        ret None
      | hallucination_detected _ cleanedContent =>
        run* (if truthy cleanedContent
              then run* add_message assistant cleanedContent None in ret tt
              else ret tt) in
        run* add_message user MSG_hallucination not_compressible in
        ret None
      | done result =>
        run* add_message assistant result None in
        ret None
      | delegate _ _ => ret None
      end in
    (* Persist LLM turn for debugging *)
    let* ag := get in
    run* try_catch
           (in_manager (saveLLMTurn (turn_record ag systemPrompt response)))
           (fun _ => ret tt) in
    ret (mkIterationResult decision (resp_thinking response) toolResult tokensUsed)
  end.

(** The result of the path after the loop: "return what we have". *)
Definition partial_result : M Agent InvestigationResult :=
  run* modify (with_state (set_status completed)) in
  let* ag := get in
  let partialFindings := gatherPartialFindings (contextManager ag) in
  ret (mkInvestigationResult true partialFindings (keyFiles ag)
         (getMessagesForSynthesis (contextManager ag))
         (iteration (state ag)) (totalTokensUsed_var ag)
         (decisions (state ag)) None).

(** The [while] loop; [fuel] is the number of iterations left before
    [iteration] reaches [maxIterations]. *)
Fixpoint investigate_loop (fuel : nat) (oracle : Z -> Turn)
  : M Agent InvestigationResult :=
  match fuel with
  | O => partial_result
  | S fuel' =>
    let* ag := get in
    if aborted ag then partial_result                           (* break *)
    else
      run* modify (with_state (fun st => set_iteration (iteration st + 1) st)) in
      let* ag := get in
      let t := oracle (iteration (state ag)) in
      (* Run one iteration; [abort()] may be called while it runs *)
      run* (if abort_called t then modify abort else ret tt) in
      let* result := runIteration t in
      run* modify (fun ag => with_total (totalTokensUsed_var ag + tokensUsed result) ag) in
      match ir_decision result with
      | done r =>
        run* modify (with_state (set_status completed)) in
        let findings := extractFindings r in
        let* ag := get in
        ret (mkInvestigationResult true findings (keyFiles ag)
               (getMessagesForSynthesis (contextManager ag))
               (iteration (state ag)) (totalTokensUsed_var ag)
               (decisions (state ag)) None)
      | _ =>
        (* Check for stuck state *)
        let* ag := get in
        let* isStuck :=
          (fun a => (isStuck (stuckThreshold (config ag)) (decisions (state ag)), a)) in
        run* (if isStuck : bool then
                let stuckInfo :=
                  match last (decisions (state ag)) with
                  | Some (tool_call n a) =>
                    lit "工具 " ++ [quote] ++ n ++ [quote] ++ lit "，参数: "
                      ++ JSON_stringify a
                  | _ => lit "相同的操作"
                  end in
                run* add_message user
                       (MSG_stuck (stuckThreshold (config ag)) stuckInfo)
                       not_compressible in
                modify (with_state (fun st =>
                  set_decisions
                    (slice (decisions st) 0 (- stuckThreshold (config ag))) st))
              else ret tt) in
        investigate_loop fuel' oracle
      end
  end.

Definition no_session_error : Error :=
  MkError AgentError (lit "No active session").

Definition investigate (oracle : Z -> Turn) (query : jsstring)
  : M Agent InvestigationResult :=
  let* ag := get in
  match session (contextManager ag) with
  | None => throw no_session_error
  | Some _ =>
    run* modify (with_total 0) in
    (* Add initial user query to messages *)
    run* add_message user query not_compressible in
    let* ag := get in
    let fuel := Z.to_nat (maxIterations (config ag) - iteration (state ag)) in
    try_catch
      (investigate_loop fuel oracle)
      (fun error =>
         let* ag := get in
         ret (mkInvestigationResult false [] (keyFiles ag) []
                (iteration (state ag)) (totalTokensUsed_var ag)
                (decisions (state ag)) (Some (message error))))
  end.

End WithHost.

End Loop.

(* ===================================================================== *)
(** * src/agent/orchestrator.ts                                            *)
(* ===================================================================== *)

Module Orchestrator.

Import Loop.
Local Open Scope eff_scope.

Section WithHost.

Context {host : JsonHost}.
Variable encode : jsstring -> option Z.
Variable buildInvestigatorPrompt : list Tool -> jsstring.

Record OrchestratorConfig := mkOrchestratorConfig {
  maxInvestigationIterations : Z;
  o_enableThinking : bool;
  o_thinkingBudget : Z
}.

Definition DEFAULT_ORCHESTRATOR_CONFIG : OrchestratorConfig :=
  mkOrchestratorConfig 20 false 32768.

Record SynthesisResult := mkSynthesisResult {
  syn_success : bool;
  report : jsstring;
  syn_tokensUsed : Z;
  syn_error : option jsstring
}.

Record AgentRunResult := mkRunResult {
  run_success : bool;
  result : jsstring;
  run_iterations : Z;
  run_totalTokensUsed : Z;
  run_decisions : list AgentDecision;
  run_error : option jsstring
}.

(** The orchestrator with the objects it was constructed on. *)
Record Orchestrator := mkOrchestrator {
  o_config : OrchestratorConfig;
  o_aborted : bool;
  o_manager : ContextManager;
  o_registry : ToolRegistry;
  o_supply : list (jsstring * Z)
}.

(** [abort()] *)
Definition o_abort (o : Orchestrator) : Orchestrator :=
  mkOrchestrator (o_config o) true (o_manager o) (o_registry o) (o_supply o).

(** What the environment does during one run: the turns of the model and
    the tools, what the synthesizer returns (it catches what it raises)
    and leaves of the manager, and whether [abort()] is called on the
    orchestrator during each phase. *)
Record RunEnv := mkRunEnv {
  turns : Z -> Turn;
  abort_in_investigation : bool;
  synthesize : jsstring -> list SynthesisMessage -> list jsstring ->
               ContextManager -> SynthesisResult * ContextManager;
  abort_in_synthesis : bool
}.

(** Nothing outside [run] holds the investigator, so nothing calls its
    [abort()]. *)
Definition unreachable_abort (t : Turn) : Turn :=
  mkTurn (llm_complete t) (tool_execute t) false.

Definition investigator_config (o : Orchestrator) : AgentLoopConfig :=
  mkLoopConfig (maxInvestigationIterations (o_config o)) 3
               (o_enableThinking (o_config o)) (o_thinkingBudget (o_config o)).

(** The investigation phase: the investigator is built on the manager
    and the registry of the orchestrator, which sees what it did to them. *)
Definition investigation_phase (env : RunEnv) (query : jsstring)
  : M Orchestrator InvestigationResult :=
  fun o =>
    let investigator :=
      new_agent (o_manager o) (o_registry o) (investigator_config o) (o_supply o) in
    let '(r, ag) :=
      investigate encode buildInvestigatorPrompt
                  (fun n => unreachable_abort (turns env n)) query investigator in
    (r, mkOrchestrator (o_config o)
          (o_aborted o || abort_in_investigation env)
          (contextManager ag) (o_registry o) (supply ag)).

Definition synthesis_phase (env : RunEnv) (query : jsstring)
    (inv : InvestigationResult) : M Orchestrator SynthesisResult :=
  fun o =>
    let '(r, cm) :=
      synthesize env query (inv_messages inv) (inv_keyFiles inv) (o_manager o) in
    (Ok r, mkOrchestrator (o_config o) (o_aborted o || abort_in_synthesis env)
             cm (o_registry o) (o_supply o)).

Definition run (env : RunEnv) (query : jsstring) : M Orchestrator AgentRunResult :=
  try_catch
    ((* Phase 1: Investigation *)
     let* investigationResult := investigation_phase env query in
     let totalTokensUsed := 0 + totalTokensUsed investigationResult in
     let totalIterations := 0 + iterations investigationResult in
     if negb (inv_success investigationResult) then
       ret (mkRunResult false [] totalIterations totalTokensUsed
                        (inv_decisions investigationResult)
                        (inv_error investigationResult))
     else
       let* o := get in
       if o_aborted o then
         ret (mkRunResult false [] totalIterations totalTokensUsed
                          (inv_decisions investigationResult)
                          (Some (lit "Aborted")))
       else
         (* Phase 2: Synthesis *)
         let* synthesisResult := synthesis_phase env query investigationResult in
         let totalTokensUsed := totalTokensUsed + syn_tokensUsed synthesisResult in
         let totalIterations := totalIterations + 1 in
         if negb (syn_success synthesisResult) then
           (* Fallback: return raw findings if synthesis fails *)
           ret (mkRunResult true (findings investigationResult) totalIterations
                            totalTokensUsed (inv_decisions investigationResult) None)
         else
           ret (mkRunResult true (report synthesisResult) totalIterations
                            totalTokensUsed (inv_decisions investigationResult) None))
    (fun error =>
       (* thrown by [investigate], before any total was added *)
       ret (mkRunResult false [] 0 0 [] (Some (message error)))).

End WithHost.

End Orchestrator.

(* ===================================================================== *)
(** * src/agent/synthesizer.ts                                             *)
(* ===================================================================== *)

Module Synthesizer.

Import Loop Orchestrator.
Local Open Scope eff_scope.

(** /^[\s\S]*?(##?\s+.+)/m *)
Definition header_pattern : Regex.regex :=
  Regex.seq
    [Regex.Bol; Regex.StarLazy Regex.any;
     Regex.Group (Regex.seq [Regex.Chr (Regex.one (chr "#"));
                             Regex.Opt (Regex.Chr (Regex.one (chr "#")));
                             Regex.Plus Regex.space; Regex.Plus Regex.dot])].

Definition default_header : jsstring := lit "## 分析结果" ++ [LF; LF].

(** [ensureProperFormat] *)
Definition ensureProperFormat (content : jsstring) : jsstring :=
  (* Check if content already starts with a header *)
  let trimmed := trim content in
  if startsWith trimmed (lit "#") then trimmed
  else
    (* Try to find the first header and remove everything before it *)
    match Regex.exec header_pattern trimmed with
    | Some headerMatch =>
      match indexOf trimmed (grp 0 headerMatch) with
      | Some headerIndex =>
        if (0 <? headerIndex)%nat then slice_from trimmed (Z.of_nat headerIndex)
        else default_header ++ trimmed
      | None => default_header ++ trimmed
      end
    (* If no header found, add a default one *)
    | None => default_header ++ trimmed
    end.

Section WithHost.

Context {host : JsonHost}.

(** SYNTHESIZER_PROMPT of prompt-builder.ts: given to the model and
    written to the turn files, read by nothing here. *)
Variable buildSynthesizerPrompt : jsstring.

Record SynthesizerConfig := mkSynthesizerConfig {
  s_enableThinking : bool;
  s_thinkingBudget : Z;
  maxRecallIterations : Z
}.

(** The constructor's defaults. *)
Definition new_config (enableThinking : option bool)
    (thinkingBudget maxRecall : option Z) : SynthesizerConfig :=
  mkSynthesizerConfig (default false enableThinking)
                      (default 16384 thinkingBudget) (default 3 maxRecall).

(** What the agent hands to [eventEmitter.emit]; the time stamps and
    durations of the events come from [Date.now]. *)
Inductive SynthesisEvent :=
| synthesis_start
| synthesis_complete (tokensUsed : Z)
| synthesis_error (error : jsstring).

(** The agent, with the locals of [synthesize] that its [catch] block
    and its loop read. *)
Record SynthesizerAgent := mkSynthesizer {
  s_config : SynthesizerConfig;
  turnNumber : Z;
  s_manager : ContextManager;
  emitted : list SynthesisEvent;
  s_messages : list (Role * jsstring);       (* the local [messages] *)
  s_total : Z                                (* the local [totalTokensUsed] *)
}.

Definition new_synthesizer (cm : ContextManager) (cfg : SynthesizerConfig)
  : SynthesizerAgent :=
  mkSynthesizer cfg 0 cm [] [] 0.

Definition s_with_manager (cm : ContextManager) (ag : SynthesizerAgent) :=
  mkSynthesizer (s_config ag) (turnNumber ag) cm (emitted ag) (s_messages ag)
                (s_total ag).
Definition s_with_turn (n : Z) (ag : SynthesizerAgent) :=
  mkSynthesizer (s_config ag) n (s_manager ag) (emitted ag) (s_messages ag)
                (s_total ag).
Definition s_emit (ev : SynthesisEvent) (ag : SynthesizerAgent) :=
  mkSynthesizer (s_config ag) (turnNumber ag) (s_manager ag) (emitted ag ++ [ev])
                (s_messages ag) (s_total ag).
Definition s_with_messages (ms : list (Role * jsstring)) (ag : SynthesizerAgent) :=
  mkSynthesizer (s_config ag) (turnNumber ag) (s_manager ag) (emitted ag) ms
                (s_total ag).
Definition s_with_total (n : Z) (ag : SynthesizerAgent) :=
  mkSynthesizer (s_config ag) (turnNumber ag) (s_manager ag) (emitted ag)
                (s_messages ag) n.

Definition s_in_manager {A} (m : M ContextManager A) : M SynthesizerAgent A :=
  lift s_manager s_with_manager m.

(** The text about the key files in the final instruction. *)
Definition keyFilesInfo (keyFiles : option (list jsstring)) : jsstring :=
  match keyFiles with
  | Some ks =>
    if (0 <? length ks)%nat then
      [LF; LF] ++ lit "关键文件: " ++ join (lit ", ") (slice ks 0 20)
        ++ (if (20 <? length ks)%nat
            then lit " 等" ++ String_of_number (Z.of_nat (length ks)) ++ lit "个文件"
            else [])
    else []
  | None => []
  end.

Definition final_instruction (keyFiles : option (list jsstring)) : jsstring :=
  lit "---" ++ [LF; LF] ++ lit "以上是调查过程中收集的信息。" ++ keyFilesInfo keyFiles
    ++ [LF; LF]
    ++ lit "请根据这些信息，生成一份结构良好的报告来回答用户问题。直接以标题开始，不要有任何前言。".

Definition initial_messages (originalQuery : jsstring)
    (investigationMessages : list SynthesisMessage)
    (keyFiles : option (list jsstring)) : list (Role * jsstring) :=
  [(user, lit "用户问题: " ++ originalQuery)]
    ++ List.map (fun m => (syn_role m, syn_content m)) investigationMessages
    ++ [(user, final_instruction keyFiles)].

Definition max_recall_report : jsstring :=
  lit "## 分析结果" ++ [LF; LF] ++ lit "达到最大召回次数限制，无法生成完整报告。".

(** [saveLLMTurn] of the synthesizer: a failure to save is logged. *)
Definition s_saveLLMTurn (response : LLMResponse) : M SynthesizerAgent unit :=
  let* ag := get in
  let llmTurn :=
    mkLLMTurn (Some synthesizer) (turnNumber ag) buildSynthesizerPrompt
              (resp_content response) (resp_thinking response) in
  try_catch (s_in_manager (saveLLMTurn llmTurn)) (fun _ => ret tt).

(** The [while] loop of [synthesize]; [fuel] is the number of rounds
    left before [iteration] reaches [maxIterations], and [complete n ms]
    is what the [n]-th call of [llmClient.complete] on [ms] does. *)
Fixpoint synthesis_loop (fuel : nat)
    (complete : Z -> list (Role * jsstring) -> Result LLMResponse)
    (iteration : Z) : M SynthesizerAgent SynthesisResult :=
  match fuel with
  | O =>
    (* Max iterations reached *)
    let* ag := get in
    ret (mkSynthesisResult true max_recall_report (s_total ag) None)
  | S fuel' =>
    let iteration := iteration + 1 in
    let* ag := get in
    match complete iteration (s_messages ag) with
    | Throw e => throw e
    | Ok response =>
      let iterationTokens :=
        match resp_usage response with
        | Some (i, o) => i + o
        | None => 0
        end in
      run* modify (fun ag => s_with_total (s_total ag + iterationTokens) ag) in
      (* Save LLM turn for debugging *)
      run* modify (fun ag => s_with_turn (turnNumber ag + 1) ag) in
      run* s_saveLLMTurn response in
      let final : M SynthesizerAgent SynthesisResult :=
        (* No tool call or unknown tool - treat as final response *)
        let report := ensureProperFormat (resp_content response) in
        let* ag := get in
        run* modify (s_emit (synthesis_complete (s_total ag))) in
        ret (mkSynthesisResult true report (s_total ag) None) in
      match resp_toolCalls response with
      | Some (toolCall :: _) =>
        if JS.eqb (tc_name toolCall) (lit "recall_detail") then
          (* Execute recall *)
          let* key := of_result (to_request_key (tc_arguments toolCall)) in
          let* recallResult := s_in_manager (recall key) in
          (* Add assistant message and tool result *)
          let described :=
            if truthy (resp_content response) then resp_content response
            else lit "调用 recall_detail(key=" ++ [quote] ++ key_text key
                   ++ [quote] ++ lit ")" in
          run* modify (fun ag =>
                 s_with_messages
                   (s_messages ag
                      ++ [(assistant, described);
                          (user, buildToolResultPrompt (lit "recall_detail")
                                   (recalled recallResult) (success recallResult))])
                   ag) in
          (* Continue to next iteration *)
          synthesis_loop fuel' complete iteration
        else final
      | _ => final
      end
    end
  end.

Definition synthesize
    (complete : Z -> list (Role * jsstring) -> Result LLMResponse)
    (originalQuery : jsstring) (investigationMessages : list SynthesisMessage)
    (keyFiles : option (list jsstring)) : M SynthesizerAgent SynthesisResult :=
  run* modify (s_with_total 0) in
  (* Emit synthesis start event *)
  run* modify (s_emit synthesis_start) in
  try_catch
    ((* Check if messages contain compressed content *)
     let hasCompressedContent := existsb syn_compressed investigationMessages in
     run* modify (s_with_messages
                    (initial_messages originalQuery investigationMessages keyFiles)) in
     (* Iterative loop to handle potential recall_detail calls *)
     let* ag := get in
     let maxIterations :=
       if hasCompressedContent then maxRecallIterations (s_config ag) else 1 in
     synthesis_loop (Z.to_nat maxIterations) complete 0)
    (fun error =>
       run* modify (s_emit (synthesis_error (message error))) in
       let* ag := get in
       ret (mkSynthesisResult false [] (s_total ag) (Some (message error)))).

End WithHost.

End Synthesizer.

(* ===================================================================== *)
(** * src/events/emitter.ts                                                *)
(* ===================================================================== *)

Module Emitter.

Section WithEvent.

Variable Event : Type.

(** A handler is a function object, known by its identity.  What a call
    of it does is its own business; [fails h ev] tells whether the call
    [h(ev)] throws.  A handler that calls back into the emitter is not
    described. *)
Definition Handler := nat.

Variable fails : Handler -> Event -> bool.

Record EventEmitter := mkEmitter {
  handlers : list Handler;                   (* a [Set], in insertion order *)
  eventBuffer : list Event;
  bufferingEnabled : bool;
  calls : list (Handler * Event);            (* the calls of handlers so far *)
  console_errors : list (Handler * Event)    (* what [console.error] was given *)
}.

Definition new_emitter : EventEmitter := mkEmitter [] [] false [] [].

(** [Set.prototype.add] and [Set.prototype.delete] *)
Definition set_add (h : Handler) (hs : list Handler) : list Handler :=
  if existsb (Nat.eqb h) hs then hs else hs ++ [h].
Definition set_delete (h : Handler) (hs : list Handler) : list Handler :=
  List.filter (fun x => negb (Nat.eqb h x)) hs.

Definition subscribe (h : Handler) (em : EventEmitter) : EventEmitter :=
  mkEmitter (set_add h (handlers em)) (eventBuffer em) (bufferingEnabled em)
            (calls em) (console_errors em).

(** The function that [subscribe(h)] returned. *)
Definition unsubscribe (h : Handler) (em : EventEmitter) : EventEmitter :=
  mkEmitter (set_delete h (handlers em)) (eventBuffer em) (bufferingEnabled em)
            (calls em) (console_errors em).

(** [try { handler(event) } catch (error) { console.error(...) }] *)
Definition call_handler (ev : Event) (em : EventEmitter) (h : Handler) : EventEmitter :=
  mkEmitter (handlers em) (eventBuffer em) (bufferingEnabled em)
            (calls em ++ [(h, ev)])
            (if fails h ev then console_errors em ++ [(h, ev)]
             else console_errors em).

Definition emit (ev : Event) (em : EventEmitter) : EventEmitter :=
  let em :=
    if bufferingEnabled em
    then mkEmitter (handlers em) (eventBuffer em ++ [ev]) (bufferingEnabled em)
                   (calls em) (console_errors em)
    else em in
  fold_left (call_handler ev) (handlers em) em.

Definition enableBuffering (em : EventEmitter) : EventEmitter :=
  mkEmitter (handlers em) (eventBuffer em) true (calls em) (console_errors em).

(** The buffered events, and the emitter with its buffer emptied. *)
Definition disableBuffering (em : EventEmitter) : list Event * EventEmitter :=
  (eventBuffer em,
   mkEmitter (handlers em) [] false (calls em) (console_errors em)).

End WithEvent.

End Emitter.

(* ===================================================================== *)
(** * A host for the examples                                              *)
(* ===================================================================== *)

(** JSON values with integral numbers, and the host functions on them. *)

Module ExampleHost.

Local Unset Elimination Schemes.

Inductive json :=
| JNull
| JBool (b : bool)
| JNumber (n : Z)
| JString (s : jsstring)
| JArray (items : list json)
| JObject (fields : list (jsstring * json)).

Local Set Elimination Schemes.

Definition backslash : jschar := 92%N.

Definition hex_digit (n : N) : jschar :=
  if (n <? 10)%N then (48 + n)%N else (87 + n)%N.

Definition escape (c : jschar) : jsstring :=
  if (c =? 34)%N then [backslash; quote]
  else if (c =? 92)%N then [backslash; backslash]
  else if (c =? 8)%N then backslash :: lit "b"
  else if (c =? 9)%N then backslash :: lit "t"
  else if (c =? 10)%N then backslash :: lit "n"
  else if (c =? 12)%N then backslash :: lit "f"
  else if (c =? 13)%N then backslash :: lit "r"
  else if (c <? 32)%N then
    backslash :: lit "u00" ++ [hex_digit (c / 16); hex_digit (c mod 16)]
  else [c].

Definition quoted (s : jsstring) : jsstring :=
  [quote] ++ flat_map escape s ++ [quote].

Fixpoint stringify (v : json) : jsstring :=
  match v with
  | JNull => lit "null"
  | JBool true => lit "true"
  | JBool false => lit "false"
  | JNumber n => String_of_number n
  | JString s => quoted s
  | JArray items => lit "[" ++ join (lit ",") (List.map stringify items) ++ lit "]"
  | JObject fields =>
    lit "{"
      ++ join (lit ",")
           (List.map (fun kv => quoted (fst kv) ++ lit ":" ++ stringify (snd kv))
                     fields)
      ++ lit "}"
  end.

Definition is_json_space (c : jschar) : bool :=
  ((c =? 32) || (c =? 9) || (c =? 10) || (c =? 13))%N.

Fixpoint skip_space (s : jsstring) : jsstring :=
  match s with
  | c :: s' => if is_json_space c then skip_space s' else s
  | [] => []
  end.

Definition hex_value (c : jschar) : option N :=
  if ((48 <=? c) && (c <=? 57))%N then Some (c - 48)%N
  else if ((97 <=? c) && (c <=? 102))%N then Some (c - 87)%N
  else if ((65 <=? c) && (c <=? 70))%N then Some (c - 55)%N
  else None.

(** The rest of a string literal, after its opening quote. *)
Fixpoint parse_string (s : jsstring) (acc : jsstring) : option (jsstring * jsstring) :=
  match s with
  | [] => None
  | c :: s' =>
    if (c =? 34)%N then Some (rev acc, s')
    else if (c <? 32)%N then None
    else if (c =? 92)%N then
      match s' with
      | e :: s'' =>
        if (e =? 117)%N then                             (* \uXXXX *)
          match s'' with
          | a :: b :: c' :: d :: s3 =>
            match hex_value a, hex_value b, hex_value c', hex_value d with
            | Some a, Some b, Some c', Some d =>
              parse_string s3 ((a * 4096 + b * 256 + c' * 16 + d)%N :: acc)
            | _, _, _, _ => None
            end
          | _ => None
          end
        else
          let unescaped :=
            if (e =? 34)%N then Some 34%N
            else if (e =? 92)%N then Some 92%N
            else if (e =? 47)%N then Some 47%N
            else if (e =? 98)%N then Some 8%N
            else if (e =? 102)%N then Some 12%N
            else if (e =? 110)%N then Some 10%N
            else if (e =? 114)%N then Some 13%N
            else if (e =? 116)%N then Some 9%N
            else None in
          match unescaped with
          | Some u => parse_string s'' (u :: acc)
          | None => None
          end
      | [] => None
      end
    else parse_string s' (c :: acc)
  end.

Fixpoint parse_digits (s : jsstring) (acc : Z) : Z * jsstring :=
  match s with
  | c :: s' =>
    if Regex.digit c then parse_digits s' (10 * acc + Z.of_N (c - 48)) else (acc, s)
  | [] => (acc, [])
  end.

(** An integral number; a fraction or an exponent is not accepted. *)
Definition parse_number (s : jsstring) : option (Z * jsstring) :=
  let '(neg, s) :=
    match s with
    | c :: s' => if (c =? 45)%N then (true, s') else (false, s)
    | [] => (false, s)
    end in
  match s with
  | c :: s' =>
    if Regex.digit c then
      if (c =? 48)%N && match s' with d :: _ => Regex.digit d | [] => false end
      then None
      else
        let '(n, r) := parse_digits s 0 in
        match r with
        | d :: _ =>
          if ((d =? 46) || (d =? 101) || (d =? 69))%N then None
          else Some (if neg then - n else n, r)
        | [] => Some (if neg then - n else n, r)
        end
    else None
  | [] => None
  end.

Fixpoint parse_value (fuel : nat) (s : jsstring) : option (json * jsstring) :=
  match fuel with
  | O => None
  | S fuel' =>
    match skip_space s with
    | [] => None
    | c :: r =>
      if (c =? 123)%N then                               (* { *)
        match skip_space r with
        | d :: r' =>
          if (d =? 125)%N then Some (JObject [], r')
          else parse_members fuel' (d :: r') []
        | [] => None
        end
      else if (c =? 91)%N then                           (* [ *)
        match skip_space r with
        | d :: r' =>
          if (d =? 93)%N then Some (JArray [], r')
          else parse_items fuel' (d :: r') []
        | [] => None
        end
      else if (c =? 34)%N then
        match parse_string r [] with
        | Some (str, r') => Some (JString str, r')
        | None => None
        end
      else if startsWith (c :: r) (lit "true") then Some (JBool true, drop 4 (c :: r))
      else if startsWith (c :: r) (lit "false") then Some (JBool false, drop 5 (c :: r))
      else if startsWith (c :: r) (lit "null") then Some (JNull, drop 4 (c :: r))
      else
        match parse_number (c :: r) with
        | Some (n, r') => Some (JNumber n, r')
        | None => None
        end
    end
  end
with parse_members (fuel : nat) (s : jsstring) (acc : list (jsstring * json))
  : option (json * jsstring) :=
  match fuel with
  | O => None
  | S fuel' =>
    match skip_space s with
    | q :: r =>
      if (q =? 34)%N then
        match parse_string r [] with
        | Some (k, r1) =>
          match skip_space r1 with
          | colon :: r2 =>
            if (colon =? 58)%N then
              match parse_value fuel' r2 with
              | Some (v, r3) =>
                let acc := JsMap.set acc k v in
                match skip_space r3 with
                | e :: r4 =>
                  if (e =? 125)%N then Some (JObject acc, r4)
                  else if (e =? 44)%N then parse_members fuel' r4 acc
                  else None
                | [] => None
                end
              | None => None
              end
            else None
          | [] => None
          end
        | None => None
        end
      else None
    | [] => None
    end
  end
with parse_items (fuel : nat) (s : jsstring) (acc : list json)
  : option (json * jsstring) :=
  match fuel with
  | O => None
  | S fuel' =>
    match parse_value fuel' s with
    | Some (v, r) =>
      match skip_space r with
      | e :: r' =>
        if (e =? 93)%N then Some (JArray (acc ++ [v]), r')
        else if (e =? 44)%N then parse_items fuel' r' (acc ++ [v])
        else None
      | [] => None
      end
    | None => None
    end
  end.

Definition parse (s : jsstring) : option json :=
  match parse_value (S (length s)) s with
  | Some (v, r) => match skip_space r with [] => Some v | _ :: _ => None end
  | None => None
  end.

Definition json_truthy (v : json) : bool :=
  match v with
  | JNull => false
  | JBool b => b
  | JNumber n => negb (n =? 0)
  | JString s => truthy s
  | JArray _ | JObject _ => true
  end.

Definition json_property (v : json) (k : jsstring) : option json :=
  match v with
  | JObject fields => JsMap.get fields k
  | _ => None
  end.

Definition json_as_string (v : json) : option jsstring :=
  match v with JString s => Some s | _ => None end.

Fixpoint json_to_String (v : json) : jsstring :=
  match v with
  | JNull => lit "null"
  | JBool true => lit "true"
  | JBool false => lit "false"
  | JNumber n => String_of_number n
  | JString s => s
  | JArray items =>
    join (lit ",")
         (List.map (fun i => match i with JNull => [] | _ => json_to_String i end)
                   items)
  | JObject _ => lit "[object Object]"
  end.

#[global] Instance json_host : JsonHost := {
  Value := json;
  JSON_stringify := stringify;
  JSON_parse := parse;
  to_boolean := json_truthy;
  get_property := json_property;
  as_string := json_as_string;
  to_String := json_to_String;
  nullish := fun v => match v with JNull => Some (lit "null") | _ => None end
}.

(** The fallback of [estimateTokens]: the encoder is not available. *)
Definition no_encoder : jsstring -> option Z := fun _ => None.

Definition ascii_text (s : string) : jsstring := lit s.

End ExampleHost.

(* ===================================================================== *)
(** * Concrete states and inputs                                           *)
(* ===================================================================== *)

Module Scenario.

Import Loop Orchestrator ExampleHost.

Definition storage0 : ContextStorage :=
  mkStorage (lit "/w/.chibi") (lit "/w/.chibi/sessions") false ∅ ∅ ∅ [].

(** A window of 300 tokens without reservations. *)
Definition small_budget : BudgetConfig := mkBudgetConfig 300 0 0 0.

Definition manager0 : ContextManager :=
  new_manager no_encoder storage0 (Some small_budget) None.

(** A file of 1080 code units: 270 tokens by the fallback estimate. *)
Definition file_text : jsstring :=
  List.concat (repeat (lit "function foo() {} ") 60).

Definition read_file_metadata : option Metadata :=
  Some (mkMetadata (Some (lit "read_file")) (Some (lit "a.ts")) (Some true)).

(** A session, a file read into it, and three short messages. *)
Definition history4 : list Op :=
  [ OpInitSession (lit "q") (lit "/w") (lit "SESSION001") 1;
    OpAddMessage user file_text read_file_metadata (lit "k1") 2;
    OpAddMessage assistant (lit "a2") None (lit "k2") 3;
    OpAddMessage user (lit "a3") None (lit "k3") 4;
    OpAddMessage assistant (lit "a4") None (lit "k4") 5 ].

(** The fifth message moves the file out of the protected tail. *)
Definition history5 : list Op :=
  history4 ++ [OpAddMessage user (lit "a5") None (lit "k5") 6].

Definition empty_session : Session :=
  mkSession [] [] 0 [] [] JsMap.empty [] 0 (mkBudgetState 0 0 0 0 0 0).

Definition session_after (ops : list Op) : Session :=
  default empty_session (session (History.run no_encoder ops manager0)).

Definition first_message (s : Session) : ChatMessage :=
  hd (mkChatMessage [] user [] 0 false None 0 None) (messages s).

(** A tool result of ten tokens. *)
Definition short_tool_result : ChatMessage :=
  mkChatMessage (lit "msg_short") user (lit "ok") 10 false None 0
                (Some (mkMetadata (Some (lit "read_file")) None None)).

(** Prose of the assistant that contains a failure marker. *)
Definition failure_prose : ChatMessage :=
  mkChatMessage (lit "msg_prose") assistant (lit "错误: 路径写错了") 6 false None 0
                None.

Definition manager_with (ms : list ChatMessage) : ContextManager :=
  mkManager storage0
    (Some (mkSession (lit "SESSION001") (lit "q") 1 (lit "/w") [] JsMap.empty ms
                     (sum_tokens ms) (mkBudgetState 0 0 0 0 0 0)))
    DEFAULT_BUDGET_CONFIG 0.

Definition read_file_tool : Tool := mkTool (lit "read_file") (lit "Read a file") [].
Definition think_tool : Tool := mkTool (lit "think") (lit "Self check") [].

Definition registry0 : ToolRegistry :=
  registerAll [read_file_tool; think_tool]
              (new_registry (mkRegistryConfig None None)).

(** An empty allowlist. *)
Definition registry_empty_allowlist : ToolRegistry :=
  new_registry (mkRegistryConfig (Some []) None).

Definition read_args (path : jsstring) : json :=
  JObject [(lit "path", JString path)].

Definition think_args : json :=
  JObject [(lit "thought", JString (lit "Self check"))].

Definition same_read : AgentDecision :=
  tool_call (lit "read_file") (read_args (lit "test.go")).

Definition think_call : AgentDecision := tool_call (lit "think") think_args.

Definition complete_text : jsstring :=
  lit "[INVESTIGATION_COMPLETE]" ++ [LF; LF] ++ lit "Done".

Definition prompt0 (_ : list Tool) : jsstring := lit "system prompt".

Definition supply0 : list (jsstring * Z) :=
  List.map (fun n => (lit "id" ++ String_of_number n, n)) (seqZ 1 40).

Definition tool_ok : Result ToolResult :=
  Ok (mkToolResult true (lit "ok") None None None).

(** The model asks for another file in every turn; [abort()] is called
    while the first turn runs. *)
Definition abort_in_first_turn (n : Z) : Turn :=
  mkTurn
    (Ok (mkResponse []
           (Some [mkToolCall (lit "read_file")
                    (read_args (lit "file" ++ String_of_number n ++ lit ".go"))])
           (Some (100, 50)) None))
    tool_ok (n =? 1).

Definition agent0 : Agent :=
  new_agent
    (state_after (initSession (lit "Test query") (lit "/w") (lit "SESSION001") 1)
                 (new_manager no_encoder storage0 None None))
    registry0 (mkLoopConfig 20 3 false 32768) supply0.

End Scenario.

(* ===================================================================== *)
(** * Further states and inputs                                            *)
(* ===================================================================== *)

Module Cases.

Import Loop Orchestrator ExampleHost Scenario.

(** A second tool under the name of [read_file_tool]. *)
Definition read_file_again : Tool :=
  mkTool (lit "read_file") (lit "Read a file, with line numbers") [].

Definition plain_registry : ToolRegistry :=
  new_registry (mkRegistryConfig None None).

(** The manager after [history4], and the call that adds the fifth
    message. *)
Definition manager4 : ContextManager := History.run no_encoder history4 manager0.

Definition fifth_message : ChatMessage :=
  mkChatMessage (lit "msg_k5") user (lit "a5") 1 false None 6 None.

(** A file that was read, followed by four short messages. *)
Definition file_message : ChatMessage :=
  mkChatMessage (lit "msg_file") user file_text 270 false None 2 read_file_metadata.

Definition manager_with_file : ContextManager :=
  manager_with [file_message; failure_prose; short_tool_result; failure_prose;
                short_tool_result].

Definition file_candidate : CompressionROI :=
  hd (mkROI [] 0 0 0 low) (getCompressionCandidates manager_with_file).

(** A turn in which the model asks for a file and the tool returns. *)
Definition read_turn : Turn :=
  mkTurn
    (Ok (mkResponse [] (Some [mkToolCall (lit "read_file") (read_args (lit "a.go"))])
           (Some (100, 50)) None))
    tool_ok false.

(** The model is out of reach. *)
Definition rate_limited : Error := MkError PlainError (lit "429 rate limited").

Definition model_down (_ : Z) : Turn := mkTurn (Throw rate_limited) tool_ok false.

Definition session0 : Session :=
  default empty_session (session (contextManager agent0)).

End Cases.

(* ===================================================================== *)
(** * Facts about the context manager                                      *)
(* ===================================================================== *)

Module ManagerFacts.
Local Open Scope eff_scope.

(** ** Arrays *)

Lemma slice_protected {A} (l : list A) :
  slice l 0 (- protectedRecentMessages)
  = take (length l - Z.to_nat protectedRecentMessages) l.
Proof.
  unfold slice, rel_index, protectedRecentMessages. simpl (_ <? _).
  replace (0 `min` Z.of_nat (length l)) with 0 by lia. simpl.
  f_equal. lia.
Qed.

Lemma slice_last {A} (l : list A) (t : Z) :
  0 < t -> slice_from l (- t) = drop (length l - Z.to_nat t) l.
Proof.
  intros Ht. unfold slice_from, slice, rel_index.
  destruct (Z.ltb_spec (- t) 0); [|lia].
  destruct (Z.ltb_spec (Z.of_nat (length l)) 0); [lia|].
  rewrite Z.min_id.
  replace (Z.to_nat (Z.max (Z.of_nat (length l) + - t) 0))
    with (length l - Z.to_nat t)%nat by lia.
  apply take_ge. rewrite length_drop. lia.
Qed.

Lemma In_take {A} (x : A) n l : In x (take n l) -> In x l.
Proof.
  rewrite <- !list_elem_of_In. intros H. by apply (subseteq_take n l).
Qed.

Lemma In_drop {A} (x : A) n l : In x (drop n l) -> In x l.
Proof.
  rewrite <- !list_elem_of_In. intros H. by apply (subseteq_drop n l).
Qed.

Lemma sum_tokens_app a b : sum_tokens (a ++ b) = sum_tokens a + sum_tokens b.
Proof. induction a; simpl; lia. Qed.

Lemma sum_tokens_take_drop j ms :
  sum_tokens ms = sum_tokens (take j ms) + sum_tokens (drop j ms).
Proof. rewrite <- sum_tokens_app, take_drop. reflexivity. Qed.

Lemma eqb_true a b : JS.eqb a b = true <-> a = b.
Proof. unfold JS.eqb. apply bool_decide_eq_true. Qed.

Lemma eqb_false a b : JS.eqb a b = false <-> a <> b.
Proof. unfold JS.eqb. apply bool_decide_eq_false. Qed.

Lemma key_in_true ks m : key_in ks m = true <-> In (key m) ks.
Proof.
  unfold key_in. rewrite existsb_exists. split.
  - intros (x & Hx & E). apply eqb_true in E. congruence.
  - intros H. exists (key m). split; [done|]. by apply eqb_true.
Qed.

Lemma discard_scan_spec discardable ttf freed td :
  exists j, (j <= length discardable)%nat /\
    discard_scan discardable ttf freed td
    = (freed + sum_tokens (take j discardable),
       td ++ List.map key (take j discardable)).
Proof.
  revert freed td. induction discardable as [|m more IH]; intros freed td; simpl.
  - exists 0%nat. simpl. rewrite app_nil_r, Z.add_0_r. auto.
  - destruct (ttf <=? freed).
    + exists 0%nat. simpl. rewrite app_nil_r, Z.add_0_r. split; [lia|done].
    + destruct (IH (freed + tokens m) (td ++ [key m])) as (j & Hj & ->).
      exists (S j). simpl. split; [lia|]. rewrite <- app_assoc. simpl.
      f_equal. lia.
Qed.

Lemma filter_keys_drop ms j :
  NoDup (List.map key ms) ->
  List.filter (fun m => negb (key_in (List.map key (take j ms)) m)) ms = drop j ms.
Proof.
  revert j. induction ms as [|m ms IH]; intros j Hnd.
  - by destruct j.
  - apply NoDup_cons in Hnd as [Hm Hnd]. destruct j as [|j]; simpl.
    + change (List.filter (fun _ => true) (m :: ms)) with (m :: List.filter (fun _ => true) ms).
      f_equal. clear. induction ms; simpl; congruence.
    + destruct (JS.eqb (key m) (key m)) eqn:E; [|apply eqb_false in E; done].
      simpl. rewrite <- (IH j Hnd).
      apply List.filter_ext_in. intros x Hx.
      destruct (JS.eqb (key x) (key m)) eqn:E2; [|done].
      apply eqb_true in E2. exfalso. apply Hm. rewrite <- E2.
      apply list_elem_of_In. apply in_map. done.
Qed.


Lemma discardOldestMessages_spec ttf s :
  NoDup (List.map key (messages s)) ->
  exists j, (j <= length (messages s) - Z.to_nat protectedRecentMessages)%nat /\
    discardOldestMessages ttf s
    = set_totalTokens (totalTokens s - sum_tokens (take j (messages s)))
        (set_messages (drop j (messages s)) s).
Proof.
  intros Hnd. unfold discardOldestMessages. rewrite slice_protected.
  set (n := (length (messages s) - Z.to_nat protectedRecentMessages)%nat).
  destruct (discard_scan_spec (take n (messages s)) ttf 0 []) as (j & Hj & ->).
  rewrite length_take in Hj.
  exists j. split; [lia|].
  rewrite take_take. replace (j `min` n)%nat with j by lia.
  simpl. rewrite filter_keys_drop by done. reflexivity.
Qed.

(** ** Storage calls *)

(** A storage call that leaves the message files and the paths alone. *)
Definition storage_frame (st st' : ContextStorage) : Prop :=
  paths_sessions st' = paths_sessions st /\ message_files st' = message_files st.

Lemma storage_frame_refl st : storage_frame st st.
Proof. done. Qed.

Lemma storage_frame_trans a b c :
  storage_frame a b -> storage_frame b c -> storage_frame a c.
Proof. intros [? ?] [? ?]. split; congruence. Qed.

(** A computation on the storage that only ever makes such calls. *)
Definition frames {A} (m : M ContextStorage A) : Prop :=
  forall st, exists r st', m st = (r, st') /\ storage_frame st st'.

Lemma frames_ret {A} (a : A) : frames (ret a).
Proof. intros st. by eexists _, _. Qed.

Lemma frames_throw {A} e : frames (@throw _ A e).
Proof. intros st. by eexists _, _. Qed.

Lemma frames_get : frames get.
Proof. intros st. by eexists _, _. Qed.

Lemma frames_modify f :
  (forall st, storage_frame st (f st)) -> frames (modify f).
Proof. intros H st. eexists _, _. split; [reflexivity|apply H]. Qed.

Lemma frames_bind {A B} (m : M ContextStorage A) (k : A -> M ContextStorage B) :
  frames m -> (forall a, frames (k a)) -> frames (bind m k).
Proof.
  intros Hm Hk st. unfold bind. destruct (Hm st) as (r & st1 & -> & F1).
  destruct r as [a|e].
  - destruct (Hk a st1) as (r2 & st2 & -> & F2).
    eexists _, _. split; [reflexivity|by eapply storage_frame_trans].
  - by eexists _, _.
Qed.

Lemma frames_try_catch {A} (m : M ContextStorage A) h :
  frames m -> (forall e, frames (h e)) -> frames (try_catch m h).
Proof.
  intros Hm Hh st. unfold try_catch. destruct (Hm st) as (r & st1 & -> & F1).
  destruct r as [a|e].
  - by eexists _, _.
  - destruct (Hh e st1) as (r2 & st2 & -> & F2).
    eexists _, _. split; [reflexivity|by eapply storage_frame_trans].
Qed.

Lemma frames_fs_call : frames fs_call.
Proof.
  intros st. unfold fs_call.
  destruct (fs_faults st) as [|[msg|] f]; by eexists _, _.
Qed.

Ltac frames_tac :=
  repeat first
    [ apply frames_ret | apply frames_throw | apply frames_get
    | apply frames_fs_call
    | apply frames_modify; intros ?; done
    | apply frames_bind; [|intros ?]
    | apply frames_try_catch; [|intros ?] ].

Ltac fs_cases st :=
  unfold fs_call; destruct (fs_faults st) as [|[?|] ?]; simpl.

Lemma saveSession_frame s : frames (saveSession s).
Proof. unfold saveSession. frames_tac. Qed.

Lemma storage_init_frame : frames storage_init.
Proof.
  unfold storage_init. apply frames_bind; [apply frames_get|intros st].
  destruct (initialized st); frames_tac.
Qed.

Lemma storage_saveLLMTurn_frame sid t : frames (storage_saveLLMTurn sid t).
Proof. unfold storage_saveLLMTurn. frames_tac. Qed.

Lemma createSession_effect q w nano now st :
  exists r st', createSession q w nano now st = (r, st') /\ storage_frame st st' /\
    (forall s, r = Ok s -> id s = nano /\ messages s = [] /\ totalTokens s = 0).
Proof.
  unfold createSession. unfold bind at 1.
  destruct (storage_init_frame st) as (r1 & st1 & -> & F1).
  destruct r1 as [[]|e]; [|eexists _, _; split_and!; [reflexivity|done|done]].
  unfold bind at 1, get. unfold bind at 1.
  destruct (frames_fs_call st1) as (r2 & st2 & -> & F2).
  pose proof (storage_frame_trans _ _ _ F1 F2) as G2.
  destruct r2 as [[]|e]; [|eexists _, _; split_and!; [reflexivity|done|done]].
  unfold bind at 1.
  destruct (frames_fs_call st2) as (r3 & st3 & -> & F3).
  pose proof (storage_frame_trans _ _ _ G2 F3) as G3.
  destruct r3 as [[]|e]; [|eexists _, _; split_and!; [reflexivity|done|done]].
  unfold bind at 1.
  destruct (frames_fs_call st3) as (r4 & st4 & -> & F4).
  pose proof (storage_frame_trans _ _ _ G3 F4) as G4.
  destruct r4 as [[]|e]; [|eexists _, _; split_and!; [reflexivity|done|done]].
  unfold bind at 1.
  match goal with |- context [saveSession ?s st4] =>
    destruct (saveSession_frame s st4) as (r5 & st5 & -> & F5) end.
  pose proof (storage_frame_trans _ _ _ G4 F5) as G5.
  destruct r5 as [[]|e]; eexists _, _; (split_and!; [reflexivity|done|]).
  - by intros s [= <-].
  - done.
Qed.

Definition stored_of (m : ChatMessage) : StoredMessage :=
  mkStored (key m) (role m) (content m) (tokens m) (timestamp m) (metadata m).

Lemma saveMessageContent_effect sid m st :
  (exists e st', saveMessageContent sid m st = (Throw e, st') /\ storage_frame st st')
  \/ (exists st', saveMessageContent sid m st = (Ok (message_path st sid (key m)), st')
       /\ paths_sessions st' = paths_sessions st
       /\ message_files st'
          = <[message_path st sid (key m) := stored_of m]> (message_files st)).
Proof.
  unfold saveMessageContent, bind, get, modify, ret.
  fs_cases st.
  - right. eexists. split; [reflexivity|done].
  - left. eexists _, _. split; [reflexivity|done].
  - right. eexists. split; [reflexivity|done].
Qed.

Lemma loadMessageContent_effect sid k st :
  exists r st', loadMessageContent sid k st = (Ok r, st') /\ storage_frame st st' /\
    match message_files st !! message_path st sid k with
    | None => r = None
    | Some data =>
      (r = None /\ exists msg f, fs_faults st = Some msg :: f)
      \/ (r = Some (mkChatMessage (st_key data) (st_role data) (st_content data)
                      (st_tokens data) false None (st_timestamp data)
                      (st_metadata data))
           /\ forall msg f, fs_faults st <> Some msg :: f)
    end.
Proof.
  unfold loadMessageContent, bind, get.
  destruct (message_files st !! message_path st sid k) as [data|].
  - unfold try_catch, bind, ret. fs_cases st; eexists _, _; (split_and!; [reflexivity|done|]).
    + right. done.
    + left. eauto.
    + right. done.
  - eexists _, _. split_and!; [reflexivity|done|done].
Qed.

(** ** The loop of [compress] *)

Lemma update_found_keys k f ms :
  (forall m, key (f m) = key m) ->
  List.map key (update_found k f ms) = List.map key ms.
Proof.
  intros Hf. induction ms as [|m ms IH]; simpl; [done|].
  destruct (JS.eqb (key m) k); simpl; [by rewrite Hf|by rewrite IH].
Qed.

Lemma update_found_tail k f ms n :
  In k (List.map key (take n ms)) ->
  drop n (update_found k f ms) = drop n ms.
Proof.
  revert n. induction ms as [|m ms IH]; intros n Hin.
  - by destruct n.
  - destruct n as [|n]; simpl in *; [done|].
    destruct (JS.eqb (key m) k) eqn:E; simpl; [done|].
    apply IH. destruct Hin as [Hin|Hin]; [|done].
    apply eqb_false in E. done.
Qed.

Lemma update_found_sum k f ms m :
  find (fun x => JS.eqb (key x) k) ms = Some m ->
  sum_tokens (update_found k f ms) = sum_tokens ms - tokens m + tokens (f m).
Proof.
  unfold find. induction ms as [|x ms IH]; simpl; [done|].
  destruct (JS.eqb (key x) k); simpl.
  - intros [= ->]. lia.
  - intros H. rewrite IH by done. lia.
Qed.

Lemma update_found_const k f ms m :
  find (fun x => JS.eqb (key x) k) ms = Some m ->
  update_found k (fun _ => f m) ms = update_found k f ms.
Proof.
  unfold find. induction ms as [|x ms IH]; simpl; [done|].
  destruct (JS.eqb (key x) k); simpl.
  - by intros [= ->].
  - intros H. by rewrite IH.
Qed.

Lemma find_key k ms m :
  find (fun x => JS.eqb (key x) k) ms = Some m -> key m = k /\ In m ms.
Proof.
  unfold find. intros H. apply find_some in H as [H1 H2].
  apply eqb_true in H2. done.
Qed.

Lemma find_NoDup ms m :
  NoDup (List.map key ms) -> In m ms ->
  find (fun x => JS.eqb (key x) (key m)) ms = Some m.
Proof.
  unfold find. induction ms as [|x ms IH]; simpl; [done|].
  intros Hnd Hin. apply NoDup_cons in Hnd as [Hx Hnd].
  destruct (JS.eqb (key x) (key m)) eqn:E.
  - destruct Hin as [->|Hin]; [done|].
    apply eqb_true in E. exfalso. apply Hx. rewrite E.
    apply list_elem_of_In, in_map. done.
  - destruct Hin as [->|Hin]; [|by apply IH].
    apply eqb_false in E. done.
Qed.


Section WithEncoder.

Variable encode : jsstring -> option Z.

(** What [compress] may have done to a message [m0]. *)
Definition compressed_from (m0 m : ChatMessage) : Prop :=
  m = m0 \/ (isCompressible m0 = true /\ m = compress_message encode m0).

Lemma compressed_from_key m0 m : compressed_from m0 m -> key m = key m0.
Proof. intros [->|[_ ->]]; done. Qed.

Lemma compressed_from_keys ms0 ms :
  Forall2 compressed_from ms0 ms -> List.map key ms = List.map key ms0.
Proof.
  induction 1; simpl; [done|]. f_equal; [by apply compressed_from_key|done].
Qed.

Lemma isCompressible_not_compressed m : isCompressible m = true -> compressed m = false.
Proof. unfold isCompressible. destruct (compressed m); done. Qed.

Lemma update_found_compressed_from ms0 ms k m :
  NoDup (List.map key ms0) ->
  Forall2 compressed_from ms0 ms ->
  (exists m1, In m1 ms0 /\ isCompressible m1 = true /\ key m1 = k) ->
  find (fun x => JS.eqb (key x) k) ms = Some m ->
  compressed m = false ->
  Forall2 compressed_from ms0 (update_found k (compress_message encode) ms).
Proof.
  intros Hnd HF. revert Hnd. unfold find.
  induction HF as [|m0 x ms0 ms HR HF IH]; intros Hnd (m1 & Hin & Hc & Hk) Hfind Hcomp;
    simpl in *; [done|].
  apply NoDup_cons in Hnd as [Hm0 Hnd].
  pose proof (compressed_from_key _ _ HR) as Hkey.
  destruct (JS.eqb (key x) k) eqn:E.
  - injection Hfind as ->. apply eqb_true in E.
    constructor; [|done].
    destruct HR as [->|[_ ->]]; [|done].
    right. split; [|done].
    destruct Hin as [->|Hin]; [done|].
    exfalso. apply Hm0. rewrite E, <- Hk. apply list_elem_of_In, in_map. done.
  - constructor; [done|]. apply IH; try done.
    exists m1. split_and!; try done.
    destruct Hin as [->|Hin]; [|done].
    apply eqb_false in E. congruence.
Qed.

Lemma compress_loop_cons c more ttf freed s :
  compress_loop encode (c :: more) ttf freed s
  = if ttf <=? freed then (freed, s)
    else match find (fun m => JS.eqb (key m) (messageKey c)) (messages s) with
         | None => compress_loop encode more ttf freed s
         | Some m =>
           if compressed m then compress_loop encode more ttf freed s
           else
             let d := tokens m - tokens (compress_message encode m) in
             compress_loop encode more ttf (freed + d)
               (set_totalTokens (totalTokens s - d)
                  (set_messages
                     (update_found (key m) (fun _ => compress_message encode m)
                                   (messages s)) s))
         end.
Proof. reflexivity. Qed.

Lemma compress_loop_spec n ms0 cands ttf freed s :
  NoDup (List.map key ms0) ->
  Forall2 compressed_from ms0 (messages s) ->
  (forall c, In c cands ->
     exists m1, In m1 (take n ms0) /\ isCompressible m1 = true
                /\ key m1 = messageKey c) ->
  exists freed' ms' t',
    compress_loop encode cands ttf freed s
    = (freed', set_totalTokens t' (set_messages ms' s)) /\
    Forall2 compressed_from ms0 ms' /\
    drop n ms' = drop n (messages s) /\
    t' - sum_tokens ms' = totalTokens s - sum_tokens (messages s).
Proof.
  intros Hnd. revert freed s.
  induction cands as [|c more IH]; intros freed s HF Hc.
  - exists freed, (messages s), (totalTokens s). by destruct s.
  - rewrite compress_loop_cons. destruct (ttf <=? freed).
    { exists freed, (messages s), (totalTokens s). by destruct s. }
    assert (Hmore : forall c0, In c0 more ->
      exists m1, In m1 (take n ms0) /\ isCompressible m1 = true
                 /\ key m1 = messageKey c0) by (intros; apply Hc; by right).
    destruct (find _ (messages s)) as [m|] eqn:Hfind; [|by apply IH].
    destruct (compressed m) eqn:Hcomp; [by apply IH|].
    destruct (find_key _ _ _ Hfind) as [Hk Hin].
    destruct (Hc c (or_introl eq_refl)) as (m1 & Hin1 & Hc1 & Hk1).
    rewrite Hk.
    rewrite (update_found_const (messageKey c) (compress_message encode) _ _ Hfind).
    set (d := tokens m - tokens (compress_message encode m)). cbv zeta.
    set (ms1 := update_found (messageKey c) (compress_message encode) (messages s)).
    set (s1 := set_totalTokens (totalTokens s - d) (set_messages ms1 s)).
    assert (HF1 : Forall2 compressed_from ms0 ms1).
    { apply update_found_compressed_from with m; try done.
      exists m1. split_and!; try done. by apply In_take with n. }
    destruct (IH (freed + d) s1)
      as (freed' & ms' & t' & Heq & HF' & Hdrop & Hsum); [done|done|].
    exists freed', ms', t'. split_and!.
    + rewrite Heq. by destruct s.
    + done.
    + rewrite Hdrop. simpl. unfold ms1. apply update_found_tail.
      rewrite <- firstn_map, (compressed_from_keys _ _ HF), firstn_map.
      rewrite <- Hk1. apply in_map. done.
    + rewrite Hsum. simpl. unfold ms1.
      rewrite (update_found_sum _ _ _ _ Hfind). unfold d. lia.
Qed.

(** ** What [compress] does to a session *)

Definition protected_start (ms : list ChatMessage) : nat :=
  (length ms - Z.to_nat protectedRecentMessages)%nat.

(** Some messages before the protected tail were replaced by their
    placeholder, then the [j] oldest were dropped. *)
Definition compressed_session (s s' : Session) : Prop :=
  id s' = id s /\
  exists ms1 j,
    Forall2 compressed_from (messages s) ms1 /\
    drop (protected_start (messages s)) ms1
      = drop (protected_start (messages s)) (messages s) /\
    (j <= protected_start (messages s))%nat /\
    messages s' = drop j ms1 /\
    totalTokens s' - sum_tokens (messages s')
      = totalTokens s - sum_tokens (messages s).

Lemma compressed_from_refl ms : Forall2 compressed_from ms ms.
Proof. induction ms; constructor; [by left|done]. Qed.

Lemma compressed_session_refl s : compressed_session s s.
Proof.
  split; [done|]. exists (messages s), 0%nat.
  split_and!; try done; [apply compressed_from_refl|lia].
Qed.

Lemma compressed_session_budget s s' b :
  compressed_session s s' -> compressed_session s (set_budget b s').
Proof. intros H. exact H. Qed.

Lemma In_sort_insert x c l : In x (sort_insert c l) -> x = c \/ In x l.
Proof.
  induction l as [|y l IH]; simpl; [intuition|].
  destruct (compareCandidates y c <? 0); simpl; intuition.
Qed.

Lemma In_sort_candidates x l : In x (sort_candidates l) -> In x l.
Proof.
  induction l as [|c l IH]; simpl; [done|].
  intros H. apply In_sort_insert in H as [->|H]; auto.
Qed.

Lemma candidates_protected cm s c :
  session cm = Some s -> In c (getCompressionCandidates cm) ->
  exists m1, In m1 (take (protected_start (messages s)) (messages s))
             /\ isCompressible m1 = true /\ key m1 = messageKey c.
Proof.
  intros Hs. unfold getCompressionCandidates. rewrite Hs, slice_protected.
  intros H. apply in_map_iff in H as (m1 & <- & H).
  apply filter_In in H as [H1 H2]. by exists m1.
Qed.

Lemma in_storage_frames {A} (m : M ContextStorage A) cm :
  frames m ->
  exists r st', in_storage m cm = (r, with_storage st' cm)
                /\ storage_frame (storage cm) st'.
Proof.
  intros H. unfold in_storage, lift. destruct (H (storage cm)) as (r & st' & -> & F).
  by eexists _, _.
Qed.

Lemma discard_compressed_session ttf s0 s :
  NoDup (List.map key (messages s0)) ->
  compressed_session s0 s ->
  length (messages s) = length (messages s0) ->
  compressed_session s0 (discardOldestMessages ttf s).
Proof.
  intros Hnd (Hid & ms1 & j & HF & Htail & Hj & Hms & Hsum) Hlen.
  assert (j = 0)%nat as ->.
  { pose proof (Forall2_length _ _ _ HF) as Hl.
    rewrite Hms, length_drop in Hlen. unfold protected_start in Hj. lia. }
  rewrite drop_0 in Hms. subst ms1.
  destruct (discardOldestMessages_spec ttf s) as (j & Hj' & ->).
  { rewrite (compressed_from_keys _ _ HF). done. }
  split; [done|]. exists (messages s), j. simpl. split_and!; try done.
  - unfold protected_start. rewrite <- Hlen. done.
  - rewrite (sum_tokens_take_drop j (messages s)) in Hsum. lia.
Qed.

Lemma compress_effect cm s :
  session cm = Some s ->
  NoDup (List.map key (messages s)) ->
  exists r st' s',
    compress encode cm
    = (r, mkManager st' (Some s') (budgetConfig cm) (systemPromptTokens cm))
    /\ storage_frame (storage cm) st' /\ compressed_session s s'.
Proof.
  intros Hs Hnd. unfold compress, bind at 1, get. rewrite Hs.
  destruct (calculateTokensToFree cm <=? 0).
  { exists (Ok tt), (storage cm), s. destruct cm; simpl in *; subst.
    split_and!; try done. apply compressed_session_refl. }
  destruct (length (getCompressionCandidates cm) =? 0)%nat.
  { eexists (Ok tt), (storage cm), _. split_and!; [reflexivity|done|].
    apply discard_compressed_session; [done|apply compressed_session_refl|done]. }
  destruct (compress_loop_spec (protected_start (messages s)) (messages s)
              (sort_candidates (getCompressionCandidates cm))
              (calculateTokensToFree cm) 0 s Hnd (compressed_from_refl _))
    as (freed & ms' & t' & -> & HF & Htail & Hsum).
  { intros c Hc. apply In_sort_candidates in Hc.
    by apply candidates_protected with cm. }
  set (s1 := set_totalTokens t' (set_messages ms' s)).
  assert (H1 : compressed_session s s1).
  { split; [done|]. exists ms', 0%nat. split_and!; try done. lia. }
  set (s2 := if freed <? calculateTokensToFree cm
             then discardOldestMessages (calculateTokensToFree cm - freed) s1
             else s1).
  assert (H2 : compressed_session s s2).
  { unfold s2. destruct (freed <? _); [|done].
    apply discard_compressed_session; [done|done|].
    simpl. symmetry. exact (Forall2_length _ _ _ HF). }
  unfold bind, modify, get. simpl.
  match goal with |- context [in_storage ?m ?c] =>
    destruct (in_storage_frames m c (saveSession_frame _)) as (r & st' & -> & F) end.
  eexists r, st', _. split_and!; [reflexivity|done|].
  by apply compressed_session_budget.
Qed.

(** ** The invariant of a history *)

(** The message as [addMessage] built it. *)
Definition added_by (op : Op) (m0 : ChatMessage) : Prop :=
  match op with
  | OpAddMessage r text md nano now =>
    m0 = mkChatMessage (lit "msg_" ++ nano) r text
                       (Tokens.estimateTokens encode text) false None now md
  | _ => False
  end.

Definition original (ops : list Op) (m0 : ChatMessage) : Prop :=
  exists op, In op ops /\ added_by op m0.

Definition on_disk (st : ContextStorage) (sid : jsstring) (m0 : ChatMessage) : Prop :=
  message_files st !! message_path st sid (key m0) = Some (stored_of m0).

(** A message of the session is an added message, as it was or
    compressed; its original is on disk when it can be needed. *)
Definition provenance (ops : list Op) (st : ContextStorage) (sid : jsstring)
    (m : ChatMessage) : Prop :=
  exists m0, original ops m0 /\
    ((m = m0 /\ (isCompressible m0 = true -> on_disk st sid m0))
     \/ (m = compress_message encode m0 /\ on_disk st sid m0)).

Definition session_ok (ops : list Op) (st : ContextStorage) (s : Session) : Prop :=
  totalTokens s = sum_tokens (messages s) /\
  NoDup (List.map key (messages s)) /\
  Forall (provenance ops st (id s)) (messages s).

Definition manager_ok (ops : list Op) (cm : ContextManager) : Prop :=
  forall s, session cm = Some s -> session_ok ops (storage cm) s.

Lemma provenance_key ops st sid m :
  provenance ops st sid m -> exists nano, In nano (nanoids ops) /\ key m = lit "msg_" ++ nano.
Proof.
  intros (m0 & (op & Hin & Hop) & Hm).
  assert (key m = key m0) as -> by (destruct Hm as [[-> _]|[-> _]]; done).
  destruct op; try done. simpl in Hop. subst m0. exists nano. split; [|done].
  unfold nanoids. apply list_elem_of_In, list_elem_of_omap.
  eexists. split; [apply list_elem_of_In; exact Hin|done].
Qed.

Lemma provenance_frame ops ops' st st' sid m :
  storage_frame st st' -> (forall op, In op ops -> In op ops') ->
  provenance ops st sid m -> provenance ops' st' sid m.
Proof.
  intros [Hp Hf] Hops (m0 & (op & Hin & Hop) & Hm).
  exists m0. split; [exists op; auto|].
  unfold on_disk, message_path in *. rewrite Hp, Hf. done.
Qed.

Lemma session_ok_frame ops ops' st st' s :
  storage_frame st st' -> (forall op, In op ops -> In op ops') ->
  session_ok ops st s -> session_ok ops' st' s.
Proof.
  intros F Hops (H1 & H2 & H3). split_and!; try done.
  eapply Forall_impl; [exact H3|]. intros m. by apply provenance_frame.
Qed.

Lemma provenance_compressed_from ops st sid m0 m :
  provenance ops st sid m0 -> compressed_from m0 m -> provenance ops st sid m.
Proof.
  intros Hp [->|[Hc ->]]; [done|].
  destruct Hp as (o & Ho & [[-> Hd]|[-> Hd]]).
  - exists o. split; [done|]. right. auto.
  - apply isCompressible_not_compressed in Hc. done.
Qed.

Lemma compressed_session_ok ops st s s' :
  session_ok ops st s -> compressed_session s s' -> session_ok ops st s'.
Proof.
  intros (H1 & H2 & H3) (Hid & ms1 & j & HF & Htail & Hj & Hms & Hsum).
  split_and!.
  - lia.
  - rewrite Hms, <- skipn_map, (compressed_from_keys _ _ HF).
    eapply sublist_NoDup; [exact H2|apply sublist_drop].
  - rewrite Hms, Hid. apply Forall_drop.
    clear -HF H3. induction HF; [done|].
    apply Forall_cons in H3 as [Hx H3]. constructor; [|by apply IHHF].
    by eapply provenance_compressed_from.
Qed.

Lemma compressed_session_tail s s' :
  compressed_session s s' ->
  protected_tail (messages s') = protected_tail (messages s).
Proof.
  intros (Hid & ms1 & j & HF & Htail & Hj & Hms & Hsum).
  unfold protected_tail, protected_start in *.
  pose proof (Forall2_length _ _ _ HF) as Hl.
  rewrite Hms, length_drop, drop_drop, <- Htail. f_equal. lia.
Qed.

Lemma compressed_session_short s s' :
  compressed_session s s' ->
  (length (messages s) <= Z.to_nat protectedRecentMessages)%nat ->
  messages s' = messages s.
Proof.
  intros (Hid & ms1 & j & HF & Htail & Hj & Hms & Hsum) Hlen.
  unfold protected_start in *.
  replace (length (messages s) - Z.to_nat protectedRecentMessages)%nat
    with 0%nat in * by lia.
  assert (j = 0)%nat as -> by lia. rewrite !drop_0 in *. congruence.
Qed.

Lemma message_path_inj st sid k1 k2 :
  message_path st sid k1 = message_path st sid k2 -> k1 = k2.
Proof.
  unfold message_path, path_join. cbn [join]. intros H.
  repeat (apply app_inv_head in H). by apply app_inv_tail in H.
Qed.

(** ** [addMessage] *)

(** The session once the message is appended and counted. *)
Definition pushed (m : ChatMessage) (s : Session) : Session :=
  let s := set_messages (messages s ++ [m]) s in
  set_totalTokens (totalTokens s + tokens m) s.

(** What [addMessage] does after the original is saved. *)
Definition finish_add (m : ChatMessage) (s : Session) : M ContextManager ChatMessage :=
  let s := pushed m s in
  run* modify (with_session (Some s)) in
  run* modify refresh_budget in
  let* cm := get in
  run* (if needsCompression cm then compress encode else ret tt) in
  let* cm := get in
  run* in_storage (saveSession (the_session cm s)) in
  ret m.

Definition new_message r text md nano now : ChatMessage :=
  mkChatMessage (lit "msg_" ++ nano) r text (Tokens.estimateTokens encode text)
                false None now md.

Lemma addMessage_unfold r text md nano now :
  addMessage encode r text md nano now
  = (let* cm := get in
     match session cm with
     | None => throw no_active_session
     | Some s =>
       let m := new_message r text md nano now in
       let* s :=
         (if isCompressible m then
            let* filePath := in_storage (saveMessageContent (id s) m) in
            ret (set_storage_messages
                   (JsMap.set (storage_messages s) (key m) filePath) s)
          else ret s) in
       finish_add m s
     end).
Proof. reflexivity. Qed.

Lemma finish_add_effect m s cm :
  NoDup (List.map key (messages (pushed m s))) ->
  exists res cm' s',
    finish_add m s cm = (res, cm') /\
    (res = Ok m \/ exists e, res = Throw e) /\
    session cm' = Some s' /\
    storage_frame (storage cm) (storage cm') /\
    compressed_session (pushed m s) s'.
Proof.
  intros Hnd. unfold finish_add.
  set (s1 := pushed m s).
  unfold bind at 1, modify at 1. unfold bind at 1, modify at 1.
  unfold bind at 1, get at 1.
  set (cm1 := refresh_budget (with_session (Some s1) cm)).
  assert (Hs1 : session cm1 = Some (set_budget (calculateBudget (with_session (Some s1) cm)) s1))
    by reflexivity.
  set (s1b := set_budget _ s1) in Hs1.
  assert (exists r2 st2 s2,
    (if needsCompression cm1 then compress encode else ret tt) cm1
    = (r2, mkManager st2 (Some s2) (budgetConfig cm1) (systemPromptTokens cm1))
    /\ storage_frame (storage cm) st2 /\ compressed_session s1 s2)
    as (r2 & st2 & s2 & Heq & F2 & H2).
  { destruct (needsCompression cm1).
    - assert (Hnd' : NoDup (List.map key (messages s1b))) by exact Hnd.
      destruct (compress_effect cm1 s1b Hs1 Hnd') as (r & st' & s' & E & F & H).
      exists r, st', s'. split_and!; [exact E|exact F|exact H].
    - exists (Ok tt), (storage cm), s1b. split_and!; try done.
      exact (compressed_session_budget _ _ _ (compressed_session_refl s1)). }
  unfold bind at 1. rewrite Heq.
  destruct r2 as [[]|e].
  - unfold bind at 1, get at 1. unfold bind at 1.
    match goal with |- context [in_storage ?a ?c] =>
      destruct (in_storage_frames a c (saveSession_frame _)) as (r3 & st3 & -> & F3) end.
    destruct r3 as [[]|e]; eexists _, _, s2; (split_and!; [reflexivity| | | |done]);
      eauto; simpl; by eapply storage_frame_trans.
  - eexists _, _, s2. split_and!; [reflexivity| | | |done]; eauto.
Qed.

Lemma addMessage_effect ops r text md nano now cm s :
  session cm = Some s ->
  manager_ok ops cm ->
  ~ In (lit "msg_" ++ nano) (List.map key (messages s)) ->
  let op := OpAddMessage r text md nano now in
  let m := new_message r text md nano now in
  exists res cm' s',
    addMessage encode r text md nano now cm = (res, cm') /\
    manager_ok (ops ++ [op]) cm' /\
    (res = Ok m \/ exists e, res = Throw e) /\
    session cm' = Some s' /\ id s' = id s /\
    (res = Ok m -> compressed_session (pushed m s) s').
Proof.
  intros Hs Hok Hfresh op m.
  assert (Hops : forall o, In o ops -> In o (ops ++ [op]))
    by (intros; apply in_or_app; by left).
  destruct (Hok s Hs) as (H1 & H2 & H3).
  rewrite addMessage_unfold. unfold bind at 1, get at 1. rewrite Hs.
  fold m. cbv zeta.
  (* the state in which the message is appended *)
  assert (Hpush : forall st1 sX,
    paths_sessions st1 = paths_sessions (storage cm) ->
    (forall k, k <> key m ->
       message_files st1 !! message_path st1 (id s) k
       = message_files (storage cm) !! message_path (storage cm) (id s) k) ->
    (isCompressible m = true -> on_disk st1 (id s) m) ->
    messages sX = messages s -> totalTokens sX = totalTokens s -> id sX = id s ->
    session_ok (ops ++ [op]) st1 (pushed m sX)).
  { intros st1 sX Hp Hf Hd Hm Ht Hi. unfold pushed. split_and!; simpl.
    - rewrite Hm, Ht, sum_tokens_app, H1. simpl. lia.
    - rewrite Hm, map_app. apply NoDup_app. split_and!; [done| |].
      + intros x Hx [E|[]]%list_elem_of_In. subst x. apply Hfresh.
        by apply list_elem_of_In.
      + apply NoDup_singleton.
    - rewrite Hm, Hi. apply Forall_app. split.
      + eapply Forall_impl; [apply Forall_forall; intros x Hx; exact (conj Hx (proj1 (Forall_forall _ _) H3 x Hx))|].
        intros x [Hx (m0 & (o & Ho1 & Ho2) & Hm0)]. exists m0.
        split; [exists o; auto|].
        assert (Hk : key m0 <> key m).
        { intros E. apply Hfresh.
          change (In (key m) (List.map key (messages s))).
          rewrite <- E. replace (key m0) with (key x)
            by (destruct Hm0 as [[-> _]|[-> _]]; done).
          apply in_map. by apply list_elem_of_In. }
        unfold on_disk in *. rewrite (Hf _ Hk). done.
      + apply Forall_singleton. exists m. split.
        * exists op. split; [apply in_or_app; right; by left|reflexivity].
        * left. split; [done|]. done. }
  destruct (isCompressible m) eqn:Hc.
  - unfold bind at 1. unfold bind at 1. unfold in_storage, lift.
    destruct (saveMessageContent_effect (id s) m (storage cm))
      as [(e & st' & -> & F)|(st' & -> & Hp & Hf)].
    + exists (Throw e), (with_storage st' cm), s. split_and!; try done; eauto.
      intros s0 Hs0. simpl in Hs0. rewrite Hs in Hs0. injection Hs0 as <-.
      simpl. by eapply session_ok_frame.
    + unfold ret at 1.
      set (sX := set_storage_messages _ s).
      assert (Hok1 : session_ok (ops ++ [op]) st' (pushed m sX)).
      { apply Hpush; try done.
        - intros k Hk. unfold message_path. rewrite Hp, Hf.
          apply lookup_insert_ne. intros E. apply message_path_inj in E. done.
        - intros _. unfold on_disk, message_path. rewrite Hp, Hf.
          apply lookup_insert_eq. }
      destruct (finish_add_effect m sX (with_storage st' cm))
        as (res & cm' & s' & -> & Hres & Hs' & F & Hcs); [apply Hok1|].
      exists res, cm', s'. split_and!; try done.
      * intros s0 Hs0. rewrite Hs' in Hs0. injection Hs0 as <-.
        apply (session_ok_frame (ops ++ [op]) _ st'); [exact F|auto|].
        by eapply compressed_session_ok.
      * destruct Hcs as [-> _]. done.
  - unfold bind at 1, ret at 1.
    assert (Hok1 : session_ok (ops ++ [op]) (storage cm) (pushed m s)).
    { apply Hpush; try done. }
    destruct (finish_add_effect m s cm)
      as (res & cm' & s' & -> & Hres & Hs' & F & Hcs); [apply Hok1|].
    exists res, cm', s'. split_and!; try done.
    * intros s0 Hs0. rewrite Hs' in Hs0. injection Hs0 as <-.
      apply (session_ok_frame (ops ++ [op]) _ (storage cm)); [exact F|auto|].
      by eapply compressed_session_ok.
    * destruct Hcs as [-> _]. done.
Qed.

(** ** The other operations *)

(** The call left the messages of the session as they were. *)
Definition same_messages (cm cm' : ContextManager) : Prop :=
  storage_frame (storage cm) (storage cm') /\
  forall s', session cm' = Some s' ->
    (messages s' = [] /\ totalTokens s' = 0) \/
    exists s, session cm = Some s /\ id s' = id s /\ messages s' = messages s
              /\ totalTokens s' = totalTokens s.

Lemma same_messages_ok ops ops' cm cm' :
  (forall op, In op ops -> In op ops') ->
  manager_ok ops cm -> same_messages cm cm' -> manager_ok ops' cm'.
Proof.
  intros Hops Hok [F H] s' Hs'.
  destruct (H s' Hs') as [[Hm Ht]|(s & Hs & Hi & Hm & Ht)].
  - split_and!; rewrite ?Hm, ?Ht; [done|apply NoDup_nil_2|constructor].
  - destruct (Hok s Hs) as (H1 & H2 & H3).
    split_and!; rewrite ?Hm, ?Ht, ?Hi; try done.
    eapply Forall_impl; [exact H3|]. intros m. by apply provenance_frame.
Qed.

Lemma same_messages_refl cm : same_messages cm cm.
Proof. split; [done|]. intros s Hs. right. by exists s. Qed.

Lemma same_messages_storage cm st' :
  storage_frame (storage cm) st' -> same_messages cm (with_storage st' cm).
Proof. intros F. split; [done|]. intros s Hs. right. by exists s. Qed.

Lemma refresh_budget_same cm : same_messages cm (refresh_budget cm).
Proof.
  unfold refresh_budget. destruct (session cm) as [s|] eqn:Hs.
  - split; [done|]. intros s' [= <-]. right. by exists s.
  - apply same_messages_refl.
Qed.

Lemma initSession_same q w nano now cm :
  same_messages cm (state_after (initSession q w nano now) cm).
Proof.
  unfold state_after, initSession. unfold bind at 1. unfold in_storage, lift.
  destruct (createSession_effect q w nano now (storage cm)) as (r & st' & -> & F & Hr).
  destruct r as [s|e]; simpl.
  - split; [done|]. destruct (Hr s eq_refl) as (_ & Hm & Ht).
    intros s' [= <-]. left. done.
  - by apply same_messages_storage.
Qed.

Lemma recall_effect k cm :
  exists res st', recall k cm = (Ok res, with_storage st' cm)
                  /\ storage_frame (storage cm) st'.
Proof.
  unfold recall, bind at 1, get at 1.
  destruct (session cm) as [s|]; [|by eexists _, (storage cm); destruct cm].
  destruct (negb (key_truthy k)); [by eexists _, (storage cm); destruct cm|].
  destruct (find _ (messages s)) as [m|]; [|by eexists _, (storage cm); destruct cm].
  destruct (negb (compressed m)); [by eexists _, (storage cm); destruct cm|].
  unfold try_catch, bind, in_storage, lift.
  destruct (loadMessageContent_effect (id s) (key m) (storage cm))
    as (r & st' & -> & F & _).
  destruct r; by eexists _, st'.
Qed.

Lemma step_same cm op :
  match op with
  | OpAddMessage _ _ _ _ _ => session cm = None
  | OpCompress => session cm = None
  | _ => True
  end ->
  same_messages cm (step encode cm op).
Proof.
  destruct op; simpl; intros H.
  - apply initSession_same.
  - unfold state_after, addMessage, bind, get. rewrite H. apply same_messages_refl.
  - unfold state_after, compress, bind, get. rewrite H. apply same_messages_refl.
  - unfold state_after. destruct (recall_effect request_key cm) as (r & st' & -> & F).
    by apply same_messages_storage.
  - unfold state_after, setSystemPromptTokens, bind, modify. simpl.
    destruct (refresh_budget_same (with_systemPromptTokens n cm)) as [F Hm].
    split; [exact F|]. exact Hm.
  - unfold state_after, save, bind, get.
    destruct (session cm) as [s|]; [|apply same_messages_refl].
    destruct (in_storage_frames (saveSession s) cm (saveSession_frame _))
      as (r & st' & -> & F). by apply same_messages_storage.
  - unfold state_after, saveLLMTurn, bind at 1, get.
    destruct (session cm) as [s|]; [|apply same_messages_refl].
    unfold bind.
    destruct (in_storage_frames (storage_saveLLMTurn (id s) t) cm
                (storage_saveLLMTurn_frame _ _)) as (r & st' & -> & F).
    destruct r; by apply same_messages_storage.
Qed.

Lemma fresh_key ops cm s nano :
  manager_ok ops cm -> session cm = Some s -> ~ In nano (nanoids ops) ->
  ~ In (lit "msg_" ++ nano) (List.map key (messages s)).
Proof.
  intros Hok Hs Hfresh Hin. apply in_map_iff in Hin as (m & Hk & Hin).
  destruct (Hok s Hs) as (_ & _ & H3).
  apply list_elem_of_In in Hin. apply (proj1 (Forall_forall _ _) H3) in Hin.
  apply provenance_key in Hin as (n' & Hn' & Hk').
  rewrite Hk' in Hk. apply app_inv_head in Hk. congruence.
Qed.

Lemma step_ok ops cm op :
  manager_ok ops cm ->
  (forall nano, nanoids [op] = [nano] -> ~ In nano (nanoids ops)) ->
  manager_ok (ops ++ [op]) (step encode cm op).
Proof.
  intros Hok Hfresh.
  assert (Hops : forall o, In o ops -> In o (ops ++ [op]))
    by (intros; apply in_or_app; by left).
  destruct (session cm) as [s|] eqn:Hs.
  2: { eapply same_messages_ok; [exact Hops|exact Hok|].
       apply step_same. by destruct op. }
  destruct op;
    try (eapply same_messages_ok; [exact Hops|exact Hok|by apply step_same]).
  - simpl. unfold state_after.
    destruct (addMessage_effect ops r text md nano now cm s Hs Hok)
      as (res & cm' & s' & -> & Hok' & _).
    { eapply fresh_key; eauto. }
    exact Hok'.
  - simpl. unfold state_after.
    destruct (Hok s Hs) as (H1 & H2 & H3).
    destruct (compress_effect cm s Hs H2) as (r & st' & s' & -> & F & Hc).
    intros s0 [= <-]. simpl.
    apply (session_ok_frame ops _ (storage cm)); [done|done|].
    eapply compressed_session_ok; [|exact Hc]. by apply Hok.
Qed.

Lemma run_snoc ops op cm :
  run encode (ops ++ [op]) cm = step encode (run encode ops cm) op.
Proof. unfold run. by rewrite fold_left_app. Qed.

Lemma nanoids_snoc ops op : nanoids (ops ++ [op]) = nanoids ops ++ nanoids [op].
Proof. unfold nanoids. apply omap_app. Qed.

(** Every state a fresh manager reaches satisfies the invariant, as long
    as [nanoid] never returned the same identifier twice. *)
Lemma run_ok ops cm0 :
  session cm0 = None -> NoDup (nanoids ops) ->
  manager_ok ops (run encode ops cm0).
Proof.
  intros H0. induction ops as [|op ops IH] using rev_ind; intros Hnd.
  - intros s Hs. simpl in Hs. congruence.
  - rewrite run_snoc. rewrite nanoids_snoc in Hnd.
    apply NoDup_app in Hnd as (Hnd & Hdisj & _).
    apply step_ok; [by apply IH|].
    intros nano Hn Hin. apply (Hdisj nano); [by apply list_elem_of_In|].
    rewrite Hn. apply list_elem_of_In. by left.
Qed.

End WithEncoder.

End ManagerFacts.

(* ===================================================================== *)
(** * Properties of the context manager                                    *)
(* ===================================================================== *)

Module ManagerClaims.
Import ManagerFacts.
Local Open Scope eff_scope.

Section WithEncoder.

Variable encode : jsstring -> option Z.

(** C1. At every point between two calls of public methods of the
    context manager, the [totalTokens] of the session is the sum of the
    [tokens] of the messages in its list.  The points are the states
    reached by any history of calls on a new manager, in which [nanoid]
    gave every message a key of its own. *)
Theorem totalTokens_is_sum ops st cfg sp s :
  NoDup (nanoids ops) ->
  session (run encode ops (new_manager encode st cfg sp)) = Some s ->
  totalTokens s = sum_tokens (messages s).
Proof.
  intros Hnd Hs.
  destruct (run_ok encode ops (new_manager encode st cfg sp) eq_refl Hnd s Hs)
    as (H & _). exact H.
Qed.

Lemma startsWith_app p s : startsWith (p ++ s) p = true.
Proof.
  induction p as [|c p IH]; simpl; [by destruct s|].
  rewrite N.eqb_refl. exact IH.
Qed.

Lemma createCompressedContent_prefix m :
  startsWith (createCompressedContent m) (lit "[COMPRESSED:") = true.
Proof.
  unfold createCompressedContent. cbv zeta.
  destruct (_ && _); [|destruct (is_tool m "ripgrep")];
    rewrite <- !app_assoc; apply startsWith_app.
Qed.

(** C3. A message of the session that compression has compressed keeps
    the key it was added under, its content begins with [COMPRESSED:,
    its [originalTokens] is the token count it was added with, and
    [Recall] of its key, when it succeeds, returns the content that was
    added, with that token count; it succeeds whenever the read of the
    stored file does not fail. *)
Theorem compressed_message_recall ops st cfg sp s m :
  NoDup (nanoids ops) ->
  let cm := run encode ops (new_manager encode st cfg sp) in
  session cm = Some s ->
  In m (messages s) ->
  compressed m = true ->
  exists r text md nano now,
    In (OpAddMessage r text md nano now) ops /\
    key m = lit "msg_" ++ nano /\
    startsWith (content m) (lit "[COMPRESSED:") = true /\
    originalTokens m = Some (Tokens.estimateTokens encode text) /\
    exists res cm',
      recall (key_string (key m)) cm = (Ok res, cm') /\
      session cm' = session cm /\
      (success res = true ->
         recalled res = text /\
         recalled_tokens res = Tokens.estimateTokens encode text) /\
      ((forall msg f, fs_faults (storage cm) <> Some msg :: f) ->
         success res = true).
Proof.
  intros Hnd cm Hs Hin Hcomp.
  destruct (run_ok encode ops (new_manager encode st cfg sp) eq_refl Hnd s Hs)
    as (_ & Hkeys & Hprov).
  fold cm in Hprov.
  pose proof (proj1 (Forall_forall _ _) Hprov m
                (proj2 (list_elem_of_In _ _) Hin)) as (m0 & (op & Hop & Hadd) & Hm).
  destruct Hm as [[-> _]|[-> Hdisk]].
  { destruct op; try done. simpl in Hadd. subst m0. done. }
  destruct op as [| r text md nano now | | | | |]; try done.
  simpl in Hadd. subst m0.
  exists r, text, md, nano, now. split_and!; try done.
  { apply createCompressedContent_prefix. }
  set (m0 := mkChatMessage _ _ _ _ _ _ _ _) in *.
  unfold recall, bind at 1, get at 1. rewrite Hs.
  change (key_truthy (key_string (key (compress_message encode m0)))) with true.
  cbn [negb].
  change (key_is (key_string (key (compress_message encode m0))))
    with (fun x => JS.eqb (key x) (key (compress_message encode m0))).
  rewrite (find_NoDup _ _ Hkeys Hin). cbn [compressed compress_message negb].
  unfold try_catch, bind, in_storage, lift.
  destruct (loadMessageContent_effect (id s) (key (compress_message encode m0))
              (storage cm)) as (o & st' & -> & F & Ho).
  change (key (compress_message encode m0)) with (key m0) in Ho.
  unfold on_disk in Hdisk. rewrite Hdisk in Ho.
  destruct Ho as [[-> (msg & f & Hf)]|[-> Hf]].
  - eexists _, _. split_and!; [reflexivity|done|done|].
    intros H. exfalso. by eapply H.
  - eexists _, _. split_and!; [reflexivity|done|done|done].
Qed.

(** C8. The protected tail, in every state of a history: no message of
    it is a compression candidate; [compress] and the eviction fallback
    leave it as it is; with four or fewer messages they leave the whole
    list as it is; and after [AddMessage] the tail is that of the list
    with the new message appended. *)
Theorem protected_tail_untouched ops st cfg sp s :
  NoDup (nanoids ops) ->
  let cm := run encode ops (new_manager encode st cfg sp) in
  session cm = Some s ->
  (forall c, In c (getCompressionCandidates cm) ->
     ~ In (messageKey c) (List.map key (protected_tail (messages s)))) /\
  (exists s', session (state_after (compress encode) cm) = Some s' /\
     protected_tail (messages s') = protected_tail (messages s)) /\
  (forall tokensToFree,
     protected_tail (messages (discardOldestMessages tokensToFree s))
     = protected_tail (messages s)) /\
  ((length (messages s) <= 4)%nat ->
     getCompressionCandidates cm = [] /\
     (exists s', session (state_after (compress encode) cm) = Some s' /\
        messages s' = messages s) /\
     (forall tokensToFree,
        messages (discardOldestMessages tokensToFree s) = messages s)) /\
  (forall r text md nano now m cm',
     ~ In nano (nanoids ops) ->
     addMessage encode r text md nano now cm = (Ok m, cm') ->
     exists s', session cm' = Some s' /\
       protected_tail (messages s') = protected_tail (messages s ++ [m])).
Proof.
  intros Hnd cm Hs.
  pose proof (run_ok encode ops (new_manager encode st cfg sp) eq_refl Hnd) as Hok.
  fold cm in Hok. destruct (Hok s Hs) as (Hsum & Hkeys & Hprov).
  destruct (compress_effect encode cm s Hs Hkeys) as (rc & stc & sc & Hc & _ & Hcs).
  assert (Hd : forall ttf, compressed_session encode s (discardOldestMessages ttf s)).
  { intros ttf. apply discard_compressed_session;
      [done|apply compressed_session_refl|done]. }
  assert (Hcand : forall c, In c (getCompressionCandidates cm) ->
            In (messageKey c)
               (List.map key (take (protected_start (messages s)) (messages s)))).
  { intros c Hc'. destruct (candidates_protected cm s c Hs Hc') as (m1 & H1 & _ & <-).
    by apply in_map. }
  split_and!.
  - intros c Hc' Hin. apply Hcand in Hc'.
    rewrite <- (take_drop (protected_start (messages s)) (messages s)) in Hkeys.
    rewrite map_app in Hkeys. apply NoDup_app in Hkeys as (_ & Hdisj & _).
    apply (Hdisj (messageKey c)); by apply list_elem_of_In.
  - exists sc. unfold state_after. rewrite Hc. split; [done|].
    by eapply compressed_session_tail.
  - intros ttf. by eapply compressed_session_tail.
  - intros Hlen. split_and!.
    + destruct (getCompressionCandidates cm) as [|c l] eqn:E; [done|].
      exfalso. specialize (Hcand c (or_introl eq_refl)).
      unfold protected_start in Hcand.
      replace (length (messages s) - Z.to_nat protectedRecentMessages)%nat
        with 0%nat in Hcand by (unfold protectedRecentMessages; lia).
      done.
    + exists sc. unfold state_after. rewrite Hc. split; [done|].
      eapply compressed_session_short; [exact Hcs|].
      unfold protectedRecentMessages. lia.
    + intros ttf. eapply compressed_session_short; [apply Hd|].
      unfold protectedRecentMessages. lia.
  - intros r text md nano now m cm' Hfresh Hadd.
    destruct (addMessage_effect encode ops r text md nano now cm s Hs Hok)
      as (res & cm'' & s' & Heq & _ & Hres & Hs' & _ & Htail).
    { by eapply fresh_key. }
    rewrite Heq in Hadd. injection Hadd as -> ->.
    destruct Hres as [Hres|[e Hres]]; [|done].
    injection Hres as ->.
    exists s'. split; [done|].
    apply (compressed_session_tail encode _ _ (Htail eq_refl)).
Qed.

End WithEncoder.

End ManagerClaims.


(* ===================================================================== *)
(** * Properties of the tool registry                                      *)
(* ===================================================================== *)

Module RegistryClaims.

(** The condition of C10, in the words of the claim. *)
Definition accepted (cfg : ToolRegistryConfig) (n : jsstring) : Prop :=
  (forall dis, disabledTools cfg = Some dis -> ~ In n dis) /\
  (enabledTools cfg = None \/ enabledTools cfg = Some []
   \/ exists en, enabledTools cfg = Some en /\ In n en).

Lemma arr_includes_true arr n : arr_includes arr n = true <-> In n arr.
Proof.
  unfold arr_includes. rewrite existsb_exists. split.
  - intros (x & Hx & E). apply ManagerFacts.eqb_true in E. congruence.
  - intros H. exists n. split; [done|]. by apply ManagerFacts.eqb_true.
Qed.

Lemma arr_includes_false arr n : arr_includes arr n = false <-> ~ In n arr.
Proof.
  rewrite <- arr_includes_true, not_true_iff_false. done.
Qed.

Lemma register_accepted t reg :
  accepted (config reg) (name t) ->
  register t reg = mkRegistry (JsMap.set (tools reg) (name t) t) (config reg).
Proof.
  unfold register, accepted.
  destruct (disabledTools (config reg)) as [dis|];
    destruct (enabledTools (config reg)) as [en|]; intros [Hd He].
  all: try (specialize (Hd dis eq_refl); apply arr_includes_false in Hd;
            rewrite Hd).
  all: try done.
  all: destruct He as [He|[He|(en' & He & Hin)]]; try done.
  all: injection He as He; subst; try done.
  all: apply arr_includes_true in Hin; rewrite Hin; by rewrite andb_false_r.
Qed.

Lemma register_rejected t reg :
  ~ accepted (config reg) (name t) -> register t reg = reg.
Proof.
  unfold register, accepted.
  destruct (disabledTools (config reg)) as [dis|];
    destruct (enabledTools (config reg)) as [en|]; intros Hn.
  all: try (destruct (arr_includes dis (name t)) eqn:Ei; [done|];
            apply arr_includes_false in Ei).
  all: try (destruct (arr_includes en (name t)) eqn:Ei2;
            [apply arr_includes_true in Ei2|];
            destruct (0 <? length en)%nat eqn:El; simpl; try done;
            try (assert (en = []) as -> by (by destruct en))).
  all: exfalso; apply Hn; split;
       try (intros ? [= <-]; done); try done; eauto 6.
Qed.

Lemma get_set {V} (m : JsMap.t V) k v : JsMap.get (JsMap.set m k v) k = Some v.
Proof.
  induction m as [|[k' v'] m IH]; simpl.
  - by rewrite (proj2 (ManagerFacts.eqb_true k k) eq_refl).
  - destruct (JS.eqb k' k) eqn:E; simpl; rewrite E; [done|exact IH].
Qed.

Lemma accepted_dec cfg n : accepted cfg n \/ ~ accepted cfg n.
Proof.
  unfold accepted.
  assert (Hd : (forall dis, disabledTools cfg = Some dis -> ~ In n dis)
               \/ exists dis, disabledTools cfg = Some dis /\ In n dis).
  { destruct (disabledTools cfg) as [dis|]; [|left; done].
    destruct (arr_includes dis n) eqn:E.
    - right. exists dis. split; [done|]. by apply arr_includes_true.
    - left. intros ? [= <-]. by apply arr_includes_false. }
  destruct Hd as [Hd|(dis & Hd & Hin)].
  2: { right. intros [H _]. by apply (H dis). }
  destruct (enabledTools cfg) as [[|e en]|]; [left; auto| |left; auto].
  destruct (arr_includes (e :: en) n) eqn:E.
  - left. split; [done|]. right. right. exists (e :: en).
    split; [done|]. by apply arr_includes_true.
  - right. intros [_ [H|[H|(en' & [= <-] & H)]]]; try done.
    by apply arr_includes_false in E.
Qed.

(** C10. [register(t)] adds [t] under its name when the name is not in
    [disabledTools] and [enabledTools] is absent, empty or contains it,
    and does nothing otherwise; so a name that was not registered is
    registered afterwards iff that condition holds.  An empty
    [enabledTools] accepts every tool that is not disabled, and a name in
    both lists is rejected. *)
Theorem register_iff_accepted (t : Tool) (reg : ToolRegistry) :
  (accepted (config reg) (name t) ->
     register t reg = mkRegistry (JsMap.set (tools reg) (name t) t) (config reg)
     /\ get_tool (register t reg) (name t) = Some t) /\
  (~ accepted (config reg) (name t) -> register t reg = reg) /\
  (has reg (name t) = false ->
     (has (register t reg) (name t) = true <-> accepted (config reg) (name t))) /\
  (enabledTools (config reg) = Some [] ->
     (forall dis, disabledTools (config reg) = Some dis -> ~ In (name t) dis) ->
     get_tool (register t reg) (name t) = Some t) /\
  (forall dis en, disabledTools (config reg) = Some dis ->
     enabledTools (config reg) = Some en ->
     In (name t) dis -> In (name t) en -> register t reg = reg).
Proof.
  split_and!.
  - intros Ha. rewrite (register_accepted _ _ Ha). split; [done|].
    unfold get_tool. simpl. apply get_set.
  - apply register_rejected.
  - intros Hhas. split.
    + intros H. destruct (accepted_dec (config reg) (name t)) as [Ha|Hn]; [done|].
      rewrite (register_rejected _ _ Hn) in H. congruence.
    + intros Ha. rewrite (register_accepted _ _ Ha). unfold has, JsMap.has. simpl.
      by rewrite get_set.
  - intros He Hd. rewrite register_accepted; [unfold get_tool; simpl; apply get_set|].
    split; [done|auto].
  - intros dis en Hd He Hi1 Hi2. apply register_rejected.
    intros [H _]. by apply (H dis).
Qed.

End RegistryClaims.

(* ===================================================================== *)
(** * Properties of decision parsing and stuck detection                   *)
(* ===================================================================== *)

Module InvestigatorClaims.

Section WithHost.

Context {host : JsonHost}.

(** The name of the most recent tool call of a decision history. *)
Definition lastToolCallName (decisions : list AgentDecision) : option jsstring :=
  fold_left (fun acc d => match d with
                          | tool_call n _ => Some n
                          | _ => acc
                          end) decisions None.

Lemma lastToolCallName_filter decisions :
  lastToolCallName decisions
  = match last (List.filter is_tool_call decisions) with
    | Some (tool_call n _) => Some n
    | _ => None
    end.
Proof.
  unfold lastToolCallName.
  induction decisions as [|d ds IH] using rev_ind; [done|].
  rewrite fold_left_app, List.filter_app. simpl.
  destruct d; simpl; rewrite ?app_nil_r; try exact IH.
  by rewrite last_snoc.
Qed.

(** C4. A response that contains the sentinel, carries no tool call,
    yields no rescued tool call and matches no hallucination pattern is
    parsed to [done] with the content as result when the most recent
    tool call of the history is [think], and to [requires_self_check]
    otherwise, also when the history has no tool call. *)
Theorem self_check_gate (decisions : list AgentDecision) (content : jsstring)
    (toolCalls : option (list ToolCall)) :
  includes content INVESTIGATION_COMPLETE = true ->
  toolCalls = None \/ toolCalls = Some [] ->
  rescueToolCallFromContent content = None ->
  (forall p, In p HALLUCINATION_PATTERNS -> Regex.test p content = false) ->
  (parseDecision decisions content toolCalls = done content
   <-> lastToolCallName decisions = Some (lit "think")) /\
  (parseDecision decisions content toolCalls = requires_self_check content
   <-> lastToolCallName decisions <> Some (lit "think")).
Proof.
  intros Hinc Htc Hresc Hhall.
  assert (Hclean : cleanHallucinatedContent content = (content, false)).
  { unfold cleanHallucinatedContent.
    replace (existsb _ HALLUCINATION_PATTERNS) with false; [done|].
    symmetry. apply not_true_iff_false. intros H.
    apply existsb_exists in H as (p & Hp & Ht). rewrite (Hhall p Hp) in Ht. done. }
  assert (Hparse : parseDecision decisions content toolCalls
    = match last (List.filter is_tool_call decisions) with
      | Some (tool_call n _) =>
        if negb (JS.eqb n (lit "think")) then requires_self_check content
        else done content
      | _ => requires_self_check content
      end).
  { unfold parseDecision. rewrite Hresc, Hclean, Hinc.
    destruct Htc as [->| ->]; reflexivity. }
  rewrite Hparse, lastToolCallName_filter.
  destruct (last (List.filter is_tool_call decisions)) as [[n a| | | | | |]|];
    try (split; split; intros; congruence).
  destruct (JS.eqb n (lit "think")) eqn:E; simpl.
  - apply ManagerFacts.eqb_true in E. subst n. split; split; intros; congruence.
  - apply ManagerFacts.eqb_false in E. split; split; intros; congruence.
Qed.

(** C7. With a positive threshold, [isStuck] returns, and returns true
    iff the history has at least [stuckThreshold] decisions and the last
    [stuckThreshold] of them are all tool calls with one name and with
    arguments that [JSON.stringify] maps to one string. *)
Theorem isStuck_iff (stuckThreshold : Z) (decisions : list AgentDecision) :
  0 < stuckThreshold ->
  exists b, isStuck stuckThreshold decisions = Ok b /\
    (b = true <->
     (Z.to_nat stuckThreshold <= length decisions)%nat /\
     exists n s,
       Forall (fun d => exists a, d = tool_call n a /\ JSON_stringify a = s)
              (drop (length decisions - Z.to_nat stuckThreshold) decisions)).
Proof.
  intros Ht. unfold isStuck. rewrite ManagerFacts.slice_last by done.
  set (recent := drop _ decisions).
  assert (Hlen : length recent = Nat.min (Z.to_nat stuckThreshold) (length decisions)).
  { unfold recent. rewrite length_drop. lia. }
  destruct (Z.ltb_spec (Z.of_nat (length recent)) stuckThreshold) as [Hlt|Hge].
  { exists false. split; [done|]. split; [done|]. intros [H _]. lia. }
  destruct recent as [|first rest] eqn:Hrec; [simpl in Hge; lia|].
  assert (Hlen' : (Z.to_nat stuckThreshold <= length decisions)%nat)
    by (simpl in *; lia).
  destruct first as [n a| | | | | |];
    try (exists false; split; [done|]; split; [done|];
         intros (_ & n' & s' & HF); apply Forall_cons in HF as [(a' & Hd & _) _];
         done).
  eexists. split; [reflexivity|].
  rewrite forallb_forall. split.
  - intros H. split; [done|]. exists n, (JSON_stringify a).
    apply Forall_forall. intros d Hd. apply list_elem_of_In in Hd.
    specialize (H d Hd). destruct d as [n' a'| | | | | |]; try done.
    apply andb_prop in H as [H1 H2].
    apply ManagerFacts.eqb_true in H1, H2. subst. eauto.
  - intros (_ & n' & s' & HF) d Hd.
    pose proof (proj1 (Forall_forall _ _) HF) as HF'.
    destruct (HF' (tool_call n a)) as (a0 & [= <- <-] & Hs0); [by left|].
    apply list_elem_of_In in Hd. destruct (HF' d Hd) as (a1 & -> & Hs1).
    apply andb_true_intro. split; apply ManagerFacts.eqb_true; congruence.
Qed.

End WithHost.

(** The failing input of C5: a fabricated file header after a leading
    blank, followed by a fabricated closing tag. *)
Definition header_after_blank : jsstring :=
  lit " File: a" ++ [LF] ++ lit "Lines: 1-2</user>".

(** C5. Applying the cleaner to its own output changes it: on
    [header_after_blank] the first pass cuts at the tag and trims the
    blank, which leaves a text that begins with the file header, and the
    second pass removes that text. *)
Theorem cleaner_not_idempotent :
  let once := fst (cleanHallucinatedContent header_after_blank) in
  let twice := fst (cleanHallucinatedContent once) in
  once = lit "File: a" ++ [LF] ++ lit "Lines: 1-2" /\
  snd (cleanHallucinatedContent once) = true /\
  twice = [] /\
  twice <> once.
Proof. vm_compute. split_and!; done. Qed.

(** On a text without hallucination pattern the cleaner is the identity. *)
Lemma cleaner_identity_on_clean content :
  snd (cleanHallucinatedContent content) = false ->
  fst (cleanHallucinatedContent content) = content.
Proof.
  unfold cleanHallucinatedContent.
  destruct (existsb _ HALLUCINATION_PATTERNS); simpl; done.
Qed.

End InvestigatorClaims.

(* ===================================================================== *)
(** * Properties of cancellation                                           *)
(* ===================================================================== *)

Module AbortClaims.

Import Loop Orchestrator.
Local Open Scope eff_scope.

Section WithHost.

Context {host : JsonHost}.
Variable encode : jsstring -> option Z.
Variable buildInvestigatorPrompt : list Tool -> jsstring.

Lemma partial_result_returns (ag : Agent) :
  exists r ag',
    partial_result ag = (Ok r, ag') /\
    inv_success r = true /\ inv_error r = None /\
    iterations r = iteration (state ag) /\
    findings r = gatherPartialFindings (contextManager ag).
Proof.
  unfold partial_result, bind, modify, get, ret. simpl.
  eexists _, _. split_and!; reflexivity.
Qed.

Lemma investigation_phase_aborted env query o r o1 :
  investigation_phase encode buildInvestigatorPrompt env query o = (r, o1) ->
  o_aborted o1 = o_aborted o || abort_in_investigation env.
Proof.
  unfold investigation_phase.
  destruct (investigate _ _ _ _ _) as [r' ag]. by intros [= <- <-].
Qed.

(** Where the two agents part on [abort()].  In the investigator, a loop
    head reached after [abort()] breaks out of the loop into the path
    that the source comments "Max iterations reached - return what we
    have": [investigate] returns, without raising, the partial findings
    with [success = true].  In the orchestrator, [run] always returns;
    when [abort()] was called before the check that follows the
    investigation, the result has [success = false], with the error
    "Aborted" if the investigation had succeeded. *)
Lemma abort_outcome :
  (forall fuel oracle ag,
     aborted ag = true ->
     exists r ag',
       investigate_loop encode buildInvestigatorPrompt fuel oracle ag = (Ok r, ag') /\
       inv_success r = true /\ inv_error r = None /\
       iterations r = iteration (state ag) /\
       findings r = gatherPartialFindings (contextManager ag)) /\
  (forall env query o,
     exists r o',
       run encode buildInvestigatorPrompt env query o = (Ok r, o') /\
       (o_aborted o || abort_in_investigation env = true ->
          run_success r = false /\
          forall inv o1,
            investigation_phase encode buildInvestigatorPrompt env query o
              = (Ok inv, o1) ->
            inv_success inv = true -> run_error r = Some (lit "Aborted")) /\
       (o_aborted o || abort_in_investigation env = false ->
          forall inv o1,
            investigation_phase encode buildInvestigatorPrompt env query o
              = (Ok inv, o1) ->
            inv_success inv = true -> run_success r = true)).
Proof.
  split.
  - intros fuel oracle ag Hab.
    destruct (partial_result_returns ag) as (r & ag' & Heq & H).
    exists r, ag'. split; [|exact H].
    destruct fuel as [|fuel]; simpl; [exact Heq|].
    unfold bind at 1, get at 1. rewrite Hab. exact Heq.
  - intros env query o. unfold run, try_catch. unfold bind at 1.
    destruct (investigation_phase encode buildInvestigatorPrompt env query o)
      as [[inv|e] o1] eqn:E.
    2: { eexists _, _. split_and!; [reflexivity| |]; [|done].
         intros _. split; [done|]. done. }
    pose proof (investigation_phase_aborted _ _ _ _ _ E) as Hab.
    destruct (inv_success inv) eqn:Hs; simpl.
    2: { eexists _, _. split_and!; [reflexivity| |].
         - intros _. split; [done|]. intros ? ? [= <- <-]. congruence.
         - intros _ ? ? [= <- <-]. congruence. }
    unfold bind at 1, get at 1. rewrite Hab.
    destruct (o_aborted o || abort_in_investigation env) eqn:Hflag.
    { eexists _, _. split_and!; [reflexivity| |done].
      intros _. split; [done|]. done. }
    unfold bind at 1, synthesis_phase.
    destruct (synthesize env query (inv_messages inv) (inv_keyFiles inv) (o_manager o1))
      as [sr cm'].
    destruct (syn_success sr); simpl;
      (eexists _, _; split_and!; [reflexivity|done|done]).
Qed.

End WithHost.

End AbortClaims.

(* ===================================================================== *)
(** * Properties of the predicates of the context manager                  *)
(* ===================================================================== *)

Module PredicateClaims.

Import Scenario.

(** The predicate of C2 as the claim words it. *)
Definition claimed_compressible (m : ChatMessage) : Prop :=
  compressed m = false /\
  meta_compressible m <> Some false /\
  (truthy_opt (meta_toolName m) = true \/ minTokensToCompress <= tokens m).

(** C2 fails on a short tool result: the claim calls it compressible,
    [isCompressible] returns false. *)
Lemma short_tool_result_not_compressible :
  claimed_compressible short_tool_result /\
  isCompressible short_tool_result = false.
Proof. split; [|reflexivity]. unfold claimed_compressible. simpl. split_and!; auto. Qed.

(** C2, as the code has it: a message is compressible iff it is not
    compressed, is not marked [compressible = false], and has at least
    [minTokensToCompress] tokens, whether or not it carries a tool name. *)
Theorem isCompressible_iff (m : ChatMessage) :
  isCompressible m = true <->
  compressed m = false /\
  meta_compressible m <> Some false /\
  minTokensToCompress <= tokens m.
Proof.
  unfold isCompressible.
  destruct (compressed m); [split; [done|intros [? _]; done]|].
  destruct (Z.ltb_spec (tokens m) minTokensToCompress).
  { split; [done|]. intros (_ & _ & H'). lia. }
  destruct (bool_decide (meta_compressible m = Some false)) eqn:E.
  { apply bool_decide_eq_true in E. split; [done|]. intros (_ & H' & _). done. }
  apply bool_decide_eq_false in E.
  destruct (truthy_opt (meta_toolName m)); [done|].
  rewrite Z.leb_le. split; intros; split_and?; try done; lia.
Qed.

(** The rule of C9 as the claim words it: every message with a failure
    marker in its content is dropped. *)
Definition has_failure_marker (m : ChatMessage) : bool :=
  includes (content m) (lit "执行失败") || includes (content m) (lit "错误:").

(** C9 fails on prose of the assistant: it contains a marker, and it is
    part of the synthesis input. *)
Lemma failure_prose_is_kept :
  has_failure_marker failure_prose = true /\
  List.map syn_key (getMessagesForSynthesis (manager_with [failure_prose]))
  = [key failure_prose].
Proof. split; vm_compute; reflexivity. Qed.

(** A tool result: a message of the user that carries a tool name. *)
Definition is_tool_result (m : ChatMessage) : bool :=
  bool_decide (role m = user) && truthy_opt (meta_toolName m).

(** What the synthesis filter drops. *)
Definition dropped (m : ChatMessage) : bool :=
  is_tool_result m
  && (has_failure_marker m || is_tool m "list_dir" || is_tool m "ripgrep").

Definition projection (m : ChatMessage) : SynthesisMessage :=
  mkSynthesisMessage (key m) (role m) (content m)
    (if is_tool_result m then meta_toolName m else None)
    (if is_tool_result m then meta_source m else None)
    (compressed m).

Lemma synthesis_entry_spec m :
  synthesis_entry m = if dropped m then None else Some (projection m).
Proof.
  unfold synthesis_entry, dropped, projection, is_tool_result, has_failure_marker.
  destruct (role m); simpl.
  - destruct (truthy_opt (meta_toolName m)); simpl; [|done].
    destruct (includes (content m) (lit "执行失败") || includes (content m) (lit "错误:"));
      simpl; [done|].
    destruct (is_tool m "list_dir"); simpl; [done|].
    destruct (is_tool m "ripgrep"); simpl; [done|].
    by destruct (is_tool m "read_file").
  - done.
Qed.

(** C9, as the code has it: the synthesis input is the list of messages
    without the tool results that contain a failure marker or come from
    [list_dir] or [ripgrep], in their order, each projected to its key,
    role, content and compressed flag, with tool name and source for tool
    results; messages of the assistant and messages of the user without
    tool name are kept whatever their content. *)
Theorem synthesis_filter (cm : ContextManager) :
  getMessagesForSynthesis cm
  = List.map projection
      (List.filter (fun m => negb (dropped m)) (getMessages cm)).
Proof.
  unfold getMessagesForSynthesis, getMessages.
  destruct (session cm) as [s|]; [|done].
  induction (messages s) as [|m ms IH]; [done|].
  change (omap synthesis_entry (m :: ms))
    with (match synthesis_entry m with
          | Some y => y :: omap synthesis_entry ms
          | None => omap synthesis_entry ms
          end).
  rewrite synthesis_entry_spec, IH. cbn [List.filter].
  by destruct (dropped m).
Qed.

End PredicateClaims.

(* ===================================================================== *)
(** * The properties at concrete inputs                                    *)
(* ===================================================================== *)

Module Instances.

Import Loop Orchestrator ExampleHost Scenario.

Lemma history5_fresh : NoDup (nanoids history5).
Proof. apply (bool_decide_unpack _). vm_compute. exact I. Defined.

Lemma history5_session :
  session (History.run no_encoder history5
             (new_manager no_encoder storage0 (Some small_budget) None))
  = Some (session_after history5).
Proof. vm_compute. reflexivity. Defined.

(** C1 on the session of [history5]. *)
Lemma totalTokens_is_sum_witness :
  totalTokens (session_after history5)
  = sum_tokens (messages (session_after history5)).
Proof.
  exact (ManagerClaims.totalTokens_is_sum no_encoder history5 storage0
           (Some small_budget) None (session_after history5)
           history5_fresh history5_session).
Defined.

(** C3 on the file of [history5], which the fifth message got compressed. *)
Lemma compressed_message_recall_witness :
  let m := first_message (session_after history5) in
  let cm := History.run no_encoder history5
              (new_manager no_encoder storage0 (Some small_budget) None) in
  exists r text md nano now,
    In (OpAddMessage r text md nano now) history5 /\
    key m = lit "msg_" ++ nano /\
    startsWith (content m) (lit "[COMPRESSED:") = true /\
    originalTokens m = Some (Tokens.estimateTokens no_encoder text) /\
    exists res cm',
      recall (key_string (key m)) cm = (Ok res, cm') /\
      session cm' = session cm /\
      (success res = true ->
         recalled res = text /\
         recalled_tokens res = Tokens.estimateTokens no_encoder text) /\
      ((forall msg f, fs_faults (storage cm) <> Some msg :: f) ->
         success res = true).
Proof.
  apply (ManagerClaims.compressed_message_recall no_encoder history5 storage0
           (Some small_budget) None (session_after history5)
           (first_message (session_after history5))
           history5_fresh history5_session).
  - vm_compute. left. reflexivity.
  - vm_compute. reflexivity.
Defined.

(** C8 on the session of [history5]: [compress] keeps its last four. *)
Lemma protected_tail_untouched_witness :
  exists s',
    session (state_after (compress no_encoder)
               (History.run no_encoder history5
                  (new_manager no_encoder storage0 (Some small_budget) None)))
    = Some s' /\
    protected_tail (messages s') = protected_tail (messages (session_after history5)).
Proof.
  exact (proj1 (proj2
           (ManagerClaims.protected_tail_untouched no_encoder history5 storage0
              (Some small_budget) None (session_after history5)
              history5_fresh history5_session))).
Defined.

(** C10 on an empty allowlist. *)
Lemma register_iff_accepted_witness :
  get_tool (register read_file_tool registry_empty_allowlist) (name read_file_tool)
  = Some read_file_tool.
Proof.
  apply (proj1 (proj2 (proj2 (proj2
           (RegistryClaims.register_iff_accepted read_file_tool
              registry_empty_allowlist))))).
  - reflexivity.
  - intros dis H. discriminate H.
Defined.

(** C4 after a [think] call. *)
Lemma self_check_gate_witness :
  (parseDecision [think_call] complete_text None
   = done complete_text
   <-> InvestigatorClaims.lastToolCallName [think_call]
       = Some (lit "think")) /\
  (parseDecision [think_call] complete_text None
   = requires_self_check complete_text
   <-> InvestigatorClaims.lastToolCallName [think_call]
       <> Some (lit "think")).
Proof.
  apply (InvestigatorClaims.self_check_gate
           [think_call] complete_text None).
  - vm_compute. reflexivity.
  - left. reflexivity.
  - assert (H : match rescueToolCallFromContent complete_text with
                | None => true
                | Some _ => false
                end = true) by (vm_compute; reflexivity).
    destruct (rescueToolCallFromContent complete_text);
      [discriminate H | reflexivity].
  - intros p [<-|[<-|[<-|[<-|[]]]]]; vm_compute; reflexivity.
Defined.

(** C7 on three identical reads with the threshold 3. *)
Lemma isStuck_iff_witness :
  exists b, isStuck 3 [same_read; same_read; same_read] = Ok b /\
    (b = true <->
     (Z.to_nat 3 <= length [same_read; same_read; same_read])%nat /\
     exists n s,
       Forall (fun d => exists a, d = tool_call n a /\ JSON_stringify a = s)
              (drop (length [same_read; same_read; same_read] - Z.to_nat 3)
                    [same_read; same_read; same_read])).
Proof.
  apply (InvestigatorClaims.isStuck_iff 3 [same_read; same_read; same_read]).
  lia.
Defined.

(** C6, where the code departs from it.  [abort()] is called while the
    first turn of an investigation runs: the run ends at the next loop
    head without an exception, but through the path of "Max iterations
    reached", so that its result has [success = true] and no error,
    where a cancelled run is to end with [success = false], as the
    orchestrator's own check after the investigation does. *)
Lemma aborted_investigation_succeeds :
  abort_called (abort_in_first_turn 1) = true /\
  match fst (investigate no_encoder prompt0 abort_in_first_turn
                         (lit "Test query") agent0) with
  | Ok r => inv_success r = true /\ iterations r = 1 /\ inv_error r = None
  | Throw _ => False
  end.
Proof. vm_compute. split_and!; reflexivity. Qed.

(** [abort_outcome] on an investigator that was aborted. *)
Lemma abort_outcome_witness :
  exists r ag',
    investigate_loop no_encoder prompt0 5 abort_in_first_turn (abort agent0)
    = (Ok r, ag') /\
    inv_success r = true /\ inv_error r = None /\
    iterations r = iteration (state (abort agent0)) /\
    findings r = gatherPartialFindings (contextManager (abort agent0)).
Proof.
  apply (proj1 (AbortClaims.abort_outcome no_encoder prompt0)).
  reflexivity.
Defined.

End Instances.

(* ===================================================================== *)
(** * Facts about the tool registry                                        *)
(* ===================================================================== *)

Module RegistryFacts.
Import RegistryClaims.

Lemma keys_set {V} (m : JsMap.t V) k v n :
  In n (JsMap.keys (JsMap.set m k v)) <-> n = k \/ In n (JsMap.keys m).
Proof.
  unfold JsMap.keys. induction m as [|[k' v'] m IH]; simpl.
  - intuition.
  - destruct (JS.eqb k' k) eqn:E; simpl.
    + apply ManagerFacts.eqb_true in E. subst. intuition.
    + rewrite IH. intuition.
Qed.

Lemma get_set_ne {V} (m : JsMap.t V) k v n :
  n <> k -> JsMap.get (JsMap.set m k v) n = JsMap.get m n.
Proof.
  intros Hn. induction m as [|[k' v'] m IH]; simpl.
  - destruct (JS.eqb k n) eqn:E; [|done].
    apply ManagerFacts.eqb_true in E. congruence.
  - destruct (JS.eqb k' k) eqn:E; simpl.
    + apply ManagerFacts.eqb_true in E. subst k'.
      destruct (JS.eqb k n) eqn:E2; [|done].
      apply ManagerFacts.eqb_true in E2. congruence.
    + by rewrite IH.
Qed.

Lemma get_Some_keys {V} (m : JsMap.t V) n :
  (exists v, JsMap.get m n = Some v) <-> In n (JsMap.keys m).
Proof.
  unfold JsMap.keys. induction m as [|[k v] m IH]; simpl.
  - split; [intros [? ?]; done|done].
  - destruct (JS.eqb k n) eqn:E.
    + apply ManagerFacts.eqb_true in E. split; eauto.
    + apply ManagerFacts.eqb_false in E. rewrite IH. intuition.
Qed.

Lemma register_config t reg : config (register t reg) = config reg.
Proof.
  destruct (accepted_dec (config reg) (name t)) as [H|H].
  - by rewrite register_accepted.
  - by rewrite register_rejected.
Qed.

Lemma registerAll_config ts reg : config (registerAll ts reg) = config reg.
Proof.
  revert reg. induction ts as [|t ts IH]; intros reg; [done|].
  simpl. change (config (registerAll ts (register t reg)) = config reg).
  by rewrite IH, register_config.
Qed.

Lemma registerAll_cons t ts reg :
  registerAll (t :: ts) reg = registerAll ts (register t reg).
Proof. reflexivity. Qed.

Lemma registerAll_app ts1 ts2 reg :
  registerAll (ts1 ++ ts2) reg = registerAll ts2 (registerAll ts1 reg).
Proof. unfold registerAll. apply fold_left_app. Qed.

(** A registry in which every tool is stored once, under its own name. *)
Definition well_keyed (reg : ToolRegistry) : Prop :=
  NoDup (JsMap.keys (tools reg)) /\
  Forall (fun kv => name (snd kv) = fst kv) (tools reg).

Lemma set_NoDup {V} (m : JsMap.t V) k v :
  NoDup (JsMap.keys m) -> NoDup (JsMap.keys (JsMap.set m k v)).
Proof.
  unfold JsMap.keys. induction m as [|[k' v'] m IH]; simpl; intros Hnd.
  - apply NoDup_singleton.
  - apply NoDup_cons in Hnd as [Hk Hnd].
    destruct (JS.eqb k' k) eqn:E; simpl.
    + apply NoDup_cons. done.
    + apply NoDup_cons. split; [|by apply IH].
      intros Hin. apply list_elem_of_In in Hin.
      apply (keys_set m k v k') in Hin as [->|Hin].
      * apply ManagerFacts.eqb_false in E. done.
      * apply Hk. by apply list_elem_of_In.
Qed.

Lemma register_well_keyed t reg : well_keyed reg -> well_keyed (register t reg).
Proof.
  intros [H1 H2].
  destruct (accepted_dec (config reg) (name t)) as [H|H].
  - rewrite register_accepted by done. split; simpl.
    + by apply set_NoDup.
    + clear H1. induction H2 as [|[k' v'] m Hx Hm IH]; simpl.
      * by constructor.
      * destruct (JS.eqb k' (name t)) eqn:E; constructor; try done.
        apply ManagerFacts.eqb_true in E. by subst.
  - by rewrite register_rejected.
Qed.

Lemma registerAll_well_keyed ts reg :
  well_keyed reg -> well_keyed (registerAll ts reg).
Proof.
  revert reg. induction ts as [|t ts IH]; intros reg H; [done|].
  rewrite registerAll_cons. by apply IH, register_well_keyed.
Qed.

Lemma get_In {V} (m : JsMap.t V) n v : JsMap.get m n = Some v -> In (n, v) m.
Proof.
  induction m as [|[k' v'] m IH]; simpl; [done|].
  destruct (JS.eqb k' n) eqn:E.
  - apply ManagerFacts.eqb_true in E. intros [= ->]. left. by subst.
  - auto.
Qed.

End RegistryFacts.

Module RegistryExtras.
Import RegistryClaims RegistryFacts.

(** X1. After [registerAll ts], the registry knows a name iff it knew it
    before or some tool of [ts] has that name and the configuration
    accepts it (not disabled; [enabledTools] absent, empty or holding
    it). *)
Theorem registered_names (ts : list Tool) (reg : ToolRegistry) (n : jsstring) :
  In n (getNames (registerAll ts reg)) <->
  In n (getNames reg) \/
  exists t, In t ts /\ name t = n /\ accepted (config reg) n.
Proof.
  revert reg. induction ts as [|t ts IH]; intros reg.
  - simpl. split; [auto|]. intros [H|(t & [] & _)]. done.
  - rewrite registerAll_cons, IH, register_config.
    destruct (accepted_dec (config reg) (name t)) as [Ha|Hn].
    + rewrite register_accepted by done. unfold getNames at 1. simpl.
      rewrite keys_set. split.
      * intros [[->|H]|(t' & Hin & Hn' & Ha')].
        -- right. exists t. auto.
        -- by left.
        -- right. exists t'. auto.
      * intros [H|(t' & [->|Hin] & Hn' & Ha')].
        -- left. by right.
        -- left. left. done.
        -- right. exists t'. auto.
    + rewrite register_rejected by done. simpl. split.
      * intros [H|(t' & Hin & Hn' & Ha')]; [by left|].
        right. exists t'. auto.
      * intros [H|(t' & [->|Hin] & Hn' & Ha')]; [by left| |].
        -- subst n. done.
        -- right. exists t'. auto.
Qed.

(** X2. Registering a tool under a name that is already taken replaces
    the earlier tool: of the accepted tools that share a name, [get]
    returns the one registered last. *)
Theorem last_registration_wins (ts1 ts2 : list Tool) (t : Tool) (reg : ToolRegistry) :
  accepted (config reg) (name t) ->
  Forall (fun t' => name t' <> name t) ts2 ->
  get_tool (registerAll (ts1 ++ t :: ts2) reg) (name t) = Some t.
Proof.
  intros Ha Hne. rewrite registerAll_app, registerAll_cons.
  set (reg1 := registerAll ts1 reg).
  assert (Hc : config reg1 = config reg) by apply registerAll_config.
  rewrite <- Hc in Ha.
  assert (H1 : get_tool (register t reg1) (name t) = Some t).
  { rewrite register_accepted by done. unfold get_tool. simpl. apply get_set. }
  revert H1. generalize (register t reg1). clear -Hne.
  induction Hne as [|t' ts2 Hn Hne IH]; intros r Hr; [done|].
  rewrite registerAll_cons. apply IH.
  destruct (accepted_dec (config r) (name t')) as [Ha|Hna].
  - rewrite register_accepted by done. unfold get_tool in *. simpl.
    rewrite get_set_ne by congruence. done.
  - by rewrite register_rejected.
Qed.

(** X3. In a registry built from an empty one, [getNames] has no
    duplicate, [getAll] lists the tools in the order of [getNames] and
    each under its own name, [has] holds exactly of the listed names, and
    what [get] returns is a listed tool of the name asked for. *)
Theorem registry_listing (cfg : ToolRegistryConfig) (ts : list Tool) :
  let reg := registerAll ts (new_registry cfg) in
  NoDup (getNames reg) /\
  List.map name (getAll reg) = getNames reg /\
  (forall n, has reg n = true <-> In n (getNames reg)) /\
  (forall n t, get_tool reg n = Some t -> name t = n /\ In t (getAll reg)).
Proof.
  intros reg.
  assert (Hwk : well_keyed reg).
  { apply registerAll_well_keyed. split; [apply NoDup_nil_2|constructor]. }
  destruct Hwk as [H1 H2]. split_and!.
  - exact H1.
  - unfold getAll, getNames, JsMap.values, JsMap.keys.
    rewrite map_map. apply map_ext_in. intros kv Hkv.
    apply list_elem_of_In in Hkv.
    exact (proj1 (Forall_forall _ _) H2 kv Hkv).
  - intros n. unfold has, JsMap.has, getNames. rewrite <- get_Some_keys.
    destruct (JsMap.get (tools reg) n); split; eauto; try done.
    intros [? ?]; done.
  - intros n t Hg. apply get_In in Hg.
    split.
    + apply list_elem_of_In in Hg.
      exact (proj1 (Forall_forall _ _) H2 (n, t) Hg).
    + unfold getAll, JsMap.values. by apply (in_map snd) in Hg.
Qed.

End RegistryExtras.

(* ===================================================================== *)
(** * The session files                                                    *)
(* ===================================================================== *)

Module StorageExtras.
Import ManagerFacts.
Local Open Scope eff_scope.

(** The next [n] file-system calls succeed. *)
Definition fs_ok (n : nat) (st : ContextStorage) : Prop :=
  Forall (fun o => o = None) (take n (fs_faults st)).

(** What [loadMessageContent] restores from the file of [m]. *)
Definition restored (m : ChatMessage) : ChatMessage :=
  mkChatMessage (key m) (role m) (content m) (tokens m) false None
                (timestamp m) (metadata m).

Lemma fs_call_ok n st :
  fs_ok (S n) st ->
  exists st', fs_call st = (Ok tt, st') /\ fs_ok n st' /\
    paths_base st' = paths_base st /\
    paths_sessions st' = paths_sessions st /\ initialized st' = initialized st /\
    session_files st' = session_files st /\ message_files st' = message_files st /\
    turn_files st' = turn_files st.
Proof.
  unfold fs_ok, fs_call. destruct st as [pb ps i sf mf tf faults]. simpl.
  destruct faults as [|[msg|] f]; simpl; intros H.
  - eexists. split; [reflexivity|]. simpl. split_and!; try done.
    by destruct n.
  - apply Forall_cons in H as [H _]. done.
  - apply Forall_cons in H as [_ H]. eexists. split; [reflexivity|]. done.
Qed.

(** X4. When the two file-system calls succeed, [loadMessageContent]
    after [saveMessageContent] returns the message that was saved, with
    its key, role, content, tokens, time stamp and metadata, marked as not
    compressed: a message that was not compressed comes back unchanged. *)
Theorem save_then_load (sessionId : jsstring) (m : ChatMessage) (st : ContextStorage) :
  fs_ok 2 st ->
  exists st1 st2,
    saveMessageContent sessionId m st
      = (Ok (message_path st sessionId (key m)), st1) /\
    loadMessageContent sessionId (key m) st1 = (Ok (Some (restored m)), st2) /\
    (compressed m = false -> originalTokens m = None -> restored m = m).
Proof.
  intros Hok.
  destruct (fs_call_ok 1 st Hok) as (sta & Ha & Hoka & _ & Hps & Hi & Hsf & Hmf & Htf).
  set (p := message_path st sessionId (key m)).
  set (st1 := mkStorage (paths_base sta) (paths_sessions sta) (initialized sta)
                (session_files sta)
                (<[p := stored_of m]> (message_files sta))
                (turn_files sta) (fs_faults sta)).
  assert (Hok1 : fs_ok 1 st1) by exact Hoka.
  destruct (fs_call_ok 0 st1 Hok1) as (stb & Hb & _).
  exists st1, stb. split_and!.
  - unfold saveMessageContent, bind at 1, get at 1. unfold bind at 1. rewrite Ha.
    reflexivity.
  - unfold loadMessageContent, bind at 1, get at 1.
    replace (message_path st1 sessionId (key m)) with p
      by (unfold p, message_path; simpl; by rewrite Hps).
    simpl. rewrite lookup_insert_eq.
    unfold try_catch, bind. rewrite Hb. reflexivity.
  - intros Hc Ho. destruct m. simpl in *. by subst.
Qed.






End StorageExtras.

(* ===================================================================== *)
(** * The token budget                                                     *)
(* ===================================================================== *)

Module BudgetFacts.
Import ManagerFacts.
Local Open Scope eff_scope.

Definition reserved (cfg : BudgetConfig) : Z :=
  reservedForSynthesis cfg + reservedForRecalls cfg + reservedForNextSteps cfg.

(** The budget of the session is one that [calculateBudget] computed for
    this system prompt, and the tokens it counts for the messages cover
    those of the session. *)
Definition budget_ok (cm : ContextManager) (s : Session) : Prop :=
  let b := budget s in
  total b = contextWindow (budgetConfig cm) /\
  breakdown_reserved b = reserved (budgetConfig cm) /\
  breakdown_systemPrompt b = systemPromptTokens cm /\
  used b = breakdown_systemPrompt b + breakdown_messages b /\
  available b = Z.max 0 (total b - used b - breakdown_reserved b) /\
  totalTokens s <= breakdown_messages b.

Definition tokens_nonneg (ms : list ChatMessage) : Prop :=
  Forall (fun m => 0 <= tokens m) ms.

Definition budget_inv (cfg : BudgetConfig) (cm : ContextManager) : Prop :=
  budgetConfig cm = cfg /\
  forall s, session cm = Some s -> budget_ok cm s /\ tokens_nonneg (messages s).

Lemma budget_inv_storage cfg cm st :
  budget_inv cfg cm -> budget_inv cfg (with_storage st cm).
Proof. intros H. exact H. Qed.

Lemma refresh_budget_inv cm s :
  session cm = Some s -> tokens_nonneg (messages s) ->
  budget_inv (budgetConfig cm) (refresh_budget cm).
Proof.
  intros Hs Hn. unfold refresh_budget. rewrite Hs. split; [done|].
  intros s' [= <-]. split; [|done].
  unfold budget_ok, calculateBudget, reserved. simpl. rewrite Hs.
  split_and!; (done || lia).
Qed.

Lemma Forall_List_filter {A} (P : A -> Prop) (f : A -> bool) l :
  Forall P l -> Forall P (List.filter f l).
Proof.
  induction 1 as [|x l Hx Hl IH]; simpl; [done|].
  destruct (f x); [by constructor|done].
Qed.

Lemma sum_tokens_nonneg ms : tokens_nonneg ms -> 0 <= sum_tokens ms.
Proof. induction 1; simpl; [lia|]. lia. Qed.

Lemma discardOldestMessages_shape ttf s :
  tokens_nonneg (messages s) ->
  exists freed ks, 0 <= freed /\
    discardOldestMessages ttf s
    = set_totalTokens (totalTokens s - freed)
        (set_messages (List.filter (fun m => negb (key_in ks m)) (messages s)) s).
Proof.
  intros Hn. unfold discardOldestMessages.
  destruct (discard_scan_spec (slice (messages s) 0 (- protectedRecentMessages))
              ttf 0 []) as (j & _ & ->).
  eexists _, _. split; [|reflexivity].
  apply sum_tokens_nonneg. apply Forall_take.
  rewrite slice_protected. by apply Forall_take.
Qed.

Lemma discard_budget_inv cm s ttf :
  session cm = Some s -> budget_inv (budgetConfig cm) cm ->
  budget_inv (budgetConfig cm) (with_session (Some (discardOldestMessages ttf s)) cm).
Proof.
  intros Hs [_ H]. destruct (H s Hs) as [Hb Hn].
  destruct (discardOldestMessages_shape ttf s Hn) as (freed & ks & Hf & ->).
  split; [done|]. intros s' [= <-]. split.
  - destruct Hb as (?&?&?&?&?&?). unfold budget_ok. simpl. split_and!; (done || lia).
  - simpl. by apply Forall_List_filter.
Qed.


Section WithEncoder.

Variable encode : jsstring -> option Z.
Hypothesis encode_nonneg : forall text n, encode text = Some n -> 0 <= n.

Lemma estimateTokens_nonneg text : 0 <= Tokens.estimateTokens encode text.
Proof.
  unfold Tokens.estimateTokens. destruct (negb (truthy text)); [lia|].
  destruct (encode text) as [n|] eqn:E; [by eapply encode_nonneg|].
  apply Z.div_pos; lia.
Qed.

Lemma update_found_Forall (P : ChatMessage -> Prop) k f ms :
  (forall m, P (f m)) -> Forall P ms -> Forall P (update_found k f ms).
Proof.
  intros Hf. induction 1 as [|m ms Hm Hms IH]; simpl; [done|].
  destruct (JS.eqb (key m) k); constructor; auto.
Qed.

Lemma compress_loop_shape cands ttf freed s :
  tokens_nonneg (messages s) ->
  exists freed' ms' t',
    compress_loop encode cands ttf freed s
    = (freed', set_totalTokens t' (set_messages ms' s)) /\
    tokens_nonneg ms'.
Proof.
  revert freed s. induction cands as [|c more IH]; intros freed s Hn.
  - exists freed, (messages s), (totalTokens s). by destruct s.
  - rewrite compress_loop_cons. destruct (ttf <=? freed).
    { exists freed, (messages s), (totalTokens s). by destruct s. }
    destruct (find _ (messages s)) as [m|]; [|by apply IH].
    destruct (compressed m); [by apply IH|].
    cbv zeta.
    match goal with |- context [compress_loop encode more ttf ?f ?s1] =>
      destruct (IH f s1) as (freed' & ms' & t' & Heq & Hn') end.
    { simpl. apply update_found_Forall; [|done].
      intros _. simpl. apply estimateTokens_nonneg. }
    exists freed', ms', t'. split; [|done]. rewrite Heq. by destruct s.
Qed.

Lemma compress_budget_inv cm :
  budget_inv (budgetConfig cm) cm ->
  budget_inv (budgetConfig cm) (snd (compress encode cm)).
Proof.
  intros Hinv. unfold compress, bind at 1, get at 1.
  destruct (session cm) as [s|] eqn:Hs; [|done].
  destruct (proj2 Hinv s Hs) as [Hb Hn].
  destruct (calculateTokensToFree cm <=? 0); [done|].
  destruct (length (getCompressionCandidates cm) =? 0)%nat.
  { by apply discard_budget_inv. }
  destruct (compress_loop_shape (sort_candidates (getCompressionCandidates cm))
              (calculateTokensToFree cm) 0 s Hn) as (freed & ms' & t' & -> & Hn').
  set (s1 := set_totalTokens t' (set_messages ms' s)).
  set (s2 := if freed <? calculateTokensToFree cm
             then discardOldestMessages (calculateTokensToFree cm - freed) s1
             else s1).
  assert (Hn2 : tokens_nonneg (messages s2)).
  { unfold s2. destruct (freed <? _); [|done].
    destruct (discardOldestMessages_shape (calculateTokensToFree cm - freed) s1 Hn')
      as (f & ks & _ & ->). simpl. by apply Forall_List_filter. }
  unfold bind, modify, get. simpl.
  unfold in_storage, lift.
  match goal with |- context [saveSession ?a ?b] => destruct (saveSession a b) as [r st'] end.
  simpl. apply budget_inv_storage.
  exact (refresh_budget_inv (with_session (Some s2) cm) s2 eq_refl Hn2).
Qed.

Lemma finish_add_budget_inv m s cm :
  tokens_nonneg (messages s) -> 0 <= tokens m ->
  budget_inv (budgetConfig cm) (snd (finish_add encode m s cm)).
Proof.
  intros Hn Hm. unfold finish_add.
  unfold bind at 1, modify at 1. unfold bind at 1, modify at 1.
  unfold bind at 1, get at 1.
  set (cm1 := refresh_budget (with_session (Some (pushed m s)) cm)).
  assert (H1 : budget_inv (budgetConfig cm) cm1).
  { apply (refresh_budget_inv (with_session (Some (pushed m s)) cm) (pushed m s) eq_refl).
    simpl. apply Forall_app. split; [done|]. by apply Forall_singleton. }
  assert (H2 : budget_inv (budgetConfig cm)
                 (snd ((if needsCompression cm1 then compress encode else ret tt) cm1))).
  { destruct (needsCompression cm1); [|exact H1]. exact (compress_budget_inv cm1 H1). }
  unfold bind at 1.
  destruct ((if needsCompression cm1 then compress encode else ret tt) cm1)
    as [[[]|e] cm2]; [|done].
  unfold bind at 1, get at 1. unfold bind at 1, in_storage, lift.
  match goal with |- context [saveSession ?a ?b] => destruct (saveSession a b) as [r st'] end.
  destruct r; simpl; exact H2.
Qed.

Lemma addMessage_budget_inv r text md nano now cm :
  budget_inv (budgetConfig cm) cm ->
  budget_inv (budgetConfig cm) (snd (addMessage encode r text md nano now cm)).
Proof.
  intros Hinv. rewrite addMessage_unfold. unfold bind at 1, get at 1.
  destruct (session cm) as [s|] eqn:Hs; [|done].
  destruct (proj2 Hinv s Hs) as [Hb Hn]. cbv zeta.
  set (m := new_message encode r text md nano now).
  assert (Hm : 0 <= tokens m) by apply estimateTokens_nonneg.
  destruct (isCompressible m).
  - unfold bind at 1. unfold bind at 1. unfold in_storage, lift.
    destruct (saveMessageContent (id s) m (storage cm)) as [[p|e] st'];
      [|exact Hinv].
    unfold ret at 1.
    match goal with |- context [finish_add encode m ?sX ?c] =>
      exact (finish_add_budget_inv m sX c Hn Hm) end.
  - unfold bind at 1, ret at 1. by apply finish_add_budget_inv.
Qed.

Lemma step_budget_inv cm op :
  budget_inv (budgetConfig cm) cm ->
  budget_inv (budgetConfig cm) (step encode cm op).
Proof.
  intros Hinv.
  destruct op as [q w nano now|r text md nano now| |request_key|n| |t];
    simpl; unfold state_after.
  - unfold initSession. unfold bind at 1. unfold in_storage, lift.
    destruct (createSession_effect q w nano now (storage cm))
      as (r & st' & -> & _ & Hr).
    destruct r as [s|e]; [|exact Hinv].
    destruct (Hr s eq_refl) as (_ & Hm & _). simpl.
    apply (refresh_budget_inv (with_session (Some s) (with_storage st' cm)) s eq_refl).
    rewrite Hm. constructor.
  - by apply addMessage_budget_inv.
  - by apply compress_budget_inv.
  - destruct (recall_effect request_key cm) as (res & st' & -> & _). exact Hinv.
  - unfold setSystemPromptTokens, bind, modify. simpl.
    destruct (session cm) as [s|] eqn:Hs.
    + apply (refresh_budget_inv (with_systemPromptTokens n cm) s Hs).
      exact (proj2 (proj2 Hinv s Hs)).
    + unfold refresh_budget. simpl. rewrite Hs. split; [done|]. simpl.
      intros s. rewrite Hs. done.
  - unfold save, bind, get. destruct (session cm) as [s|]; [|exact Hinv].
    unfold in_storage, lift. destruct (saveSession s (storage cm)). exact Hinv.
  - unfold saveLLMTurn, bind at 1, get. destruct (session cm) as [s|]; [|exact Hinv].
    unfold bind, in_storage, lift.
    destruct (storage_saveLLMTurn (id s) t (storage cm)) as [[?|?] ?]; exact Hinv.
Qed.

Lemma run_budget_inv ops cm :
  budget_inv (budgetConfig cm) cm ->
  budget_inv (budgetConfig cm) (run encode ops cm).
Proof.
  intros H. induction ops as [|op ops IH] using rev_ind; [done|].
  rewrite run_snoc.
  assert (Hc : budgetConfig (run encode ops cm) = budgetConfig cm) by apply IH.
  rewrite <- Hc. apply step_budget_inv. by rewrite Hc.
Qed.

End WithEncoder.

End BudgetFacts.

Module ManagerExtras.
Import ManagerFacts BudgetFacts.

(** X6. In every state that a history of public calls reaches, with an
    encoder that counts no text negative, the budget of the session is
    consistent: its total is the configured context window, its reserve
    the sum of the three configured reserves, [used] is the system prompt
    plus the messages, [available] is what is left of the total after
    [used] and the reserve, never below 0, and the tokens it counts for
    the messages are at least the session's [totalTokens]. *)
Theorem budget_is_consistent (encode : jsstring -> option Z)
    (ops : list Op) (st : ContextStorage) (cfg : option BudgetConfig)
    (sp : option jsstring) (s : Session) :
  (forall text n, encode text = Some n -> 0 <= n) ->
  let cm := run encode ops (new_manager encode st cfg sp) in
  session cm = Some s ->
  let b := budget s in
  budgetConfig cm = default DEFAULT_BUDGET_CONFIG cfg /\
  total b = contextWindow (budgetConfig cm) /\
  breakdown_reserved b
    = reservedForSynthesis (budgetConfig cm) + reservedForRecalls (budgetConfig cm)
      + reservedForNextSteps (budgetConfig cm) /\
  breakdown_systemPrompt b = systemPromptTokens cm /\
  used b = breakdown_systemPrompt b + breakdown_messages b /\
  available b = Z.max 0 (total b - used b - breakdown_reserved b) /\
  totalTokens s <= breakdown_messages b.
Proof.
  intros Henc cm Hs b.
  assert (H0 : budget_inv (budgetConfig (new_manager encode st cfg sp))
                 (new_manager encode st cfg sp)) by (split; [done|]; intros ? [=]).
  pose proof (run_budget_inv encode Henc ops _ H0) as [Hc Hinv].
  fold cm in Hc, Hinv. destruct (Hinv s Hs) as [(H1&H2&H3&H4&H5&H6) Hn].
  split_and!; done.
Qed.

End ManagerExtras.

(* ===================================================================== *)
(** * The messages of a session                                            *)
(* ===================================================================== *)

Module HistoryFacts.
Import ManagerFacts.
Local Open Scope eff_scope.

(** The keys that [addMessage] gave, in the order of the calls. *)
Definition added_keys (ops : list Op) : list jsstring :=
  List.map (app (lit "msg_")) (nanoids ops).

Lemma added_keys_snoc ops op :
  added_keys (ops ++ [op]) = added_keys ops ++ added_keys [op].
Proof. unfold added_keys. by rewrite nanoids_snoc, map_app. Qed.

Lemma last_protected_tail (ms : list ChatMessage) :
  last (protected_tail ms) = last ms.
Proof.
  unfold protected_tail.
  destruct ms as [|m ms]; [done|].
  rewrite !last_lookup, length_drop, lookup_drop. f_equal.
  simpl length. unfold protectedRecentMessages. lia.
Qed.

Lemma last_map {A B} (f : A -> B) (l : list A) :
  last (List.map f l) = option_map f (last l).
Proof.
  induction l as [|x l IH] using rev_ind; [done|].
  rewrite map_app. simpl. by rewrite !last_snoc.
Qed.

Section WithEncoder.

Variable encode : jsstring -> option Z.

Lemma compressed_session_keys s s' :
  compressed_session encode s s' ->
  sublist (List.map key (messages s')) (List.map key (messages s)).
Proof.
  intros (_ & ms1 & j & HF & _ & _ & -> & _).
  rewrite <- (compressed_from_keys encode _ _ HF), <- skipn_map.
  apply sublist_drop.
Qed.

Lemma compressed_session_last s s' :
  compressed_session encode s s' -> last (messages s') = last (messages s).
Proof.
  intros H. rewrite <- (last_protected_tail (messages s')),
    <- (last_protected_tail (messages s)).
  f_equal. by eapply compressed_session_tail.
Qed.

Lemma addMessage_keys ops r text md nano now cm s :
  session cm = Some s ->
  manager_ok encode ops cm ->
  ~ In (lit "msg_" ++ nano) (List.map key (messages s)) ->
  exists s', session (snd (addMessage encode r text md nano now cm)) = Some s' /\
    sublist (List.map key (messages s'))
            (List.map key (messages s) ++ [lit "msg_" ++ nano]).
Proof.
  intros Hs Hok Hfresh.
  destruct (Hok s Hs) as (_ & Hnd & _).
  rewrite addMessage_unfold. unfold bind at 1, get at 1. rewrite Hs. cbv zeta.
  set (m := new_message encode r text md nano now).
  assert (Hpush : forall sX, messages sX = messages s ->
            NoDup (List.map key (messages (pushed m sX)))).
  { intros sX HX. simpl. rewrite HX, map_app. apply NoDup_app. split_and!; [done| |].
    - intros x Hx [E|[]]%list_elem_of_In. subst x. apply Hfresh.
      by apply list_elem_of_In.
    - apply NoDup_singleton. }
  assert (Hfin : forall sX c, messages sX = messages s ->
            exists s', session (snd (finish_add encode m sX c)) = Some s' /\
              sublist (List.map key (messages s'))
                      (List.map key (messages s) ++ [lit "msg_" ++ nano])).
  { intros sX c HX.
    destruct (finish_add_effect encode m sX c (Hpush sX HX))
      as (res & cm' & s' & -> & _ & Hs' & _ & Hcs).
    exists s'. split; [done|].
    apply compressed_session_keys in Hcs. simpl in Hcs.
    rewrite HX, map_app in Hcs. exact Hcs. }
  destruct (isCompressible m).
  - unfold bind at 1. unfold bind at 1. unfold in_storage, lift.
    destruct (saveMessageContent (id s) m (storage cm)) as [[p|e] st'].
    + unfold ret at 1. by apply Hfin.
    + exists s. split; [done|]. by apply sublist_inserts_r.
  - unfold bind at 1, ret at 1. by apply Hfin.
Qed.

Lemma run_ordered ops cm0 :
  session cm0 = None -> NoDup (nanoids ops) ->
  forall s, session (run encode ops cm0) = Some s ->
    sublist (List.map key (messages s)) (added_keys ops).
Proof.
  intros H0. induction ops as [|op ops IH] using rev_ind; intros Hnd s' Hs'.
  { simpl in Hs'. congruence. }
  pose proof Hnd as Hnd'.
  rewrite nanoids_snoc in Hnd. apply NoDup_app in Hnd as (Hnd & Hdisj & _).
  pose proof (run_ok encode ops cm0 H0 Hnd) as Hok.
  rewrite run_snoc in Hs'. rewrite added_keys_snoc.
  set (cm := run encode ops cm0) in *.
  assert (Hsame : same_messages cm (step encode cm op) ->
            sublist (List.map key (messages s')) (added_keys ops ++ added_keys [op])).
  { intros [_ H]. destruct (H s' Hs') as [[-> _]|(s & Hs & _ & -> & _)].
    - apply sublist_nil_l.
    - apply sublist_inserts_r. by apply IH. }
  destruct (session cm) as [s|] eqn:Hs.
  2: { apply Hsame, step_same. by destruct op. }
  destruct op as [q w nano now|r text md nano now| |request_key|n| |t];
    try (apply Hsame; by apply step_same).
  - simpl in Hs'. unfold state_after in Hs'.
    destruct (addMessage_keys ops r text md nano now cm s Hs Hok) as (s1 & Hs1 & Hsub).
    { eapply fresh_key; eauto. intros Hin. apply (Hdisj nano).
      - by apply list_elem_of_In.
      - apply list_elem_of_In. by left. }
    rewrite Hs1 in Hs'. injection Hs' as <-.
    etrans; [exact Hsub|]. apply sublist_app; [by apply IH|done].
  - simpl in Hs'. unfold state_after in Hs'.
    destruct (Hok s Hs) as (_ & Hkeys & _).
    destruct (compress_effect encode cm s Hs Hkeys) as (rc & stc & sc & Hc & _ & Hcs).
    rewrite Hc in Hs'. injection Hs' as <-.
    apply sublist_inserts_r. etrans; [by apply compressed_session_keys|by apply IH].
Qed.

End WithEncoder.

End HistoryFacts.

Module HistoryExtras.
Import ManagerFacts HistoryFacts.

(** X7. When [nanoid] never repeats, the messages of a session have
    distinct keys and stand in the order in which they were added, and
    each one comes from a call of [addMessage]: it has the key, role,
    time stamp and metadata of that call, and either its content and
    token count, or, once compressed, the call's token count as
    [originalTokens] and the tokens of its placeholder. *)
Theorem messages_are_added_messages (encode : jsstring -> option Z)
    (ops : list Op) (st : ContextStorage) (cfg : option BudgetConfig)
    (sp : option jsstring) (s : Session) :
  NoDup (nanoids ops) ->
  session (run encode ops (new_manager encode st cfg sp)) = Some s ->
  NoDup (List.map key (messages s)) /\
  sublist (List.map key (messages s)) (List.map (app (lit "msg_")) (nanoids ops)) /\
  forall m, In m (messages s) ->
    exists r text md nano now,
      In (OpAddMessage r text md nano now) ops /\
      key m = lit "msg_" ++ nano /\ role m = r /\ timestamp m = now /\
      metadata m = md /\
      if compressed m
      then originalTokens m = Some (Tokens.estimateTokens encode text) /\
           tokens m = Tokens.estimateTokens encode (content m)
      else originalTokens m = None /\ content m = text /\
           tokens m = Tokens.estimateTokens encode text.
Proof.
  intros Hnd Hs.
  destruct (run_ok encode ops (new_manager encode st cfg sp) eq_refl Hnd s Hs)
    as (_ & Hkeys & Hprov).
  split_and!; [done|exact (run_ordered encode ops (new_manager encode st cfg sp) eq_refl Hnd s Hs)|].
  intros m Hin.
  pose proof (proj1 (Forall_forall _ _) Hprov m
                (proj2 (list_elem_of_In _ _) Hin)) as (m0 & (op & Hop & Hadd) & Hm).
  destruct op as [| r text md nano now | | | | |]; try done.
  simpl in Hadd. subst m0. exists r, text, md, nano, now.
  destruct Hm as [[-> _]|[-> _]]; simpl; split_and!; done.
Qed.

(** X8. A call of [addMessage] that returns gives back the message it
    built (not compressed, with the estimated tokens of its text), and
    whatever compression it triggered, that message is afterwards the
    last one of [getMessages] and of [getMessagesForLLM]. *)
Theorem added_message_is_last (encode : jsstring -> option Z)
    (ops : list Op) (st : ContextStorage) (cfg : option BudgetConfig)
    (sp : option jsstring) (r : Role) (text : jsstring) (md : option Metadata)
    (nano : jsstring) (now : Z) (m : ChatMessage) (cm' : ContextManager) :
  NoDup (nanoids ops) -> ~ In nano (nanoids ops) ->
  addMessage encode r text md nano now
             (run encode ops (new_manager encode st cfg sp)) = (Ok m, cm') ->
  m = mkChatMessage (lit "msg_" ++ nano) r text (Tokens.estimateTokens encode text)
                    false None now md /\
  last (getMessages cm') = Some m /\
  last (getMessagesForLLM cm') = Some (r, text).
Proof.
  intros Hnd Hfresh Hadd.
  set (cm := run encode ops (new_manager encode st cfg sp)) in *.
  pose proof (run_ok encode ops (new_manager encode st cfg sp) eq_refl Hnd) as Hok.
  fold cm in Hok.
  destruct (session cm) as [s|] eqn:Hs.
  2: { unfold addMessage, bind, get in Hadd. rewrite Hs in Hadd. done. }
  destruct (addMessage_effect encode ops r text md nano now cm s Hs Hok)
    as (res & cm'' & s' & Heq & _ & Hres & Hs' & _ & Hcs).
  { by eapply fresh_key. }
  rewrite Heq in Hadd. injection Hadd as -> ->.
  destruct Hres as [Hres|[e Hres]]; [|done]. injection Hres as Hm.
  subst m. specialize (Hcs eq_refl). apply compressed_session_last in Hcs.
  simpl in Hcs. rewrite last_snoc in Hcs.
  split_and!.
  - done.
  - unfold getMessages. by rewrite Hs', Hcs.
  - unfold getMessagesForLLM. by rewrite Hs', last_map, Hcs.
Qed.

End HistoryExtras.

(* ===================================================================== *)
(** * Eviction and the order of compression                                *)
(* ===================================================================== *)

Module CompressionFacts.
Import ManagerFacts.

Lemma discard_scan_least discardable ttf freed td :
  exists j, (j <= length discardable)%nat /\
    discard_scan discardable ttf freed td
    = (freed + sum_tokens (take j discardable),
       td ++ List.map key (take j discardable)) /\
    ((j < length discardable)%nat -> ttf <= freed + sum_tokens (take j discardable)) /\
    (forall i, (i < j)%nat -> freed + sum_tokens (take i discardable) < ttf).
Proof.
  revert freed td. induction discardable as [|m more IH]; intros freed td; simpl.
  - exists 0%nat. simpl. rewrite app_nil_r, Z.add_0_r. split_and!; auto; lia.
  - destruct (Z.leb_spec ttf freed).
    + exists 0%nat. simpl. rewrite app_nil_r, Z.add_0_r. split_and!; auto; lia.
    + destruct (IH (freed + tokens m) (td ++ [key m])) as (j & Hj & -> & H1 & H2).
      exists (S j). simpl. split_and!.
      * lia.
      * rewrite <- app_assoc. simpl. f_equal. lia.
      * intros Hlt. specialize (H1 ltac:(lia)). lia.
      * intros [|i] Hi; simpl; [lia|]. specialize (H2 i ltac:(lia)). lia.
Qed.

Lemma compare_skew a b : compareCandidates a b = - compareCandidates b a.
Proof.
  unfold compareCandidates.
  destruct (Z.eqb_spec (priorityOrder (priority a)) (priorityOrder (priority b))) as [E|E];
    destruct (Z.eqb_spec (priorityOrder (priority b)) (priorityOrder (priority a)));
    simpl; try lia.
Qed.

(** [a] may stand before [b] in the sorted array. *)
Definition precedes (a b : CompressionROI) : Prop :=
  priorityOrder (priority a) < priorityOrder (priority b) \/
  (priority a = priority b /\ savings b <= savings a).

Lemma precedes_compare a b : precedes a b <-> compareCandidates a b <= 0.
Proof.
  unfold precedes, compareCandidates.
  destruct (Z.eqb_spec (priorityOrder (priority a)) (priorityOrder (priority b))) as [E|E];
    simpl.
  - assert (priority a = priority b)
      by (destruct (priority a), (priority b); simpl in E; congruence || lia).
    split; [intros [?|[_ ?]]; lia|intros; right; split; [done|lia]].
  - split; [intros [?|[E' _]]; [lia|by rewrite E' in E]|intros; left; lia].
Qed.

Lemma precedes_trans a b c : precedes a b -> precedes b c -> precedes a c.
Proof.
  unfold precedes. intros [H1|[E1 H1]] [H2|[E2 H2]].
  - left. lia.
  - left. by rewrite <- E2.
  - left. by rewrite E1.
  - right. split; [congruence|lia].
Qed.

Lemma sort_insert_perm x l : Permutation (x :: l) (sort_insert x l).
Proof.
  induction l as [|y l IH]; simpl; [done|].
  destruct (compareCandidates y x <? 0); [|done].
  rewrite perm_swap. by constructor.
Qed.

Lemma sort_insert_sorted x l :
  Sorted precedes l -> Sorted precedes (sort_insert x l).
Proof.
  induction 1 as [|y l Hl IH Hy]; simpl.
  - repeat constructor.
  - destruct (Z.ltb_spec (compareCandidates y x) 0) as [Hlt|Hge].
    + constructor; [exact IH|].
      destruct l as [|z l]; simpl.
      * constructor. apply precedes_compare. lia.
      * destruct (compareCandidates z x <? 0); constructor.
        -- by inversion Hy.
        -- apply precedes_compare. lia.
    + constructor; [by constructor|]. constructor.
      apply precedes_compare. rewrite compare_skew. lia.
Qed.

End CompressionFacts.

Module CompressionExtras.
Import ManagerFacts CompressionFacts.

(** X9. [discardOldestMessages] removes a prefix of the messages and
    takes its tokens off [totalTokens]; the prefix never reaches into the
    last four messages, it is the shortest one that frees [tokensToFree]
    tokens, and it frees less only when every message before the last
    four is gone. *)
Theorem eviction_frees_least_prefix (tokensToFree : Z) (s : Session) :
  NoDup (List.map key (messages s)) ->
  let n := (length (messages s) - Z.to_nat protectedRecentMessages)%nat in
  exists j, (j <= n)%nat /\
    messages (discardOldestMessages tokensToFree s) = drop j (messages s) /\
    totalTokens (discardOldestMessages tokensToFree s)
      = totalTokens s - sum_tokens (take j (messages s)) /\
    ((j < n)%nat -> tokensToFree <= sum_tokens (take j (messages s))) /\
    (forall i, (i < j)%nat -> sum_tokens (take i (messages s)) < tokensToFree).
Proof.
  intros Hnd n. unfold discardOldestMessages. rewrite slice_protected. fold n.
  destruct (discard_scan_least (take n (messages s)) tokensToFree 0 [])
    as (j & Hj & -> & H1 & H2).
  rewrite length_take in Hj, H1.
  assert (Hjn : (j <= n)%nat) by lia.
  assert (Ht : forall i, (i <= j)%nat ->
            take i (take n (messages s)) = take i (messages s)).
  { intros i Hi. rewrite take_take. f_equal. lia. }
  exists j. simpl. rewrite (Ht j) by lia. split_and!.
  - done.
  - by apply filter_keys_drop.
  - lia.
  - intros Hlt. assert (Hn : (n <= length (messages s))%nat) by (unfold n; lia).
    rewrite Ht in H1 by lia. specialize (H1 ltac:(lia)). lia.
  - intros i Hi. specialize (H2 i Hi). rewrite Ht in H2 by lia. lia.
Qed.

(** X10. The order in which [compress] tries the candidates is a
    rearrangement of them in which a lower [priorityOrder] comes first
    and, within one priority, the larger saving. *)
Theorem candidates_are_tried_in_order (candidates : list CompressionROI) :
  Permutation candidates (sort_candidates candidates) /\
  StronglySorted precedes (sort_candidates candidates).
Proof.
  split.
  - induction candidates as [|c l IH]; simpl; [done|].
    etrans; [|apply sort_insert_perm]. by constructor.
  - apply Sorted_StronglySorted.
    + intros a b c. apply precedes_trans.
    + induction candidates as [|c l IH]; simpl; [constructor|].
      by apply sort_insert_sorted.
Qed.

End CompressionExtras.

(* ===================================================================== *)
(** * Placeholders and candidates                                          *)
(* ===================================================================== *)

Module TextFacts.

Lemma includes_app_r p s sub : includes s sub = true -> includes (p ++ s) sub = true.
Proof.
  intros H. induction p as [|c p IH]; [done|].
  simpl. rewrite IH. apply orb_true_r.
Qed.

Lemma includes_startsWith s sub : startsWith s sub = true -> includes s sub = true.
Proof. destruct s; simpl; intros ->; done. Qed.

Lemma includes_self_app sub r : includes (sub ++ r) sub = true.
Proof. apply includes_startsWith, ManagerClaims.startsWith_app. Qed.

Lemma includes_refl s : includes s s = true.
Proof. rewrite <- (app_nil_r s) at 1. apply includes_self_app. Qed.

End TextFacts.

Module PlaceholderExtras.
Import ManagerFacts TextFacts.

(** The hint that a placeholder ends with. *)
Definition recall_hint (k : jsstring) : jsstring :=
  lit "recall_detail(key=" ++ [quote] ++ k ++ [quote] ++ lit ")".

(** X11. The placeholder that replaces a compressed message keeps the
    key of the message and contains both the tag [[COMPRESSED:<key>]]
    and the call [recall_detail(key="<key>")] that recalls it. *)
Theorem placeholder_names_its_key (encode : jsstring -> option Z) (m : ChatMessage) :
  let m' := compress_message encode m in
  key m' = key m /\ compressed m' = true /\
  includes (content m') (lit "[COMPRESSED:" ++ key m ++ lit "]") = true /\
  includes (content m') (recall_hint (key m)) = true.
Proof.
  simpl. split_and!; try done.
  - unfold createCompressedContent. cbv zeta.
    destruct (_ && _); [|destruct (is_tool m "ripgrep")];
      apply includes_self_app.
  - unfold createCompressedContent, recall_hint. cbv zeta.
    destruct (_ && _); [|destruct (is_tool m "ripgrep")];
      repeat first [apply includes_refl | apply includes_app_r].
Qed.

(** X12. [calculateTokensToFree] is the least number of tokens, not
    below 0, whose removal brings [used] down to the target ratio (0.6)
    of the total. *)
Theorem tokensToFree_is_least (cm : ContextManager) (s : Session) :
  session cm = Some s ->
  let u := used (budget s) in
  let t := total (budget s) in
  let n := calculateTokensToFree cm in
  0 <= n /\ 5 * (u - n) <= 3 * t /\
  forall k, 0 <= k -> 5 * (u - k) <= 3 * t -> n <= k.
Proof.
  intros Hs u t n. unfold n, calculateTokensToFree. rewrite Hs.
  unfold ceil_div, targetRatio. cbn [fst snd]. fold u t.
  pose proof (Z.div_mod (- (5 * u - 3 * t)) 5 ltac:(lia)).
  pose proof (Z.mod_pos_bound (- (5 * u - 3 * t)) 5 ltac:(lia)).
  split_and!; [lia|lia|]. intros k Hk Hle. lia.
Qed.

(** X13. Every compression candidate stands for a message of the
    session that is not compressed and has at least
    [minTokensToCompress] (200) tokens; its estimated compressed size is
    at least 50 tokens, and the saving it announces is the difference,
    at least 150 tokens. *)
Theorem candidates_save_tokens (cm : ContextManager) (c : CompressionROI) :
  In c (getCompressionCandidates cm) ->
  minTokensToCompress <= currentTokens c /\
  50 <= estimatedCompressedTokens c /\
  savings c = currentTokens c - estimatedCompressedTokens c /\
  150 <= savings c /\
  exists m, In m (getMessages cm) /\ key m = messageKey c /\
            tokens m = currentTokens c /\ compressed m = false.
Proof.
  unfold getCompressionCandidates, getMessages.
  destruct (session cm) as [s|]; [|done].
  rewrite slice_protected. intros H. apply in_map_iff in H as (m & <- & H).
  apply filter_In in H as [Hin Hc].
  assert (Ht : minTokensToCompress <= tokens m).
  { unfold isCompressible in Hc. destruct (compressed m); [done|].
    destruct (Z.ltb_spec (tokens m) minTokensToCompress); [done|lia]. }
  unfold minTokensToCompress in *. unfold candidate_of, ceil_div. simpl.
  pose proof (Z.div_mod (- tokens m) 20 ltac:(lia)).
  pose proof (Z.mod_pos_bound (- tokens m) 20 ltac:(lia)).
  pose proof (Z.div_mod (- tokens m) 5 ltac:(lia)).
  pose proof (Z.mod_pos_bound (- tokens m) 5 ltac:(lia)).
  split_and!; try lia.
  - destruct (truthy_opt (meta_toolName m)); lia.
  - exists m. split_and!; try done.
    + by apply In_take in Hin.
    + by apply isCompressible_not_compressed.
Qed.

End PlaceholderExtras.

(* ===================================================================== *)
(** * Recall                                                               *)
(* ===================================================================== *)

Module RecallExtras.
Import ManagerFacts.

Lemma fs_call_files st :
  session_files (snd (fs_call st)) = session_files st /\
  message_files (snd (fs_call st)) = message_files st /\
  turn_files (snd (fs_call st)) = turn_files st.
Proof. unfold fs_call. destruct (fs_faults st) as [|[?|] ?]; done. Qed.

(** X14. [recall] never throws and changes nothing but the record of
    file-system faults: the session and the session, message and turn
    files are as before.  It succeeds only for a key (or source) of a
    message of the session, and a failure carries 0 tokens, no source
    and a text that starts with "错误:". *)
Theorem recall_is_read_only (k : RequestKey) (cm : ContextManager) :
  exists res st',
    recall k cm = (Ok res, with_storage st' cm) /\
    session_files st' = session_files (storage cm) /\
    message_files st' = message_files (storage cm) /\
    turn_files st' = turn_files (storage cm) /\
    (success res = true ->
       exists s m, session cm = Some s /\ In m (messages s) /\ key_is k m = true) /\
    (success res = false ->
       recalled_tokens res = 0 /\ recalled_source res = None /\
       startsWith (recalled res) (lit "错误:") = true).
Proof.
  assert (Hcm : with_storage (storage cm) cm = cm) by (by destruct cm).
  unfold recall, bind at 1, get at 1.
  destruct (session cm) as [s|] eqn:Hs.
  2: { eexists _, (storage cm). rewrite Hcm. split_and!; try done. }
  destruct (negb (key_truthy k)).
  { eexists _, (storage cm). rewrite Hcm. split_and!; try done. }
  destruct (find _ (messages s)) as [m|] eqn:Hf.
  2: { eexists _, (storage cm). rewrite Hcm. split_and!; try done. }
  apply find_some in Hf as [Hin Hk].
  destruct (negb (compressed m)).
  { eexists _, (storage cm). rewrite Hcm. split_and!; try done.
    intros _. by exists s, m. }
  unfold try_catch, bind, in_storage, lift.
  unfold loadMessageContent, bind, get.
  destruct (message_files (storage cm) !! _) as [data|].
  - unfold try_catch, bind, ret.
    pose proof (fs_call_files (storage cm)) as (F1 & F2 & F3).
    destruct (fs_call (storage cm)) as [[[]|e] st'] eqn:E; simpl in *;
      eexists _, st'; (split_and!; [reflexivity|done|done|done| |]); try done.
    intros _. by exists s, m.
  - unfold ret. cbn. rewrite Hcm.
    eexists _, (storage cm). rewrite Hcm. split_and!; try done.
Qed.

End RecallExtras.

(* ===================================================================== *)
(** * Substrings, literal patterns and the cleaner                         *)
(* ===================================================================== *)

Module MatchFacts.

Lemma startsWith_split s p : startsWith s p = true -> exists post, s = p ++ post.
Proof.
  revert s. induction p as [|c p IH]; intros s; simpl.
  - intros _. by exists s.
  - destruct s as [|d s]; [done|]. intros H. apply andb_prop in H as [H1 H2].
    apply N.eqb_eq in H1. subst d. destruct (IH s H2) as [post ->]. by exists post.
Qed.

Lemma includes_nil sub : includes [] sub = startsWith [] sub.
Proof. simpl. apply orb_false_r. Qed.

Lemma includes_cons c s sub :
  includes (c :: s) sub = startsWith (c :: s) sub || includes s sub.
Proof. reflexivity. Qed.

Lemma includes_split s sub :
  includes s sub = true -> exists pre post, s = pre ++ sub ++ post.
Proof.
  induction s as [|c s IH].
  - rewrite includes_nil. intros H. apply startsWith_split in H as [post ->].
    by exists [], post.
  - rewrite includes_cons. intros H. apply orb_prop in H as [H|H].
    + apply startsWith_split in H as [post ->]. by exists [], post.
    + destruct (IH H) as (pre & post & ->). by exists (c :: pre), post.
Qed.

Lemma includes_join pre sub post : includes (pre ++ sub ++ post) sub = true.
Proof.
  induction pre as [|c pre IH].
  - simpl app. assert (H := ManagerClaims.startsWith_app sub post).
    destruct (sub ++ post); [by rewrite includes_nil|].
    by rewrite includes_cons, H.
  - simpl app. rewrite includes_cons, IH. apply orb_true_r.
Qed.

Lemma trimStart_suffix s : exists ws, s = ws ++ trimStart s.
Proof.
  induction s as [|c s [ws IH]]; simpl; [by exists []|].
  destruct (isWhiteSpace c); [|by exists []].
  exists (c :: ws). simpl. by rewrite <- IH.
Qed.

Lemma trim_part s : exists a b, s = a ++ trim s ++ b.
Proof.
  unfold trim, trimEnd.
  destruct (trimStart_suffix s) as [a Ha].
  destruct (trimStart_suffix (rev (trimStart s))) as [b Hb].
  exists a, (rev b). rewrite <- rev_app_distr, <- Hb, rev_involutive. exact Ha.
Qed.

Lemma includes_trim s sub : includes (trim s) sub = true -> includes s sub = true.
Proof.
  intros H. apply includes_split in H as (pre & post & H).
  destruct (trim_part s) as (a & b & Hs). rewrite Hs, H.
  replace (a ++ (pre ++ sub ++ post) ++ b) with ((a ++ pre) ++ sub ++ (post ++ b))
    by (by rewrite <- !app_assoc).
  apply includes_join.
Qed.

Lemma run_seq_chr c r pv s cs :
  Regex.run (Regex.Seq (Regex.Chr (Regex.one c)) r) (Regex.MState pv (c :: s) cs)
  = Regex.run r (Regex.MState (Some c) s cs).
Proof.
  change (Regex.run (Regex.Seq (Regex.Chr (Regex.one c)) r)
                    (Regex.MState pv (c :: s) cs))
    with (flat_map (Regex.run r)
            (if Regex.one c c
             then [Regex.advance c s (Regex.MState pv (c :: s) cs)] else [])).
  unfold Regex.one. rewrite N.eqb_refl. simpl. by rewrite app_nil_r.
Qed.

(** The expression of a literal matches wherever the literal stands. *)
Lemma run_literal p post pv cs :
  Regex.run (Regex.seq (List.map (fun c => Regex.Chr (Regex.one c)) p))
            (Regex.MState pv (p ++ post) cs) <> [].
Proof.
  revert pv. induction p as [|c p IH]; intros pv; [done|].
  destruct p as [|d p].
  - simpl. unfold Regex.one. by rewrite N.eqb_refl.
  - change (Regex.seq (List.map (fun c => Regex.Chr (Regex.one c)) (c :: d :: p)))
      with (Regex.Seq (Regex.Chr (Regex.one c))
              (Regex.seq (List.map (fun c => Regex.Chr (Regex.one c)) (d :: p)))).
    change ((c :: d :: p) ++ post) with (c :: (d :: p) ++ post).
    rewrite run_seq_chr. apply IH.
Qed.

(** [exec] reports a match that starts at or before any place where the
    expression can match. *)
Lemma exec_from_leftmost r pre s pv idx :
  (forall pv', Regex.run r (Regex.MState pv' s []) <> []) ->
  exists m, Regex.exec_from r pv (pre ++ s) idx = Some m /\
            (Regex.index m <= idx + length pre)%nat.
Proof.
  intros Hs. revert pv idx. induction pre as [|c pre IH]; intros pv idx.
  - simpl. destruct s as [|d s]; simpl.
    + destruct (Regex.run r (Regex.MState pv [] [])) eqn:E; [by apply Hs in E|].
      eexists. split; [reflexivity|]. simpl. lia.
    + destruct (Regex.run r (Regex.MState pv (d :: s) [])) eqn:E; [by apply Hs in E|].
      eexists. split; [reflexivity|]. simpl. lia.
  - simpl. destruct (Regex.run r (Regex.MState pv (c :: pre ++ s) [])).
    + destruct (IH (Some c) (S idx)) as (m & -> & Hm). exists m. split; [done|]. lia.
    + eexists. split; [reflexivity|]. simpl. lia.
Qed.

Lemma exec_literal_leftmost p pre post :
  exists m, Regex.exec (Regex.seq (List.map (fun c => Regex.Chr (Regex.one c)) p))
                       (pre ++ p ++ post) = Some m /\
            (Regex.index m <= length pre)%nat.
Proof.
  unfold Regex.exec.
  destruct (exec_from_leftmost
              (Regex.seq (List.map (fun c => Regex.Chr (Regex.one c)) p))
              pre (p ++ post) None 0%nat) as (m & Hm & Hi).
  - intros pv'. apply run_literal.
  - by exists m.
Qed.

Lemma slice_take {A} (l : list A) (k : nat) :
  slice l 0 (Z.of_nat k) = take (k `min` length l) l.
Proof.
  unfold slice, rel_index. simpl (0 <? 0).
  destruct (Z.ltb_spec (Z.of_nat k) 0); [lia|].
  replace (0 `min` Z.of_nat (length l)) with 0 by lia. simpl.
  f_equal. lia.
Qed.

End MatchFacts.

Module CleanerExtras.
Import MatchFacts.

Definition close_tag : jsstring := lit "</user>".

(** The index at which [cleanHallucinatedContent] cuts. *)
Definition cut_index (patterns : list Regex.regex) (content : jsstring) (start : nat) :=
  fold_left
    (fun cleanEndIndex pattern =>
       match Regex.exec pattern content with
       | Some m =>
         if (Regex.index m <? cleanEndIndex)%nat then Regex.index m
         else cleanEndIndex
       | None => cleanEndIndex
       end)
    patterns start.

Lemma cut_index_le patterns content start :
  (cut_index patterns content start <= start)%nat.
Proof.
  revert start. induction patterns as [|p ps IH]; intros start; simpl; [lia|].
  destruct (Regex.exec p content) as [m|]; [|apply IH].
  destruct (Nat.ltb_spec (Regex.index m) start); [|apply IH].
  etrans; [apply IH|lia].
Qed.

(** X15. The text that [cleanHallucinatedContent] returns never
    contains the closing user tag.  When nothing was detected it is the
    input; otherwise it is a prefix of the input, trimmed. *)
Theorem cleaned_text_has_no_tag (content : jsstring) :
  let cleaned := fst (cleanHallucinatedContent content) in
  let flagged := snd (cleanHallucinatedContent content) in
  (flagged = false -> cleaned = content) /\
  (flagged = true ->
     exists k, (k <= length content)%nat /\ cleaned = trim (take k content)) /\
  includes cleaned close_tag = false.
Proof.
  unfold cleanHallucinatedContent. cbv zeta.
  set (tag_re := Regex.str "</user>").
  assert (Htag : forall pre post,
            exists m, Regex.exec tag_re (pre ++ close_tag ++ post) = Some m /\
                      (Regex.index m <= length pre)%nat).
  { intros pre post. apply exec_literal_leftmost. }
  change HALLUCINATION_PATTERNS with (tag_re :: tl HALLUCINATION_PATTERNS).
  destruct (existsb _ (tag_re :: _)) eqn:Hany; cbn [negb fst snd].
  - fold (cut_index (tag_re :: tl HALLUCINATION_PATTERNS) content (length content)).
    set (k := cut_index _ content (length content)).
    assert (Hk : (k <= length content)%nat) by apply cut_index_le.
    rewrite slice_take. replace (k `min` length content)%nat with k by lia.
    split_and!; [done|by exists k|].
    apply not_true_iff_false. intros H. apply includes_trim in H.
    apply includes_split in H as (pre & post & H).
    assert (Hlen : (length pre + length close_tag <= k)%nat).
    { apply (f_equal length) in H. rewrite length_take, !length_app in H. lia. }
    destruct (Htag pre (post ++ drop k content)) as (m & Hm & Hi).
    replace (pre ++ close_tag ++ post ++ drop k content) with content in Hm.
    2: { rewrite <- (take_drop k content) at 1. rewrite H. by rewrite <- !app_assoc. }
    assert (Hcut : (k <= Regex.index m)%nat).
    { unfold k, cut_index. cbn [fold_left]. rewrite Hm.
      destruct (Nat.ltb_spec (Regex.index m) (length content)).
      - apply (cut_index_le (tl HALLUCINATION_PATTERNS)).
      - etrans; [apply (cut_index_le (tl HALLUCINATION_PATTERNS))|lia]. }
    assert (0 < length close_tag)%nat by (vm_compute; lia). lia.
  - split_and!; [done|done|].
    apply not_true_iff_false. intros H.
    apply includes_split in H as (pre & post & ->).
    destruct (Htag pre post) as (m & Hm & _).
    cbn [existsb] in Hany. apply orb_false_elim in Hany as [Hany _].
    unfold Regex.test in Hany. by rewrite Hm in Hany.
Qed.

End CleanerExtras.

(* ===================================================================== *)
(** * The key files                                                        *)
(* ===================================================================== *)

Module KeyFileFacts.
Import Loop.

Lemma push_new_spec ks f :
  (In f ks /\ push_new ks f = ks) \/ (~ In f ks /\ push_new ks f = ks ++ [f]).
Proof.
  unfold push_new. destruct (arr_includes ks f) eqn:E.
  - left. split; [|done]. by apply RegistryClaims.arr_includes_true.
  - right. split; [|done]. by apply RegistryClaims.arr_includes_false.
Qed.

Lemma fold_push_new fs ks :
  exists added,
    fold_left push_new fs ks = ks ++ added /\
    (length added <= length fs)%nat /\
    (forall f, In f added -> In f fs /\ ~ In f ks) /\
    NoDup added.
Proof.
  revert ks. induction fs as [|f fs IH]; intros ks.
  - exists []. simpl. rewrite app_nil_r. split_and!; try done. constructor.
  - simpl. destruct (push_new_spec ks f) as [[Hin ->]|[Hnin ->]].
    + destruct (IH ks) as (added & -> & Hl & Hf & Hnd).
      exists added. split_and!; try done; [lia|].
      intros g Hg. destruct (Hf g Hg). auto.
    + destruct (IH (ks ++ [f])) as (added & -> & Hl & Hf & Hnd).
      exists (f :: added). rewrite <- app_assoc. split_and!; try done.
      * simpl. lia.
      * intros g [<-|Hg]; [auto|]. destruct (Hf g Hg) as [H1 H2].
        split; [auto|]. intros H. apply H2. apply in_or_app. auto.
      * apply NoDup_cons. split; [|done].
        intros H. apply list_elem_of_In in H. destruct (Hf f H) as [_ H2].
        apply H2. apply in_or_app. right. by left.
Qed.

Lemma slice_length_le {A} (l : list A) (n : nat) :
  (length (slice l 0 (Z.of_nat n)) <= n)%nat.
Proof. rewrite MatchFacts.slice_take, length_take. lia. Qed.

(** The pushes of [trackKeyFiles]: the path read, if any, and the first
    ten matches of the output. *)
Lemma pushes_grow (ks : list jsstring) (path : option jsstring) (out : jsstring) :
  let ks1 := match path with Some p => push_new ks p | None => ks end in
  let ks' := fold_left push_new (slice (Regex.match_all file_pattern out) 0 10) ks1 in
  exists added,
    ks' = ks ++ added /\
    (length added <= 11)%nat /\
    NoDup added /\
    (forall f, In f added -> ~ In f ks) /\
    (NoDup ks -> NoDup ks').
Proof.
  intros ks1 ks'.
  assert (H1 : exists a1, ks1 = ks ++ a1 /\ (length a1 <= 1)%nat /\ NoDup a1 /\
                 (forall f, In f a1 -> ~ In f ks)).
  { assert (H0 : ks = ks ++ [] /\ (length (@nil jsstring) <= 1)%nat /\ NoDup (@nil jsstring)
                 /\ (forall f, In f [] -> ~ In f ks)).
    { rewrite app_nil_r. split_and!; try done; [simpl; lia|constructor]. }
    unfold ks1. destruct path as [p|]; [|by exists []].
    destruct (push_new_spec ks p) as [[_ ->]|[Hn ->]]; [by exists []|].
    exists [p]. split_and!; try done.
    - apply NoDup_singleton.
    - by intros f [<-|[]]. }
  destruct H1 as (a1 & Hks1 & Hl1 & Hnd1 & Hf1). unfold ks'. rewrite Hks1.
  set (fs := slice (Regex.match_all file_pattern out) 0 10).
  assert (Hfs : (length fs <= 10)%nat) by apply (slice_length_le _ 10).
  destruct (fold_push_new fs (ks ++ a1)) as (a2 & -> & Hl2 & Hf2 & Hnd2).
  assert (Hnd : NoDup (a1 ++ a2)).
  { apply NoDup_app. split_and!; try done.
    intros f Hf Hf'. apply list_elem_of_In in Hf'. destruct (Hf2 f Hf') as [_ H].
    apply H. apply in_or_app. right. by apply list_elem_of_In. }
  assert (Hnew : forall f, In f (a1 ++ a2) -> ~ In f ks).
  { intros f Hf. apply in_app_or in Hf as [Hf|Hf]; [by apply Hf1|].
    destruct (Hf2 f Hf) as [_ H]. intros Hin. apply H. apply in_or_app. by left. }
  exists (a1 ++ a2). rewrite <- app_assoc. split_and!; try done.
  - rewrite length_app. lia.
  - intros Hks. apply NoDup_app. split_and!; try done.
    intros f Hf Hf'. apply (Hnew f); by apply list_elem_of_In.
Qed.

End KeyFileFacts.

Module KeyFileExtras.
Import Loop KeyFileFacts.

Section WithHost.

Context {host : JsonHost}.

(** X16. [trackKeyFiles] only appends: when it returns, the key files
    known before stay in place, at most eleven paths are added (the path
    read and ten matches of the output), none of them known before and
    none twice, so a list without duplicates stays one.  It throws only
    for [read_file] with arguments that are [null] or [undefined]: the
    TypeError of reading [args.path], before anything is pushed. *)
Theorem key_files_only_grow (toolName : jsstring) (args : Value) (out : jsstring)
    (ks : list jsstring) :
  match trackKeyFiles toolName args out ks with
  | Ok ks' =>
    exists added,
      ks' = ks ++ added /\
      (length added <= 11)%nat /\
      NoDup added /\
      (forall f, In f added -> ~ In f ks) /\
      (NoDup ks -> NoDup ks')
  | Throw e =>
    toolName = lit "read_file" /\
    exists what, nullish args = Some what /\ e = cannot_read what (lit "path")
  end.
Proof.
  unfold trackKeyFiles.
  destruct (JS.eqb toolName (lit "read_file")) eqn:En;
    [|exact (pushes_grow ks None out)].
  unfold truthy_property, read_property.
  destruct (nullish args) as [what|].
  { split; [by apply ManagerFacts.eqb_true|]. by exists what. }
  destruct (get_property args (lit "path")) as [v|];
    [|exact (pushes_grow ks None out)].
  destruct (to_boolean v);
    [exact (pushes_grow ks (Some (to_String v)) out)|exact (pushes_grow ks None out)].
Qed.

End WithHost.

End KeyFileExtras.

(* ===================================================================== *)
(** * The decision of a turn                                               *)
(* ===================================================================== *)

Module DecisionExtras.

Section WithHost.

Context {host : JsonHost}.

(** X17. [parseDecision] never returns a [delegate] decision.  A
    [tool_call] is the first native tool call or, when there is none, the
    call rescued from the text; [hallucination_detected] carries the
    text and its cleaned version; every other decision carries the text
    of the response unchanged, and is only taken when nothing was
    rescued and nothing detected. *)
Theorem decision_keeps_the_content (decisions : list AgentDecision)
    (content : jsstring) (toolCalls : option (list ToolCall)) :
  match parseDecision decisions content toolCalls with
  | tool_call n a =>
    (exists tc more, toolCalls = Some (tc :: more) /\
                     n = tc_name tc /\ a = tc_arguments tc) \/
    ((toolCalls = None \/ toolCalls = Some []) /\
     rescueToolCallFromContent content = Some (mkToolCall n a))
  | delegate _ _ => False
  | hallucination_detected c cleaned =>
    c = content /\ cleanHallucinatedContent content = (cleaned, true)
  | done c | thinking c | invalid_tool_call c _ | requires_self_check c =>
    c = content /\ snd (cleanHallucinatedContent content) = false /\
    rescueToolCallFromContent content = None
  end.
Proof.
  unfold parseDecision.
  destruct toolCalls as [[|tc more]|].
  2: { left. by exists tc, more. }
  all: destruct (rescueToolCallFromContent content) as [[n a]|] eqn:Hr;
    [right; split; [auto|done]|].
  all: destruct (cleanHallucinatedContent content) as [cleaned [|]] eqn:Hc;
    [done|]; cbn [snd].
  all: destruct (includes content INVESTIGATION_COMPLETE).
  all: try (destruct (last (List.filter is_tool_call decisions)) as [[n a| | | | | |]|];
            try done; destruct (negb (JS.eqb n (lit "think"))); done).
  all: destruct (first_match textToolCallPatterns content); [done|].
  all: destruct (existsb _ thinkingPatterns); done.
Qed.

End WithHost.

End DecisionExtras.

(* ===================================================================== *)
(** * The investigation loop                                               *)
(* ===================================================================== *)

Module StableFacts.
Local Open Scope eff_scope.

(** Every run of [m] leaves its state related by [R] to the one it
    started in, whether it returns or throws. *)
Definition stable {S A} (R : S -> S -> Prop) (m : M S A) : Prop :=
  forall s, R s (snd (m s)).

Section Combinators.

Context {S : Type} (R : S -> S -> Prop).
Hypothesis R_refl : forall s, R s s.
Hypothesis R_trans : forall a b c, R a b -> R b c -> R a c.

Lemma stable_ret {A} (a : A) : stable R (ret a).
Proof. intros s. apply R_refl. Qed.

Lemma stable_throw {A} e : stable R (@throw S A e).
Proof. intros s. apply R_refl. Qed.

Lemma stable_get : stable R get.
Proof. intros s. apply R_refl. Qed.

Lemma stable_modify f : (forall s, R s (f s)) -> stable R (modify f).
Proof. intros H s. apply H. Qed.

Lemma stable_pure {A} (f : S -> Result A) : stable R (fun s => (f s, s)).
Proof. intros s. apply R_refl. Qed.

Lemma stable_bind {A B} (m : M S A) (k : A -> M S B) :
  stable R m -> (forall a, stable R (k a)) -> stable R (bind m k).
Proof.
  intros Hm Hk s. unfold bind. specialize (Hm s).
  destruct (m s) as [[a|e] s1]; simpl in *; [|done].
  eapply R_trans; [exact Hm|apply Hk].
Qed.

Lemma stable_try_catch {A} (m : M S A) h :
  stable R m -> (forall e, stable R (h e)) -> stable R (try_catch m h).
Proof.
  intros Hm Hh s. unfold try_catch. specialize (Hm s).
  destruct (m s) as [[a|e] s1]; simpl in *; [done|].
  eapply R_trans; [exact Hm|apply Hh].
Qed.

Lemma stable_lift {T A} (proj : S -> T) (upd : T -> S -> S) (m : M T A) :
  (forall s t, R s (upd t s)) -> stable R (lift proj upd m).
Proof.
  intros H s. unfold lift. destruct (m (proj s)) as [r t']. apply H.
Qed.

End Combinators.

End StableFacts.

Module LoopFacts.
Import Loop StableFacts.
Local Open Scope eff_scope.

Section WithHost.

Context {host : JsonHost}.
Variable encode : jsstring -> option Z.
Variable buildInvestigatorPrompt : list Tool -> jsstring.

(** What one iteration leaves alone: the iteration counter, the
    configuration, the abort flag and the registry. *)
Definition same_control (ag ag' : Agent) : Prop :=
  iteration (state ag') = iteration (state ag) /\
  config ag' = config ag /\
  aborted ag' = aborted ag /\
  toolRegistry ag' = toolRegistry ag.

Lemma same_control_refl ag : same_control ag ag.
Proof. done. Qed.

Lemma same_control_trans a b c :
  same_control a b -> same_control b c -> same_control a c.
Proof. intros (?&?&?&?) (?&?&?&?). split_and!; congruence. Qed.

(** What a call of the context manager leaves alone: all but the manager
    and the supply of identifiers. *)
Definition same_agent (ag ag' : Agent) : Prop :=
  state ag' = state ag /\ config ag' = config ag /\ aborted ag' = aborted ag /\
  keyFiles ag' = keyFiles ag /\ toolRegistry ag' = toolRegistry ag /\
  totalTokensUsed_var ag' = totalTokensUsed_var ag.

Lemma same_agent_refl ag : same_agent ag ag.
Proof. done. Qed.

Lemma same_agent_trans a b c : same_agent a b -> same_agent b c -> same_agent a c.
Proof. intros (?&?&?&?&?&?) (?&?&?&?&?&?). split_and!; congruence. Qed.

Lemma same_agent_control a b : same_agent a b -> same_control a b.
Proof. intros (H&?&?&?&?&?). split_and!; try done. by rewrite H. Qed.

Ltac stable_with R Rrefl Rtrans :=
  first
    [ apply (stable_ret R Rrefl)
    | apply (stable_throw R Rrefl)
    | apply (stable_get R Rrefl)
    | apply (stable_pure R Rrefl)
    | apply (stable_lift R); intros ? ?; done
    | apply (stable_modify R); intros ?; done
    | apply (stable_bind R Rtrans); [|intros ?]
    | apply (stable_try_catch R Rtrans); [|intros ?]
    | match goal with
      | |- stable _ (match ?x with _ => _ end) => destruct x
      end ].

Ltac stable_step := stable_with same_control same_control_refl same_control_trans.

Lemma add_message_same_agent r text md :
  stable same_agent (add_message encode r text md).
Proof.
  unfold add_message.
  repeat stable_with same_agent same_agent_refl same_agent_trans.
Qed.

Lemma add_message_stable r text md :
  stable same_control (add_message encode r text md).
Proof. intros ag. apply same_agent_control, add_message_same_agent. Qed.

Lemma executeTool_stable t name args :
  stable same_control (executeTool t name args).
Proof. unfold executeTool, in_manager. repeat stable_step. Qed.

Lemma runIteration_stable t :
  stable same_control (runIteration encode buildInvestigatorPrompt t).
Proof.
  unfold runIteration, in_manager.
  repeat first [ apply add_message_stable | apply executeTool_stable | stable_step ].
Qed.

(** The result agrees with the state the loop ended in. *)
Definition reports (r : InvestigationResult) (ag : Agent) : Prop :=
  inv_success r = true /\ inv_error r = None /\
  iterations r = iteration (state ag) /\
  inv_decisions r = decisions (state ag) /\
  totalTokensUsed r = totalTokensUsed_var ag /\
  inv_keyFiles r = keyFiles ag.

Lemma partial_result_reports ag :
  exists r ag', partial_result ag = (Ok r, ag') /\ reports r ag' /\
                same_control ag ag'.
Proof.
  unfold partial_result, bind, modify, get, ret.
  eexists _, _. split; [reflexivity|]. done.
Qed.

(** What the loop does after a turn whose decision is not [done]. *)
Definition after_turn (fuel : nat) (oracle : Z -> Turn) : M Agent InvestigationResult :=
  let* ag := get in
  let* isStuck :=
    (fun a => (isStuck (stuckThreshold (config ag)) (decisions (state ag)), a)) in
  run* (if isStuck : bool then
          let stuckInfo :=
            match last (decisions (state ag)) with
            | Some (tool_call n a) =>
              lit "工具 " ++ [quote] ++ n ++ [quote] ++ lit "，参数: "
                ++ JSON_stringify a
            | _ => lit "相同的操作"
            end in
          run* add_message encode user
                 (MSG_stuck (stuckThreshold (config ag)) stuckInfo)
                 not_compressible in
          modify (with_state (fun st =>
            set_decisions
              (slice (decisions st) 0 (- stuckThreshold (config ag))) st))
        else ret tt) in
  investigate_loop encode buildInvestigatorPrompt fuel oracle.

Definition bounded (fuel : nat) (ag : Agent) (res : Result InvestigationResult)
    (ag' : Agent) : Prop :=
  config ag' = config ag /\ toolRegistry ag' = toolRegistry ag /\
  iteration (state ag) <= iteration (state ag') <= iteration (state ag) + Z.of_nat fuel /\
  forall r, res = Ok r -> reports r ag'.

Lemma after_turn_bounded fuel oracle ag res ag' :
  (forall ag res ag',
     investigate_loop encode buildInvestigatorPrompt fuel oracle ag = (res, ag') ->
     bounded fuel ag res ag') ->
  after_turn fuel oracle ag = (res, ag') -> bounded fuel ag res ag'.
Proof.
  intros IH Heq. unfold after_turn in Heq.
  unfold bind at 1, get at 1 in Heq. unfold bind at 1 in Heq.
  destruct (isStuck (stuckThreshold (config ag)) (decisions (state ag))) as [b|e].
  2: { injection Heq as <- <-. unfold bounded.
       split_and!; first [congruence | lia | done]. }
  unfold bind at 1 in Heq.
  match type of Heq with context [(if b then ?x else ?y) ag] =>
    assert (Hst : stable same_control (if b then x else y))
      by (destruct b; repeat first [apply add_message_stable | stable_step]);
    pose proof (Hst ag) as (Hi5 & Hc5 & _ & Ht5); clear Hst;
    destruct ((if b then x else y) ag) as [[[]|e] ag5] end;
    simpl in Hi5, Hc5, Ht5.
  2: { injection Heq as <- <-. unfold bounded.
       split_and!; first [congruence | lia | done]. }
  destruct (IH ag5 res ag' Heq) as (Hc6 & Ht6 & Hi6 & Hr6).
  unfold bounded. split_and!; try congruence; try lia. exact Hr6.
Qed.

Lemma investigate_loop_bounded fuel oracle ag res ag' :
  investigate_loop encode buildInvestigatorPrompt fuel oracle ag = (res, ag') ->
  bounded fuel ag res ag'.
Proof.
  revert ag res ag'. induction fuel as [|fuel IH]; intros ag res ag' Heq.
  { cbn [investigate_loop] in Heq.
    destruct (partial_result_reports ag) as (r & ag1 & E & Hr & (Hi & Hc & _ & Ht)).
    rewrite E in Heq. injection Heq as <- <-.
    unfold bounded. split_and!; try done; try lia. by intros ? [= <-]. }
  cbn [investigate_loop] in Heq. unfold bind at 1, get at 1 in Heq.
  destruct (aborted ag).
  { destruct (partial_result_reports ag) as (r & ag1 & E & Hr & (Hi & Hc & _ & Ht)).
    rewrite E in Heq. injection Heq as <- <-.
    unfold bounded. split_and!; try done; try lia. by intros ? [= <-]. }
  unfold bind at 1, modify at 1 in Heq. unfold bind at 1, get at 1 in Heq.
  set (ag1 := with_state (fun st => set_iteration (iteration st + 1) st) ag) in Heq.
  set (t := oracle (iteration (state ag1))) in Heq.
  unfold bind at 1 in Heq.
  set (ag2 := snd ((if abort_called t then modify abort else ret tt) ag1)).
  assert (H2 : iteration (state ag2) = iteration (state ag) + 1 /\
               config ag2 = config ag /\ toolRegistry ag2 = toolRegistry ag).
  { unfold ag2. destruct (abort_called t); done. }
  replace ((if abort_called t then modify abort else ret tt) ag1) with (Ok tt, ag2)
    in Heq by (unfold ag2; destruct (abort_called t); done).
  destruct H2 as (Hi2 & Hc2 & Ht2).
  unfold bind at 1 in Heq.
  pose proof (runIteration_stable t ag2) as (Hi3 & Hc3 & _ & Ht3).
  destruct (runIteration encode buildInvestigatorPrompt t ag2) as [[result|e] ag3];
    simpl in Hi3, Hc3, Ht3.
  2: { injection Heq as <- <-. unfold bounded.
       split_and!; first [congruence | lia | done]. }
  unfold bind at 1, modify at 1 in Heq.
  set (ag4 := with_total (totalTokensUsed_var ag3 + tokensUsed result) ag3) in Heq.
  assert (H4 : iteration (state ag4) = iteration (state ag) + 1 /\
               config ag4 = config ag /\ toolRegistry ag4 = toolRegistry ag).
  { unfold ag4. simpl. split_and!; congruence. }
  destruct H4 as (Hi4 & Hc4 & Ht4).
  assert (Hafter : after_turn fuel oracle ag4 = (res, ag') -> bounded (S fuel) ag res ag').
  { intros H. destruct (after_turn_bounded fuel oracle ag4 res ag' IH H)
      as (Hc6 & Ht6 & Hi6 & Hr6).
    unfold bounded. split_and!; try congruence; try lia. exact Hr6. }
  destruct (ir_decision result) eqn:Hd; try exact (Hafter Heq).
  unfold bind, modify, get, ret in Heq. injection Heq as <- <-. unfold bounded. simpl.
  split_and!; try done; try lia. intros r [= <-]. done.
Qed.

End WithHost.

End LoopFacts.

Module LoopExtras.
Import Loop StableFacts LoopFacts.
Local Open Scope eff_scope.

Section WithHost.

Context {host : JsonHost}.
Variable encode : jsstring -> option Z.
Variable buildInvestigatorPrompt : list Tool -> jsstring.

(** X19. [investigate] leaves the configuration and the tool registry
    as they are.  When it returns, the result reports the iteration
    counter and the decisions of the agent, the counter has not gone
    down and has not passed [maxIterations] (unless it was beyond it at
    the start), and [success] holds exactly when no error is reported;
    when it throws, no iteration was counted. *)
Theorem investigation_is_bounded (oracle : Z -> Turn) (query : jsstring) (ag : Agent) :
  let res := fst (investigate encode buildInvestigatorPrompt oracle query ag) in
  let ag' := snd (investigate encode buildInvestigatorPrompt oracle query ag) in
  config ag' = config ag /\ toolRegistry ag' = toolRegistry ag /\
  match res with
  | Ok r =>
    iterations r = iteration (state ag') /\
    iteration (state ag) <= iterations r /\
    iterations r <= Z.max (iteration (state ag)) (maxIterations (config ag)) /\
    inv_decisions r = decisions (state ag') /\
    (inv_success r = true <-> inv_error r = None)
  | Throw _ => iteration (state ag') = iteration (state ag)
  end.
Proof.
  cbv zeta.
  destruct (investigate encode buildInvestigatorPrompt oracle query ag)
    as [res ag'] eqn:Heq. cbn [fst snd].
  unfold investigate, bind at 1, get at 1 in Heq.
  destruct (session (contextManager ag)); [|by injection Heq as <- <-].
  unfold bind at 1, modify at 1 in Heq. unfold bind at 1 in Heq.
  pose proof (add_message_stable encode user query not_compressible (with_total 0 ag))
    as (Hi1 & Hc1 & _ & Ht1).
  destruct (add_message encode user query not_compressible (with_total 0 ag))
    as [[m|e] ag1]; simpl in Hi1, Hc1, Ht1; [|by injection Heq as <- <-].
  unfold bind at 1, get at 1 in Heq. unfold try_catch in Heq.
  set (fuel := Z.to_nat (maxIterations (config ag1) - iteration (state ag1))) in Heq.
  destruct (investigate_loop encode buildInvestigatorPrompt fuel oracle ag1)
    as [res1 ag2] eqn:E.
  destruct (investigate_loop_bounded encode buildInvestigatorPrompt fuel oracle ag1 res1 ag2 E)
    as (Hc2 & Ht2 & Hi2 & Hr2).
  assert (Hb : iteration (state ag2)
               <= Z.max (iteration (state ag)) (maxIterations (config ag)))
    by (unfold fuel in Hi2; rewrite <- Hc1; lia).
  destruct res1 as [r|e].
  - destruct (Hr2 r eq_refl) as (Hs & He & Hit & Hd & _).
    injection Heq as <- <-.
    split_and!; try congruence; try lia. by rewrite Hs, He.
  - unfold bind, get, ret in Heq. injection Heq as <- <-. simpl.
    split_and!; try congruence; try lia. done.
Qed.

(** The result that stands for a tool that could not run. *)
Definition failed_result (msg : jsstring) : ToolResult :=
  mkToolResult false [] (Some msg) None None.

Definition unknown_tool_message (reg : ToolRegistry) (name : jsstring) : jsstring :=
  lit "未知工具: " ++ [quote] ++ name ++ [quote] ++ lit "。可用工具: "
    ++ join (lit ", ") (getNames reg) ++ lit "。请使用正确的工具名称重试。".

(** X18. With a session in place [executeTool] leaves the messages of
    the session alone, and it throws in one case only: [recall_detail]
    with arguments that are [null] or [undefined], the TypeError of
    reading [args.key], without any change of the agent.  For a tool
    other than [recall_detail]: an unknown name gives a failed result
    that lists the available tools, a tool that throws gives a failed
    result with the message of the exception, both without any change of
    the agent; a tool that returns gives its result, which is remembered
    as the last output of that tool. *)
Theorem executeTool_outcome (t : Turn) (name : jsstring) (args : Value)
    (ag : Agent) (s : Session) :
  session (contextManager ag) = Some s ->
  exists res ag',
    executeTool t name args ag = (res, ag') /\
    session (contextManager ag') = Some s /\
    match res with
    | Throw e =>
      name = lit "recall_detail" /\ ag' = ag /\
      exists what, nullish args = Some what /\ e = cannot_read what (lit "key")
    | Ok r =>
      (name = lit "recall_detail" -> nullish args = None) /\
      (name <> lit "recall_detail" ->
       match get_tool (toolRegistry ag) name, tool_execute t with
       | None, _ =>
         r = failed_result (unknown_tool_message (toolRegistry ag) name) /\ ag' = ag
       | Some _, Throw e => r = failed_result (message e) /\ ag' = ag
       | Some _, Ok result =>
         r = result /\
         contextManager ag' = contextManager ag /\
         JsMap.get (lastToolResults (state ag')) name = Some (output result)
       end)
    end.
Proof.
  intros Hs. unfold executeTool, bind at 1, get at 1.
  destruct (JS.eqb name (lit "recall_detail")) eqn:En.
  - apply ManagerFacts.eqb_true in En.
    unfold bind at 1, of_result.
    destruct (to_request_key args) as [k|e] eqn:Ek.
    + unfold bind, in_manager, lift.
      destruct (ManagerFacts.recall_effect k (contextManager ag))
        as (res & st' & -> & _).
      eexists _, _. split; [reflexivity|]. split; [done|]. split; [|done].
      intros _. unfold to_request_key, read_property in Ek.
      by destruct (nullish args).
    + eexists _, _. split; [reflexivity|]. split; [done|].
      split; [done|]. split; [by destruct ag|].
      unfold to_request_key, read_property in Ek.
      destruct (nullish args) as [what|].
      * injection Ek as <-. by exists what.
      * destruct (get_property args (lit "key")) as [v|]; [|done].
        by destruct (as_string v).
  - apply ManagerFacts.eqb_false in En.
    destruct (get_tool (toolRegistry ag) name) as [tool|].
    + rewrite Hs. destruct (tool_execute t) as [result|e].
      * eexists _, _. split; [reflexivity|]. split; [done|]. split; [done|].
        intros _. split_and!; try done. simpl. apply RegistryClaims.get_set.
      * eexists _, _. split; [reflexivity|]. split; [done|]. by split.
    + eexists _, _. split; [reflexivity|]. split; [done|]. by split.
Qed.

(** X20. When the first call of the model throws (the run is not
    aborted and an iteration is left), [investigate] does not throw: it
    returns a failure with the message of the exception as error, the
    iteration counted, no tokens, no findings and no messages, and the
    decisions taken so far. *)
Theorem failed_model_call_is_reported (oracle : Z -> Turn) (query : jsstring)
    (ag ag1 : Agent) (s : Session) (m : ChatMessage) (e : Error) :
  session (contextManager ag) = Some s ->
  add_message encode user query not_compressible (with_total 0 ag) = (Ok m, ag1) ->
  aborted ag = false ->
  iteration (state ag) < maxIterations (config ag) ->
  llm_complete (oracle (iteration (state ag) + 1)) = Throw e ->
  exists r ag',
    investigate encode buildInvestigatorPrompt oracle query ag = (Ok r, ag') /\
    inv_success r = false /\ inv_error r = Some (message e) /\
    iterations r = iteration (state ag) + 1 /\
    totalTokensUsed r = 0 /\ findings r = [] /\ inv_messages r = [] /\
    inv_decisions r = decisions (state ag).
Proof.
  intros Hs Hadd Hab Hit Hllm.
  pose proof (add_message_same_agent encode user query not_compressible (with_total 0 ag))
    as (Hst1 & Hc1 & Ha1 & _ & _ & Htot1).
  rewrite Hadd in Hst1, Hc1, Ha1, Htot1. simpl in Hst1, Hc1, Ha1, Htot1.
  assert (Hi1 : iteration (state ag1) = iteration (state ag)) by (by rewrite Hst1).
  unfold investigate, bind at 1, get at 1. rewrite Hs.
  unfold bind at 1, modify at 1. unfold bind at 1. rewrite Hadd.
  unfold bind at 1, get at 1. unfold try_catch.
  destruct (Z.to_nat (maxIterations (config ag1) - iteration (state ag1)))
    as [|fuel] eqn:Hf; [rewrite Hc1, Hi1 in Hf; lia|].
  cbn [investigate_loop]. unfold bind at 1, get at 1. rewrite Ha1, Hab.
  unfold bind at 1, modify at 1. unfold bind at 1, get at 1.
  set (ag2 := with_state (fun st => set_iteration (iteration st + 1) st) ag1).
  assert (Ht : oracle (iteration (state ag2)) = oracle (iteration (state ag) + 1))
    by (simpl; by rewrite Hi1).
  rewrite Ht. set (t := oracle (iteration (state ag) + 1)) in *.
  unfold bind at 1.
  set (ag3 := snd ((if abort_called t then modify abort else ret tt) ag2)).
  replace ((if abort_called t then modify abort else ret tt) ag2) with (Ok tt, ag3)
    by (unfold ag3; destruct (abort_called t); done).
  assert (H3 : iteration (state ag3) = iteration (state ag) + 1 /\
               decisions (state ag3) = decisions (state ag1) /\
               totalTokensUsed_var ag3 = totalTokensUsed_var ag1).
  { unfold ag3. destruct (abort_called t); simpl; by rewrite Hi1. }
  destruct H3 as (Hi3 & Hd3 & Htot3).
  unfold bind at 1. unfold runIteration at 1.
  unfold bind at 1, get at 1. unfold bind at 1.
  unfold in_manager, lift, setSystemPromptTokens, bind at 1, modify.
  cbn [fst snd]. unfold bind at 1, get at 1. rewrite Hllm.
  unfold throw, bind, get, ret. cbn [fst snd].
  eexists _, _. split; [reflexivity|]. simpl.
  split_and!; try done; congruence.
Qed.

End WithHost.

End LoopExtras.

(* ===================================================================== *)
(** * The format of a report                                               *)
(* ===================================================================== *)

Module FormatFacts.
Import Synthesizer.

(** ** What a match leaves of the input and of the groups *)

Definition suffix_of (s' s : jsstring) : Prop := exists pre, s = pre ++ s'.

Lemma suffix_of_refl s : suffix_of s s.
Proof. by exists []. Qed.

Lemma suffix_of_trans a b c : suffix_of a b -> suffix_of b c -> suffix_of a c.
Proof. intros [p ->] [q ->]. exists (q ++ p). by rewrite app_assoc. Qed.

Lemma suffix_of_cons c s' s : suffix_of s' s -> suffix_of s' (c :: s).
Proof. intros [p ->]. by exists (c :: p). Qed.

Lemma suffix_of_length s' s : suffix_of s' s -> (length s' <= length s)%nat.
Proof. intros [p ->]. rewrite length_app. lia. Qed.

Lemma star_greedy_spec cls pv s cs st :
  In st (Regex.star_greedy cls pv s cs) ->
  suffix_of (Regex.rest st) s /\ Regex.caps st = cs.
Proof.
  revert pv. induction s as [|c s IH]; intros pv; simpl.
  - intros [<-|[]]. split; [apply suffix_of_refl|done].
  - destruct (cls c).
    + intros H. apply in_app_or in H as [H|[<-|[]]].
      * destruct (IH _ H). split; [by apply suffix_of_cons|done].
      * split; [apply suffix_of_refl|done].
    + intros [<-|[]]. split; [apply suffix_of_refl|done].
Qed.

Lemma star_lazy_spec cls pv s cs st :
  In st (Regex.star_lazy cls pv s cs) ->
  suffix_of (Regex.rest st) s /\ Regex.caps st = cs.
Proof.
  revert pv. induction s as [|c s IH]; intros pv; simpl.
  - intros [<-|[]]. split; [apply suffix_of_refl|done].
  - destruct (cls c).
    + intros [<-|H].
      * split; [apply suffix_of_refl|done].
      * destruct (IH _ H). split; [by apply suffix_of_cons|done].
    + intros [<-|[]]. split; [apply suffix_of_refl|done].
Qed.

(** An expression without capturing group. *)
Fixpoint group_free (r : Regex.regex) : Prop :=
  match r with
  | Regex.Seq r1 r2 | Regex.Alt r1 r2 => group_free r1 /\ group_free r2
  | Regex.Opt r1 => group_free r1
  | Regex.Group _ => False
  | _ => True
  end.

Lemma run_group_free r st st' :
  group_free r -> In st' (Regex.run r st) ->
  suffix_of (Regex.rest st') (Regex.rest st) /\ Regex.caps st' = Regex.caps st.
Proof.
  revert st st'. induction r; intros st st' Hg; simpl.
  - intros [<-|[]]. split; [apply suffix_of_refl|done].
  - destruct (Regex.rest st) as [|c s] eqn:E; [done|].
    destruct (cls c); [|done]. intros [<-|[]]. simpl. split; [|done].
    apply suffix_of_cons, suffix_of_refl.
  - destruct Hg as [H1 H2]. intros H. apply in_flat_map in H as (st1 & Hin1 & Hin2).
    destruct (IHr1 _ _ H1 Hin1) as [Hs1 Hc1].
    destruct (IHr2 _ _ H2 Hin2) as [Hs2 Hc2].
    split; [by eapply suffix_of_trans|congruence].
  - destruct Hg as [H1 H2]. intros H. apply in_app_or in H as [H|H]; eauto.
  - intros H. apply in_app_or in H as [H|[<-|[]]]; [eauto|].
    split; [apply suffix_of_refl|done].
  - apply star_greedy_spec.
  - apply star_lazy_spec.
  - done.
  - destruct (Regex.at_line_start _); [|done]. intros [<-|[]].
    split; [apply suffix_of_refl|done].
  - destruct (Regex.rest st) eqn:E; [|done]. intros [<-|[]]. rewrite E.
    split; [apply suffix_of_refl|done].
Qed.

(** The text of the group of [header_pattern] begins with the sign. *)
Definition hash : jschar := chr "#".


Lemma header_pattern_caps pv s st :
  In st (Regex.run header_pattern (Regex.MState pv s [])) ->
  exists h, Regex.caps st = [hash :: h].
Proof.
  unfold header_pattern.
  change (Regex.seq _) with
    (Regex.Seq Regex.Bol
       (Regex.Seq (Regex.StarLazy Regex.any)
          (Regex.Group
             (Regex.Seq (Regex.Chr (Regex.one hash))
                (Regex.seq [Regex.Opt (Regex.Chr (Regex.one hash));
                            Regex.Plus Regex.space; Regex.Plus Regex.dot]))))).
  set (tail := Regex.seq [Regex.Opt (Regex.Chr (Regex.one hash));
                          Regex.Plus Regex.space; Regex.Plus Regex.dot]).
  assert (Htail : group_free tail) by (simpl; tauto).
  cbn [Regex.run]. intros H.
  apply in_flat_map in H as (st0 & H0 & H).
  assert (Hc0 : Regex.caps st0 = []).
  { simpl in H0. destruct (Regex.at_line_start pv); [|done]. by destruct H0 as [<-|[]]. }
  apply in_flat_map in H as (st1 & H1 & H).
  apply star_lazy_spec in H1 as [_ Hc1]. rewrite Hc0 in Hc1.
  apply in_map_iff in H as (st2 & <- & H2). simpl.
  apply in_flat_map in H2 as (st3 & H3 & H2).
  destruct (Regex.rest st1) as [|c s1] eqn:E1; [done|].
  unfold Regex.one in H3.
  destruct (N.eqb_spec c hash) as [->|]; [|done].
  destruct H3 as [<-|[]].
  destruct (run_group_free tail _ _ Htail H2) as [Hs Hc]. simpl in Hs, Hc.
  rewrite Hc, Hc1. simpl.
  apply suffix_of_length in Hs.
  replace (S (length s1) - length (Regex.rest st2))%nat
    with (S (length s1 - length (Regex.rest st2)))%nat by lia.
  simpl. eauto.
Qed.

Lemma exec_from_groups r pv s idx m :
  Regex.exec_from r pv s idx = Some m ->
  exists pv' s' st, In st (Regex.run r (Regex.MState pv' s' [])) /\
                    Regex.groups m = Regex.caps st.
Proof.
  revert pv idx. induction s as [|c s IH]; intros pv idx; simpl.
  - destruct (Regex.run r (Regex.MState pv [] [])) as [|st l] eqn:E; [done|].
    intros [= <-]. exists pv, [], st. rewrite E. split; [by left|done].
  - destruct (Regex.run r (Regex.MState pv (c :: s) [])) as [|st l] eqn:E.
    + apply IH.
    + intros [= <-]. exists pv, (c :: s), st. rewrite E. split; [by left|done].
Qed.

Lemma indexOf_spec s sub i :
  indexOf s sub = Some i -> exists post, drop i s = sub ++ post.
Proof.
  revert i. induction s as [|c s IH]; intros i.
  - simpl. destruct sub; [|done]. intros [= <-]. by exists [].
  - cbn [indexOf]. destruct (startsWith (c :: s) sub) eqn:E.
    + intros [= <-]. by apply MatchFacts.startsWith_split.
    + destruct (indexOf s sub) as [j|]; [|done]. intros [= <-]. simpl. by apply IH.
Qed.

Lemma slice_from_drop {A} (l : list A) (i : nat) :
  slice_from l (Z.of_nat i) = drop i l.
Proof.
  unfold slice_from, slice, rel_index.
  destruct (Z.ltb_spec (Z.of_nat i) 0); [lia|].
  destruct (Z.ltb_spec (Z.of_nat (length l)) 0); [lia|].
  rewrite Z.min_id.
  destruct (decide (i <= length l)%nat).
  - replace (Z.to_nat (Z.of_nat i `min` Z.of_nat (length l))) with i by lia.
    apply take_ge. rewrite length_drop. lia.
  - replace (Z.to_nat (Z.of_nat i `min` Z.of_nat (length l))) with (length l) by lia.
    rewrite !drop_ge by lia. by rewrite take_nil.
Qed.

(** ** [trim] *)

Lemma trimStart_first s :
  match trimStart s with [] => True | c :: _ => isWhiteSpace c = false end.
Proof.
  induction s as [|c s IH]; simpl; [done|].
  destruct (isWhiteSpace c) eqn:E; [exact IH|exact E].
Qed.

Lemma trimStart_keep c s : isWhiteSpace c = false -> trimStart (c :: s) = c :: s.
Proof. intros H. simpl. by rewrite H. Qed.

Lemma trim_keep s c d :
  head s = Some c -> isWhiteSpace c = false ->
  last s = Some d -> isWhiteSpace d = false -> trim s = s.
Proof.
  intros Hc Hwc Hd Hwd. unfold trim, trimEnd.
  destruct s as [|c' s']; [done|]. injection Hc as ->.
  rewrite trimStart_keep by done.
  apply last_Some in Hd as [l' Hl]. rewrite Hl, rev_app_distr. simpl.
  rewrite Hwd. simpl. by rewrite rev_involutive.
Qed.

Lemma trim_ends s :
  trim s = [] \/
  exists c d, head (trim s) = Some c /\ isWhiteSpace c = false /\
              last (trim s) = Some d /\ isWhiteSpace d = false.
Proof.
  unfold trim, trimEnd. set (y := trimStart s).
  destruct (MatchFacts.trimStart_suffix (rev y)) as [ws Hws].
  pose proof (trimStart_first (rev y)) as Hz.
  destruct (trimStart (rev y)) as [|d z]; [by left|]. right.
  assert (Hy : y = rev z ++ [d] ++ rev ws).
  { rewrite <- (rev_involutive y), Hws, rev_app_distr. simpl. by rewrite <- app_assoc. }
  pose proof (trimStart_first s) as Hy1. fold y in Hy1.
  assert (exists c, head (rev (d :: z)) = Some c /\ isWhiteSpace c = false)
    as (c & Hc & Hwc).
  { simpl. destruct (rev z) as [|c r] eqn:Er; simpl.
    - exists d. done.
    - exists c. split; [done|]. rewrite Hy in Hy1. exact Hy1. }
  exists c, d. split_and!; try done. simpl. by rewrite last_snoc.
Qed.

Lemma trim_trim s : trim (trim s) = trim s.
Proof.
  destruct (trim_ends s) as [->|(c & d & Hc & Hwc & Hd & Hwd)]; [done|].
  by eapply trim_keep.
Qed.

Lemma last_drop_app {A} (l : list A) i x post :
  drop i l = x :: post -> last (drop i l) = last l.
Proof.
  intros H. assert (Hi : (i < length l)%nat).
  { destruct (decide (i < length l)%nat); [done|]. rewrite drop_ge in H by lia. done. }
  rewrite !last_lookup, length_drop, lookup_drop. f_equal. lia.
Qed.

Lemma default_format_header s : startsWith (default_header ++ s) (lit "#") = true.
Proof. reflexivity. Qed.

Lemma header_found trimmed m i :
  Regex.exec header_pattern trimmed = Some m ->
  indexOf trimmed (grp 0 m) = Some i ->
  exists h post, drop i trimmed = hash :: h ++ post.
Proof.
  intros Hm Hi. apply exec_from_groups in Hm as (pv & s' & st & Hin & Hg).
  apply header_pattern_caps in Hin as [h Hh].
  apply indexOf_spec in Hi as [post Hp].
  unfold grp in Hp. rewrite Hg, Hh in Hp. simpl in Hp. eauto.
Qed.

Lemma ensureProperFormat_header content :
  startsWith (ensureProperFormat content) (lit "#") = true.
Proof.
  unfold ensureProperFormat. cbv zeta.
  destruct (startsWith (trim content) (lit "#")) eqn:E; [exact E|].
  destruct (Regex.exec header_pattern (trim content)) as [m|] eqn:Hm;
    [|apply default_format_header].
  destruct (indexOf (trim content) (grp 0 m)) as [i|] eqn:Hi;
    [|apply default_format_header].
  destruct (0 <? i)%nat; [|apply default_format_header].
  destruct (header_found _ _ _ Hm Hi) as (h & post & Hd).
  rewrite slice_from_drop, Hd.
  exact (ManagerClaims.startsWith_app (lit "#") (h ++ post)).
Qed.

End FormatFacts.

Module FormatExtras.
Import Synthesizer FormatFacts.

(** X21. Whatever the model wrote, the report that [ensureProperFormat]
    returns starts with a header sign.  It is the trimmed text when that
    starts with one, and the trimmed text under the default header when
    it has no header line at all. *)
Theorem report_starts_with_header (content : jsstring) :
  startsWith (ensureProperFormat content) (lit "#") = true /\
  (startsWith (trim content) (lit "#") = true ->
   ensureProperFormat content = trim content) /\
  (Regex.exec header_pattern (trim content) = None ->
   startsWith (trim content) (lit "#") = false ->
   ensureProperFormat content = default_header ++ trim content).
Proof.
  split; [apply ensureProperFormat_header|].
  unfold ensureProperFormat. cbv zeta. split.
  - by intros ->.
  - by intros -> ->.
Qed.

(** X22. Formatting a report twice gives the same as formatting it once,
    for every text that is not blank; a blank text gives the default
    header followed by two line feeds, and formatting that again strips
    the line feeds. *)
Theorem format_is_stable (content : jsstring) :
  (trim content <> [] ->
   ensureProperFormat (ensureProperFormat content) = ensureProperFormat content) /\
  (trim content = [] ->
   ensureProperFormat content = default_header /\
   ensureProperFormat (ensureProperFormat content) = lit "## 分析结果").
Proof.
  split.
  - intros Hne.
    assert (Hfix : forall r d, startsWith r (lit "#") = true ->
              last r = Some d -> isWhiteSpace d = false ->
              ensureProperFormat r = r).
    { intros r d Hr Hd Hwd. unfold ensureProperFormat. cbv zeta.
      assert (Ht : trim r = r).
      { destruct (MatchFacts.startsWith_split _ _ Hr) as [post Hp].
        by apply (trim_keep _ (chr "#") d); [rewrite Hp| | |]. }
      by rewrite Ht, Hr. }
    destruct (trim_ends content) as [?|(c & d & Hc & Hwc & Hd & Hwd)]; [done|].
    pose proof (ensureProperFormat_header content) as Hstart.
    apply (Hfix _ d Hstart); [|done].
    unfold ensureProperFormat. cbv zeta.
    assert (Hdef : last (default_header ++ trim content) = Some d).
    { destruct (trim content) as [|x l] eqn:Et; [done|].
      rewrite last_app. by rewrite Hd. }
    destruct (startsWith (trim content) (lit "#")); [done|].
    destruct (Regex.exec header_pattern (trim content)) as [m|] eqn:Hm; [|done].
    destruct (indexOf (trim content) (grp 0 m)) as [i|] eqn:Hi; [|done].
    destruct (0 <? i)%nat; [|done].
    destruct (header_found _ _ _ Hm Hi) as (h & post & Hdrop).
    rewrite slice_from_drop. by rewrite (last_drop_app _ _ _ _ Hdrop).
  - intros He.
    assert (H : ensureProperFormat content = default_header).
    { unfold ensureProperFormat. cbv zeta. rewrite He. reflexivity. }
    rewrite H. split; [done|]. vm_compute. reflexivity.
Qed.

End FormatExtras.

(* ===================================================================== *)
(** * The synthesis loop                                                   *)
(* ===================================================================== *)

Module SynthesisFacts.
Import Loop Orchestrator Synthesizer StableFacts ManagerFacts.
Local Open Scope eff_scope.

(** What a call of [recall] or [saveLLMTurn] leaves of the manager. *)
Definition same_manager (cm cm' : ContextManager) : Prop :=
  session cm' = session cm /\ budgetConfig cm' = budgetConfig cm /\
  systemPromptTokens cm' = systemPromptTokens cm /\
  message_files (storage cm') = message_files (storage cm).

Lemma same_manager_refl cm : same_manager cm cm.
Proof. done. Qed.




Lemma stable_lift_rel {S T A} (R : S -> S -> Prop) (RT : T -> T -> Prop)
    (proj : S -> T) (upd : T -> S -> S) (m : M T A) :
  stable RT m -> (forall s t, RT (proj s) t -> R s (upd t s)) ->
  stable R (lift proj upd m).
Proof.
  intros Hm H s. unfold lift. specialize (Hm (proj s)).
  destruct (m (proj s)) as [r t']. apply H, Hm.
Qed.

Section WithHost.

Context {host : JsonHost}.
Variable prompt : jsstring.

(** What a round of the synthesis leaves alone. *)
Definition same_synth (ag ag' : SynthesizerAgent) : Prop :=
  s_config ag' = s_config ag /\ same_manager (s_manager ag) (s_manager ag').

Lemma same_synth_refl ag : same_synth ag ag.
Proof. done. Qed.


Lemma s_in_manager_stable {A} (m : M ContextManager A) :
  stable same_manager m -> stable same_synth (s_in_manager m).
Proof. intros H. apply (stable_lift_rel same_synth same_manager); [done|]. done. Qed.









End WithHost.

End SynthesisFacts.

Module SynthesisExtras.
Import Loop Orchestrator Synthesizer StableFacts SynthesisFacts.
Local Open Scope eff_scope.

Section WithHost.

Context {host : JsonHost}.
Variable prompt : jsstring.



End WithHost.

End SynthesisExtras.

(* ===================================================================== *)
(** * The event emitter                                                    *)
(* ===================================================================== *)

Module EmitterExtras.
Import Emitter.

Section WithEvent.

Variable Event : Type.
Variable fails : Handler -> Event -> bool.

Abbreviation emitter := (EventEmitter Event).

(** A sequence of calls of [emit]. *)
Definition emit_all (evs : list Event) (em : emitter) : emitter :=
  fold_left (fun em ev => emit Event fails ev em) evs em.

Lemma call_handlers_spec ev hs (em : emitter) :
  let em' := fold_left (call_handler Event fails ev) hs em in
  handlers _ em' = handlers _ em /\ eventBuffer _ em' = eventBuffer _ em /\
  bufferingEnabled _ em' = bufferingEnabled _ em /\
  calls _ em' = calls _ em ++ List.map (fun h => (h, ev)) hs /\
  console_errors _ em'
  = console_errors _ em
    ++ List.map (fun h => (h, ev)) (List.filter (fun h => fails h ev) hs).
Proof.
  revert em. induction hs as [|h hs IH]; intros em; simpl.
  - rewrite !app_nil_r. done.
  - destruct (IH (call_handler Event fails ev em h)) as (H1 & H2 & H3 & H4 & H5).
    rewrite H1, H2, H3, H4, H5. simpl. rewrite <- app_assoc. split_and!; try done.
    destruct (fails h ev); simpl; [by rewrite <- app_assoc|done].
Qed.

Lemma emit_buffer ev (em : emitter) :
  bufferingEnabled _ (emit Event fails ev em) = bufferingEnabled _ em /\
  eventBuffer _ (emit Event fails ev em)
  = if bufferingEnabled _ em then eventBuffer _ em ++ [ev] else eventBuffer _ em.
Proof.
  unfold emit. cbv zeta.
  match goal with |- context [fold_left _ ?hs ?e] =>
    destruct (call_handlers_spec ev hs e) as (_ & H2 & H3 & _) end.
  rewrite H2, H3. destruct (bufferingEnabled _ em) eqn:E; simpl; rewrite ?E; done.
Qed.

(** X24. [emit] calls every subscribed handler once, in the order of
    subscription, with the event; a handler that throws is reported on
    the console and does not stop the others.  The event is appended to
    the buffer exactly when buffering is enabled, and the subscriptions
    and the buffering flag stay as they are. *)
Theorem emit_reaches_every_handler (ev : Event) (em : emitter) :
  let em' := emit Event fails ev em in
  handlers _ em' = handlers _ em /\
  calls _ em' = calls _ em ++ List.map (fun h => (h, ev)) (handlers _ em) /\
  console_errors _ em'
  = console_errors _ em
    ++ List.map (fun h => (h, ev))
         (List.filter (fun h => fails h ev) (handlers _ em)) /\
  bufferingEnabled _ em' = bufferingEnabled _ em /\
  eventBuffer _ em'
  = if bufferingEnabled _ em then eventBuffer _ em ++ [ev] else eventBuffer _ em.
Proof.
  unfold emit. cbv zeta.
  match goal with |- context [fold_left _ ?hs ?e] =>
    destruct (call_handlers_spec ev hs e) as (H1 & H2 & H3 & H4 & H5) end.
  rewrite H1, H2, H3, H4, H5.
  destruct (bufferingEnabled _ em) eqn:E; simpl; rewrite ?E; done.
Qed.

(** X25. [disableBuffering] returns, in their order, the events that
    were in the buffer followed by those emitted since
    [enableBuffering], and leaves the buffer empty; without buffering,
    emitting leaves the buffer as it is. *)
Theorem buffer_returns_what_was_emitted (evs : list Event) (em : emitter) :
  fst (disableBuffering _ (emit_all evs (enableBuffering _ em)))
    = eventBuffer _ em ++ evs /\
  eventBuffer _ (snd (disableBuffering _ (emit_all evs (enableBuffering _ em)))) = [] /\
  (bufferingEnabled _ em = false ->
   eventBuffer _ (emit_all evs em) = eventBuffer _ em).
Proof.
  assert (H : forall evs (e : emitter),
            bufferingEnabled _ (emit_all evs e) = bufferingEnabled _ e /\
            eventBuffer _ (emit_all evs e)
            = if bufferingEnabled _ e then eventBuffer _ e ++ evs
              else eventBuffer _ e).
  { clear. induction evs as [|ev evs IH]; intros e; simpl.
    - rewrite app_nil_r. by destruct (bufferingEnabled _ e).
    - destruct (IH (emit Event fails ev e)) as [H1 H2].
      destruct (emit_buffer ev e) as (Hb & He).
      rewrite H1, H2, Hb, He.
      destruct (bufferingEnabled _ e); [|done]. by rewrite <- app_assoc. }
  split_and!.
  - simpl. by rewrite (proj2 (H evs _)).
  - done.
  - intros Hd. rewrite (proj2 (H evs em)), Hd. done.
Qed.

End WithEvent.

End EmitterExtras.

(* ===================================================================== *)
(** * The further properties at concrete inputs                            *)
(* ===================================================================== *)

Module CaseInstances.

Import Loop Orchestrator ExampleHost Scenario Cases.

(** X2: of two tools named [read_file], the second is the one found. *)
Lemma last_registration_wins_witness :
  get_tool (registerAll ([read_file_tool] ++ read_file_again :: [think_tool])
                        plain_registry)
           (name read_file_again)
  = Some read_file_again.
Proof.
  apply RegistryExtras.last_registration_wins.
  - split; [intros dis H; discriminate H | left; reflexivity].
  - repeat constructor. vm_compute. intros H. discriminate H.
Defined.

(** X4 on a short tool result and a storage without faults. *)
Lemma save_then_load_witness :
  exists st1 st2,
    saveMessageContent (lit "SESSION001") short_tool_result storage0
      = (Ok (message_path storage0 (lit "SESSION001") (key short_tool_result)), st1) /\
    loadMessageContent (lit "SESSION001") (key short_tool_result) st1
      = (Ok (Some (StorageExtras.restored short_tool_result)), st2) /\
    (compressed short_tool_result = false ->
     originalTokens short_tool_result = None ->
     StorageExtras.restored short_tool_result = short_tool_result).
Proof.
  apply StorageExtras.save_then_load. vm_compute. constructor.
Defined.

(** X6 on the session of [history5]. *)
Lemma budget_is_consistent_witness :
  let b := budget (session_after history5) in
  used b = breakdown_systemPrompt b + breakdown_messages b /\
  available b = Z.max 0 (total b - used b - breakdown_reserved b) /\
  totalTokens (session_after history5) <= breakdown_messages b.
Proof.
  apply (ManagerExtras.budget_is_consistent no_encoder history5 storage0
           (Some small_budget) None (session_after history5)).
  - intros text n H. discriminate H.
  - exact Instances.history5_session.
Defined.

(** X7 on the session of [history5]. *)
Lemma messages_are_added_messages_witness :
  NoDup (List.map key (messages (session_after history5))) /\
  sublist (List.map key (messages (session_after history5)))
          (List.map (app (lit "msg_")) (nanoids history5)).
Proof.
  pose proof (HistoryExtras.messages_are_added_messages no_encoder history5 storage0
                (Some small_budget) None (session_after history5)
                Instances.history5_fresh Instances.history5_session) as (H1 & H2 & _).
  exact (conj H1 H2).
Defined.

Lemma history4_fresh : NoDup (nanoids history4).
Proof. apply (bool_decide_unpack _). vm_compute. exact I. Defined.

(** X8: the fifth message, whose arrival compresses the first, is the
    last one that the model is given. *)
Lemma added_message_is_last_witness :
  last (getMessagesForLLM
          (snd (addMessage no_encoder user (lit "a5") None (lit "k5") 6 manager4)))
  = Some (user, lit "a5").
Proof.
  refine (proj2 (proj2 (HistoryExtras.added_message_is_last no_encoder history4
            storage0 (Some small_budget) None user (lit "a5") None (lit "k5") 6
            fifth_message
            (snd (addMessage no_encoder user (lit "a5") None (lit "k5") 6 manager4))
            history4_fresh _ _))).
  - apply (bool_decide_unpack _). vm_compute. exact I.
  - vm_compute. reflexivity.
Defined.

(** X9 on the session of [history5], with 100 tokens to free. *)
Lemma eviction_frees_least_prefix_witness :
  exists j,
    (j <= length (messages (session_after history5))
          - Z.to_nat protectedRecentMessages)%nat /\
    messages (discardOldestMessages 100 (session_after history5))
    = drop j (messages (session_after history5)).
Proof.
  destruct (CompressionExtras.eviction_frees_least_prefix 100 (session_after history5))
    as (j & Hj & Hm & _).
  - apply (bool_decide_unpack _). vm_compute. exact I.
  - exists j. exact (conj Hj Hm).
Defined.

(** X12 on the manager after [history5]. *)
Lemma tokensToFree_is_least_witness :
  0 <= calculateTokensToFree (History.run no_encoder history5 manager0) /\
  5 * (used (budget (session_after history5))
       - calculateTokensToFree (History.run no_encoder history5 manager0))
  <= 3 * total (budget (session_after history5)).
Proof.
  pose proof (PlaceholderExtras.tokensToFree_is_least
                (History.run no_encoder history5 manager0) (session_after history5)
                Instances.history5_session) as (H1 & H2 & _).
  exact (conj H1 H2).
Defined.

(** X13: the file of [manager_with_file] is a candidate. *)
Lemma candidates_save_tokens_witness :
  150 <= savings file_candidate /\
  exists m, In m (getMessages manager_with_file) /\ key m = messageKey file_candidate /\
            tokens m = currentTokens file_candidate /\ compressed m = false.
Proof.
  pose proof (PlaceholderExtras.candidates_save_tokens manager_with_file file_candidate)
    as H.
  destruct H as (_ & _ & _ & H4 & H5).
  - vm_compute. left. reflexivity.
  - exact (conj H4 H5).
Defined.

Lemma agent0_session : session (contextManager agent0) = Some session0.
Proof. vm_compute. reflexivity. Defined.

(** X18: [read_file] on the fresh agent. *)
Lemma executeTool_outcome_witness :
  exists res ag',
    executeTool read_turn (lit "read_file") (read_args (lit "a.go")) agent0
      = (res, ag') /\
    session (contextManager ag') = Some session0 /\
    match res with
    | Throw e =>
      lit "read_file" = lit "recall_detail" /\ ag' = agent0 /\
      exists what, nullish (read_args (lit "a.go")) = Some what /\
                   e = cannot_read what (lit "key")
    | Ok r =>
      (lit "read_file" = lit "recall_detail" ->
       nullish (read_args (lit "a.go")) = None) /\
      (lit "read_file" <> lit "recall_detail" ->
       match get_tool (toolRegistry agent0) (lit "read_file"),
             tool_execute read_turn with
       | None, _ =>
         r = LoopExtras.failed_result
               (LoopExtras.unknown_tool_message (toolRegistry agent0)
                  (lit "read_file")) /\
         ag' = agent0
       | Some _, Throw e => r = LoopExtras.failed_result (message e) /\ ag' = agent0
       | Some _, Ok result =>
         r = result /\
         contextManager ag' = contextManager agent0 /\
         JsMap.get (lastToolResults (state ag')) (lit "read_file")
         = Some (output result)
       end)
    end.
Proof.
  exact (LoopExtras.executeTool_outcome read_turn (lit "read_file")
           (read_args (lit "a.go")) agent0 session0 agent0_session).
Defined.

(** X20: the model is down from the first call on. *)
Lemma failed_model_call_is_reported_witness :
  exists r ag',
    investigate no_encoder prompt0 model_down (lit "Test query") agent0 = (Ok r, ag') /\
    inv_success r = false /\ inv_error r = Some (lit "429 rate limited").
Proof.
  destruct (add_message no_encoder user (lit "Test query") not_compressible
              (with_total 0 agent0)) as [[m|e] ag1] eqn:E.
  - destruct (LoopExtras.failed_model_call_is_reported no_encoder prompt0 model_down
                (lit "Test query") agent0 ag1 session0 m rate_limited
                agent0_session E)
      as (r & ag' & H1 & H2 & H3 & _); [reflexivity | reflexivity | reflexivity |].
    exists r, ag'. exact (conj H1 (conj H2 H3)).
  - exfalso.
    assert (H : match fst (add_message no_encoder user (lit "Test query")
                             not_compressible (with_total 0 agent0)) with
                | Ok _ => true
                | Throw _ => false
                end = true) by (vm_compute; reflexivity).
    rewrite E in H. discriminate H.
Defined.

End CaseInstances.
